(** * NCC orchestrator: a shallow embedding of the execution core

    The development follows the Go packages of the repository:

    - [GoLib]: the fragments of the Go runtime and standard library the
      code relies on (slices that may be nil, [strings], [strconv.Atoi],
      [bufio.Scanner] with [ScanLines]);
    - [Errors]: package [errors] (error values, [IsRetryableStatus]);
    - [Types]: package [types] ([ParsedBlock], [ClusterResult], the [FS]
      interface and an in-memory implementation);
    - [Parser]: package [parser] ([splitLines], [detectSeverity],
      [ParseSummary], [SanitizeSummary]);
    - [Client]: package [client] ([jitteredBackoff], [retryAfterDelay],
      [DoWithRetry]);
    - [Cmd]: package [cmd] ([filterBlocksToFile], [buildFilteredLog],
      [applyFilters], [runClusterWithBars], the worker of [runNCCChecks]).

    Go strings are byte strings, modelled by [string]; Go [int], [int64]
    and [time.Duration] values are modelled in [Z], with the 64-bit
    wrap-around written out where the code does arithmetic on them. *)

From Stdlib Require Import ZArith List Bool Ascii String Lia.
From Stdlib Require Import DecimalString Sorted.
Import ListNotations.

Open Scope string_scope.
Open Scope Z_scope.

(* ================================================================= *)
(** ** Go runtime and library fragments *)

Module GoLib.

(** A Go slice value is either [nil] or a (possibly empty) backing
    sequence; [append] on [nil] allocates. *)
Definition slice (A : Type) : Type := option (list A).

Definition elems {A} (s : slice A) : list A :=
  match s with
  | None => []
  | Some l => l
  end.

Definition append {A} (s : slice A) (x : A) : slice A :=
  Some (elems s ++ [x])%list.

Definition len {A} (s : slice A) : Z := Z.of_nat (List.length (elems s)).

Definition isNil {A} (s : slice A) : bool :=
  match s with
  | None => true
  | Some _ => false
  end.

Definition nl : ascii := "010"%char.
Definition cr : ascii := "013"%char.
Definition NL : string := String nl "".

(** [strings.HasPrefix], [strings.HasSuffix], [strings.Contains] *)
Definition HasPrefix (s pre : string) : bool := String.prefix pre s.

Fixpoint HasSuffix (s suf : string) : bool :=
  (s =? suf)%string ||
  match s with
  | EmptyString => false
  | String _ s' => HasSuffix s' suf
  end.

Fixpoint Contains (s sub : string) : bool :=
  String.prefix sub s ||
  match s with
  | EmptyString => false
  | String _ s' => Contains s' sub
  end.

(** [strings.Join] *)
Definition Join (parts : list string) (sep : string) : string :=
  String.concat sep parts.

(** [strings.Split] for a one-byte separator: the result is never empty. *)
Fixpoint Split (s : string) (sep : ascii) : list string :=
  match s with
  | EmptyString => [""]
  | String c s' =>
      if (c =? sep)%char then "" :: Split s' sep
      else match Split s' sep with
           | [] => [String c ""]
           | l :: ls => String c l :: ls
           end
  end.

(** [strings.ReplaceAll s "\\n" "\n"]: every non-overlapping occurrence,
    left to right, of backslash followed by [n] becomes a line feed. *)
Fixpoint ReplaceAll_escaped_nl (s : string) : string :=
  match s with
  | EmptyString => EmptyString
  | String c s' =>
      match s' with
      | String d s'' =>
          if ((c =? "\")%char && (d =? "n")%char)%bool
          then String nl (ReplaceAll_escaped_nl s'')
          else String c (ReplaceAll_escaped_nl s')
      | EmptyString => String c EmptyString
      end
  end.

Fixpoint takeWhile {A} (p : A -> bool) (l : list A) : list A :=
  match l with
  | [] => []
  | x :: r => if p x then x :: takeWhile p r else []
  end.

(** *** [bufio.Scanner] with the [ScanLines] split function

    [ScanLines] yields the text between line feeds with one trailing
    carriage return dropped; a final segment that is empty yields no
    token.  The scanner stops (with [ErrTooLong], which [splitLines]
    never inspects) at the first line that does not fit its buffer
    together with its terminator. *)
Fixpoint dropCR (s : string) : string :=
  match s with
  | EmptyString => EmptyString
  | String c s' =>
      match s' with
      | EmptyString => if (c =? cr)%char then EmptyString else s
      | String _ _ => String c (dropCR s')
      end
  end.

Fixpoint dropFinalEmpty (l : list string) : list string :=
  match l with
  | [] => []
  | x :: r =>
      match r with
      | [] => if (x =? "")%string then [] else [x]
      | _ :: _ => x :: dropFinalEmpty r
      end
  end.

Definition fitsBuffer (maxTokenSize : N) (seg : string) : bool :=
  (N.of_nat (String.length seg) <? maxTokenSize)%N.

Definition ScanLines (maxTokenSize : N) (s : string) : list string :=
  map dropCR (takeWhile (fitsBuffer maxTokenSize) (dropFinalEmpty (Split s nl))).

(** *** [strconv.Atoi] on a 64-bit platform: an optional sign, then
    decimal digits only, and the value must fit [int]. *)
Definition digitVal (c : ascii) : option Z :=
  let n := Z.of_nat (nat_of_ascii c) in
  if ((48 <=? n) && (n <=? 57))%bool then Some (n - 48) else None.

Fixpoint parseDigits (s : string) (acc : Z) : option Z :=
  match s with
  | EmptyString => Some acc
  | String c s' =>
      match digitVal c with
      | Some d => parseDigits s' (10 * acc + d)
      | None => None
      end
  end.

Definition minInt64 : Z := - 2 ^ 63.
Definition maxInt64 : Z := 2 ^ 63 - 1.

Definition inInt64 (z : Z) : bool := ((minInt64 <=? z) && (z <=? maxInt64))%bool.

(** two's-complement wrap-around of 64-bit signed arithmetic *)
Definition wrap64 (z : Z) : Z := (z + 2 ^ 63) mod 2 ^ 64 - 2 ^ 63.

Definition Atoi (s : string) : option Z :=
  let unsigned (neg : bool) (ds : string) :=
    match ds with
    | EmptyString => None
    | String _ _ =>
        match parseDigits ds 0 with
        | Some n => let v := if neg then - n else n in
                    if inInt64 v then Some v else None
        | None => None
        end
    end in
  match s with
  | EmptyString => None
  | String c s' =>
      if (c =? "-")%char then unsigned true s'
      else if (c =? "+")%char then unsigned false s'
      else unsigned false s
  end.

(** [strings.ReplaceAll] of one byte by a string *)
Fixpoint ReplaceAll_byte (s : string) (old : ascii) (new : string) : string :=
  match s with
  | EmptyString => EmptyString
  | String c s' =>
      if (c =? old)%char then new ++ ReplaceAll_byte s' old new
      else String c (ReplaceAll_byte s' old new)
  end.

(** [html.EscapeString] *)
Fixpoint html_EscapeString (s : string) : string :=
  match s with
  | EmptyString => EmptyString
  | String c s' =>
      (if (c =? "&")%char then "&amp;"
       else if (c =? "'")%char then "&#39;"
       else if (c =? "<")%char then "&lt;"
       else if (c =? ">")%char then "&gt;"
       else if (c =? "034")%char then "&#34;"
       else String c "") ++ html_EscapeString s'
  end.

(** [%d] of [fmt.Sprintf] *)
Definition Itoa (z : Z) : string := NilZero.string_of_int (Z.to_int z).

End GoLib.

(* ================================================================= *)
(** ** Package [errors] *)

Module Errors.

Inductive ErrorType :=
| ErrorTypeConfig | ErrorTypeNetwork | ErrorTypeAuth | ErrorTypeParse
| ErrorTypeFile | ErrorTypeValidation | ErrorTypeTimeout | ErrorTypeUnknown.

(** Error values: [NCCError] (built by [New] and [Wrap]), [HTTPError]
    (an [NCCError] of type network with status and URL), and errors that
    come from outside the repository (context, transport, filesystem). *)
#[warnings="-register-all"]
Inductive GoError :=
| NCCError (t : ErrorType) (message : string) (err : option GoError)
| HTTPError (statusCode : Z) (url : string) (message : string)
| ExternalError (message : string).

(** The Go type [error]: [None] is [nil]. *)
Definition error : Type := option GoError.

Definition New (t : ErrorType) (message : string) : GoError :=
  NCCError t message None.

Definition Wrap (e : GoError) (t : ErrorType) (message : string) : GoError :=
  NCCError t message (Some e).

Definition NewHTTPError (statusCode : Z) (url message : string) : GoError :=
  HTTPError statusCode url message.

Definition ParseError (message : string) : GoError := New ErrorTypeParse message.

Definition NetworkError (message : string) : GoError := New ErrorTypeNetwork message.

Definition IsRetryableStatus (code : Z) : bool :=
  (code =? 408) || (code =? 429) || (code =? 500) ||
  (code =? 502) || (code =? 503) || (code =? 504).

End Errors.

(* ================================================================= *)
(** ** Package [types] *)

Module Types.
Import GoLib Errors.

Record TaskStatus := mkTaskStatus {
  PercentageComplete : Z;
  ProgressStatus : string
}.

Record NCCSummary := mkNCCSummary { RunSummary : string }.

Record ParsedBlock := mkParsedBlock {
  Severity : string;
  CheckName : string;
  DetailRaw : string
}.

Record Row := mkRow {
  RowSeverity : string;
  RowCheckName : string;
  RowDetail : string      (* [template.HTML] *)
}.

Record ClusterResult := mkClusterResult {
  Cluster : string;
  Blocks : slice ParsedBlock;
  Err : error
}.

(** The [FS] interface, over an explicit file-system state: every
    operation returns the state it leaves behind.  The permission
    arguments are left out, and so are [ReadDir] and [Create], which the
    functions modelled here do not call. *)
Class FS (St : Type) := {
  MkdirAll : string -> St -> St * error;
  WriteFile : string -> string -> St -> St * error;
  ReadFile : string -> St -> string * error
}.

(** An in-memory file system: the most recent write to a path wins. *)
Definition MemFS : Type := list (string * string).

Fixpoint memLookup (path : string) (fs : MemFS) : option string :=
  match fs with
  | [] => None
  | (p, d) :: r => if (p =? path)%string then Some d else memLookup path r
  end.

#[export] Instance MemFS_FS : FS MemFS := {
  MkdirAll := fun _ st => (st, None);
  WriteFile := fun path data st => ((path, data) :: st, None);
  ReadFile := fun path st =>
    match memLookup path st with
    | Some d => (d, None)
    | None => ("", Some (ExternalError "file does not exist"))
    end
}.

End Types.

(* ================================================================= *)
(** ** Package [parser] *)

Module Parser.
Import GoLib Errors Types.

(** [reBlockStart = ^Detailed information for .*] and
    [reBlockEnd = ^Refer to.*]: without the multi-line flag [^] is the
    start of the text and [.*] matches the empty string, so a line
    matches exactly when it starts with the literal. *)
Definition reBlockStart (line : string) : bool :=
  HasPrefix line "Detailed information for ".

Definition reBlockEnd (line : string) : bool :=
  HasPrefix line "Refer to".

(** [reSeverity = \b(FAIL|WARN|INFO|ERR):].  The four words start with
    a word byte, so [\b] holds in front of one exactly when the
    preceding byte is not a word byte (or the text starts there). *)
Definition isWordByte (c : ascii) : bool :=
  let n := Z.of_nat (nat_of_ascii c) in
  ((48 <=? n) && (n <=? 57)) || ((65 <=? n) && (n <=? 90)) ||
  ((97 <=? n) && (n <=? 122)) || (n =? 95).

Definition severityAt (s : string) : option string :=
  if HasPrefix s "FAIL:" then Some "FAIL"
  else if HasPrefix s "WARN:" then Some "WARN"
  else if HasPrefix s "INFO:" then Some "INFO"
  else if HasPrefix s "ERR:" then Some "ERR"
  else None.

(** leftmost match of [reSeverity] in [s], where [prevWord] tells whether
    the byte in front of [s] is a word byte *)
Fixpoint reSeverity_find (prevWord : bool) (s : string) : option string :=
  match s with
  | EmptyString => None
  | String c s' =>
      match (if prevWord then None else severityAt s) with
      | Some w => Some w
      | None => reSeverity_find (isWordByte c) s'
      end
  end.

Definition maxTokenSize : N := 4 * 1024 * 1024.

Definition splitLines (s : string) : list string :=
  let lines := ScanLines maxTokenSize s in
  if (0 <? Z.of_nat (String.length s)) && HasSuffix s NL
  then (lines ++ [""])%list
  else lines.

Definition detectSeverity (s : string) : string :=
  match reSeverity_find false s with
  | Some w => w
  | None =>
      if Contains s "FAIL:" then "FAIL"
      else if Contains s "WARN:" then "WARN"
      else if Contains s "ERR:" then "ERR"
      else if Contains s "INFO:" then "INFO"
      else "INFO"
  end.

Definition mkBlock (checkName : string) (buf : list string) : ParsedBlock :=
  let joined := Join buf NL in
  {| Severity := detectSeverity joined;
     CheckName := checkName;
     DetailRaw := joined |}.

(** The loop of [ParseSummary] over the lines from index [i] on, with
    the blocks appended so far.  The inner [fix] is the loop that
    gathers [buf]; when it stops on a closing line the outer loop
    resumes behind that line, when it runs off the end the block is
    appended all the same and the outer loop ends. *)
Fixpoint parseLoop (lines : list string) (blocks : slice ParsedBlock)
  : slice ParsedBlock :=
  match lines with
  | [] => blocks
  | line :: rest =>
      if reBlockStart line then
        (fix gather (r : list string) (buf : list string) {struct r}
           : slice ParsedBlock :=
           match r with
           | [] => append blocks (mkBlock line buf)
           | x :: r' =>
               if reBlockEnd x
               then parseLoop r' (append blocks (mkBlock line (buf ++ [x])%list))
               else gather r' (buf ++ [x])%list
           end) rest []
      else parseLoop rest blocks
  end.

Definition ParseSummary (text : string) : slice ParsedBlock * error :=
  if (text =? "")%string then
    (None, Some (ParseError "empty summary text"))
  else
    let lines := splitLines text in
    let blocks := parseLoop lines None in
    if len blocks =? 0 then
      (None, Some (ParseError "no valid blocks found in summary"))
    else (blocks, None).

Definition RowsFromBlocks (blocks : slice ParsedBlock) : list Row :=
  map (fun b =>
         let detail := ReplaceAll_byte (html_EscapeString (DetailRaw b)) nl "<br>" in
         {| RowSeverity := Severity b;
            RowCheckName := html_EscapeString (ReplaceAll_byte (CheckName b) nl " ");
            RowDetail := detail |})
      (elems blocks).

Definition SanitizeSummary (s : string) : string := ReplaceAll_escaped_nl s.

End Parser.

(* ================================================================= *)
(** ** Package [config] *)

Module Config.

(** The fields of [Config] read by the execution core; durations are
    [time.Duration] values, in nanoseconds. *)
Record Config := mkConfig {
  Username : string;
  Password : string;
  Timeout : Z;
  RequestTimeout : Z;
  PollInterval : Z;
  PollJitter : Z;
  OutputDirLogs : string;
  OutputDirFiltered : string;
  OutputFormats : list string;
  MaxParallel : Z;
  RetryMaxAttempts : Z;
  RetryBaseDelay : Z;
  RetryMaxDelay : Z
}.

Definition Millisecond : Z := 1000000.
Definition Second : Z := 1000 * Millisecond.
Definition Minute : Z := 60 * Second.

Definition DefaultConfig : Config :=
  {| Username := "";
     Password := "";
     Timeout := 15 * Minute;
     RequestTimeout := 20 * Second;
     PollInterval := 15 * Second;
     PollJitter := 2 * Second;
     OutputDirLogs := "nccfiles";
     OutputDirFiltered := "outputfiles";
     OutputFormats := ["html"];
     MaxParallel := 4;
     RetryMaxAttempts := 6;
     RetryBaseDelay := 400 * Millisecond;
     RetryMaxDelay := 8 * Second |}.

End Config.

(* ================================================================= *)
(** ** Package [client]: the retrying HTTP caller *)

Module Client.
Import GoLib Errors Types Config.

(** What a function call does: it returns, or it panics. *)
Inductive Outcome (A : Type) :=
| Returns (a : A)
| Panics (message : string).
Arguments Returns {A} a.
Arguments Panics {A} message.

Record Response := mkResponse {
  StatusCode : Z;
  Header_Get : string -> string   (* [resp.Header.Get]: "" when absent *)
}.

(** [req.Body]: [None] is a nil body, otherwise what [io.ReadAll] on it
    gives. *)
Record Request := mkRequest {
  URL : string;
  Body : option (string + GoError)
}.

(** One call of [client.Do] followed by [io.ReadAll(resp.Body)]. *)
Inductive DoOutcome :=
| DoError (resp : option Response) (e : GoError)
| DoResponse (resp : Response) (read : string + GoError).

(** Everything outside the caller's control, indexed by the attempt
    number: the HTTP client, the outer context, the random generator,
    the clock, and the two library computations on [float64] and on
    HTTP dates. *)
Record Env := mkEnv {
  clientDo : Z -> option string -> DoOutcome;
  ctxErr : Z -> error;              (* [ctx.Err()] after a transport error *)
  ctxDone : Z -> Z -> error;        (* [Some e]: [ctx.Done()] wins the select *)
  randInt63 : Z -> Z;               (* the generator's raw draw *)
  durationOfFloat : Z -> Z -> Z;
    (* [time.Duration(float64(base) * math.Pow(2, float64(attempt-1)))] *)
  parseTimeUntil : string -> option Z
    (* [http.ParseTime] followed by [time.Until] *)
}.

(** On small values the [float64] computation is exact. *)
Definition exactDuration (base attempt : Z) : Z := base * 2 ^ (attempt - 1).

(** [rand.Int63n]: panics on a bound that is not positive, otherwise a
    value in the half-open interval from 0 to the bound. *)
Definition Int63n (raw n : Z) : Outcome Z :=
  if n <=? 0 then Panics "invalid argument to Int63n"
  else Returns (raw mod n).

(** What the caller did, in order. *)
Inductive Event :=
| EvDo (attempt : Z) (body : option string)      (* [client.Do] issued *)
| EvWait (attempt : Z) (back : Z)                (* [time.After(back)] elapsed *)
| EvCancelled (attempt : Z) (back : Z).          (* [ctx.Done()] won instead *)

Section Caller.
Variable env : Env.

Definition jitteredBackoff (raw : Z) (base maxDelay attempt : Z) : Outcome Z :=
  let exp := durationOfFloat env base attempt in
  let capDelay := exp in
  let capDelay := if capDelay >? maxDelay then maxDelay else capDelay in
  if capDelay <=? 0 then Returns 0
  else Int63n raw capDelay.

Definition retryAfterDelay (resp : option Response) : Z * bool :=
  match resp with
  | None => (0, false)
  | Some resp =>
      let ra := Header_Get resp "Retry-After" in
      if (ra =? "")%string then (0, false)
      else match Atoi ra with
           | Some secs => (wrap64 (secs * Second), true)
           | None =>
               match parseTimeUntil env ra with
               | Some d => ((if d <? 0 then 0 else d), true)
               | None => (0, false)
               end
           end
  end.

(** The variables [resp], [body] and [lastErr] declared before the loop. *)
Record LoopVars := mkLoopVars {
  v_resp : option Response;
  v_body : option string;
  v_lastErr : error
}.

Definition Result : Type := option Response * option string * error.

Inductive Step :=
| Continue (vars : LoopVars)
| Return (r : Result)
| Panic (message : string).

(** The [select] between [ctx.Done()] and [time.After(back)]. *)
Definition waitBackoff (attempt back : Z) (onCancel : GoError -> Result)
  (vars : LoopVars) : list Event * Step :=
  match ctxDone env attempt back with
  | Some e => ([EvCancelled attempt back], Return (onCancel e))
  | None => ([EvWait attempt back], Continue vars)
  end.

Definition cancelledDuringRetry (e : GoError) : GoError :=
  Wrap e ErrorTypeTimeout "context cancelled during retry".

(** One iteration of the loop of [DoWithRetry]. *)
Definition attemptOnce (cfg : Config) (req : Request) (op : string)
  (origBody : option string) (attempts attempt : Z) (vars : LoopVars)
  : list Event * Step :=
  let backoff (k : Z -> list Event * Step) : list Event * Step :=
    match jitteredBackoff (randInt63 env attempt)
            (RetryBaseDelay cfg) (RetryMaxDelay cfg) attempt with
    | Returns back => k back
    | Panics m => ([], Panic m)
    end in
  let '(evs, step) :=
    match clientDo env attempt origBody with
    | DoError resp lastErr =>
        let vars := mkLoopVars resp (v_body vars) (Some lastErr) in
        match ctxErr env attempt with
        | Some e =>
            ([], Return (None, None,
                         Some (Wrap e ErrorTypeTimeout "context cancelled")))
        | None =>
            if attempt <? attempts then
              backoff (fun back =>
                waitBackoff attempt back
                  (fun e => (None, None, Some (cancelledDuringRetry e))) vars)
            else
              ([], Return (None, None,
                           Some (Wrap lastErr ErrorTypeNetwork
                                   "request failed after retries")))
        end
    | DoResponse resp (inr lastErr) =>
        (* [body] holds the partial read; it is only read again behind
           the loop, which [retryLoop_ends_in_attempt] shows is never
           reached *)
        let vars := mkLoopVars (Some resp) None (Some lastErr) in
        if attempt <? attempts then
          backoff (fun back =>
            waitBackoff attempt back
              (fun e => (None, None, Some (cancelledDuringRetry e))) vars)
        else
          ([], Return (Some resp, None,
                       Some (Wrap lastErr ErrorTypeNetwork
                               "failed to read response body")))
    | DoResponse resp (inl body) =>
        let vars := mkLoopVars (Some resp) (Some body) None in
        let status := StatusCode resp in
        if (200 <=? status) && (status <? 300) then
          ([], Return (Some resp, Some body, None))
        else
          let retryable := IsRetryableStatus status in
          let back := 0 in
          let back :=
            if status =? 429 then
              match retryAfterDelay (Some resp) with
              | (ra, true) => ra
              | (_, false) => back
              end
            else back in
          let withBack (back : Z) : list Event * Step :=
            if retryable && (attempt <? attempts) then
              waitBackoff attempt back
                (fun e => (Some resp, Some body, Some (cancelledDuringRetry e)))
                vars
            else
              ([], Return (Some resp, Some body,
                           Some (NewHTTPError status (URL req)
                                   (op ++ " HTTP " ++ Itoa status)))) in
          if back =? 0 then backoff withBack else withBack back
    end in
  (EvDo attempt origBody :: evs, step).

(** [for attempt := 1; attempt <= attempts; attempt++]: [remaining]
    counts the iterations still allowed, [attempts - attempt + 1]. *)
Fixpoint retryLoop (cfg : Config) (req : Request) (op : string)
  (origBody : option string) (attempts : Z)
  (remaining : nat) (attempt : Z) (vars : LoopVars)
  : list Event * Outcome Result :=
  match remaining with
  | O =>
      ([], Returns
             match v_lastErr vars with
             | Some lastErr =>
                 (None, None,
                  Some (Wrap lastErr ErrorTypeNetwork "request failed"))
             | None =>
                 (v_resp vars, v_body vars,
                  Some (NetworkError (op ++ " exhausted retries")))
             end)
  | S remaining' =>
      match attemptOnce cfg req op origBody attempts attempt vars with
      | (evs, Return r) => (evs, Returns r)
      | (evs, Panic m) => (evs, Panics m)
      | (evs, Continue vars') =>
          let '(evs', r) :=
            retryLoop cfg req op origBody attempts remaining'
              (attempt + 1) vars' in
          ((evs ++ evs')%list, r)
      end
  end.

Definition DoWithRetry (req : Request) (cfg : Config) (op : string)
  : list Event * Outcome Result :=
  let attempts := RetryMaxAttempts cfg in
  let attempts := if attempts <? 1 then 1 else attempts in
  let vars := mkLoopVars None None None in
  match Body req with
  | Some (inr err) =>
      ([], Returns (None, None,
                    Some (Wrap err ErrorTypeNetwork "failed to read request body")))
  | Some (inl b) =>
      retryLoop cfg req op (Some b) attempts (Z.to_nat attempts) 1 vars
  | None =>
      retryLoop cfg req op None attempts (Z.to_nat attempts) 1 vars
  end.

End Caller.

(** The events of a call that are attempts, and the delays it waited. *)
Definition attemptsIssued (evs : list Event) : list Z :=
  flat_map (fun e => match e with EvDo k _ => [k] | _ => [] end) evs.

Definition delaysWaited (evs : list Event) : list (Z * Z) :=
  flat_map (fun e => match e with EvWait k d => [(k, d)] | _ => [] end) evs.

End Client.

(* ================================================================= *)
(** ** Package [cmd]: the per-endpoint state machine and its worker *)

Module Cmd.
Import GoLib Errors Types Config Parser.

(** Library functions the package calls whose definition is not part of
    the repository: [regexp], [strings.TrimSpace], [strings.ToLower]
    and [path/filepath]. *)
Class Lib := {
  Regexp : Type;
  regexp_Compile : string -> option Regexp;     (* [None]: the pattern is invalid *)
  MatchString : Regexp -> string -> bool;
  TrimSpace : string -> string;
  ToLower : string -> string;
  filepath_Join : string -> string -> string;
  filepath_Dir : string -> string
}.

(** The three [viper] settings read by [applyFilters]. *)
Record Filters := mkFilters {
  filter_severity : string;
  filter_check : string;
  filter_cluster : string
}.

Definition noFilters : Filters := mkFilters "" "" "".

(** What the presenter is told: [onPct] is [b.SetCurrent], [setPhase]
    sets the phase text. *)
Inductive UIEvent :=
| SetCurrent (pct : Z)
| SetPhase (text : string).

(** One turn of the polling loop: the raw draw for the jitter, then
    which case of the [select] is taken. *)
Inductive Selected :=
| CtxDone (e : GoError)
| TimerFired (r : TaskStatus * option string * error).   (* [GetTask] *)

Record PollIter := mkPollIter {
  jitterRaw : Z;
  selected : Selected
}.

Inductive RunOutcome (A : Type) :=
| Finished (a : A)
| Panicked (message : string)
| StillPolling.            (* the environment has no further turn yet *)
Arguments Finished {A} a.
Arguments Panicked {A} message.
Arguments StillPolling {A}.

Definition separator : string :=
  NL ++ NL ++ "---------------------------------------" ++ NL.

Section Machine.
Context {lib : Lib} {St : Type} {fsys : FS St}.

(** The remote API client and the report renderer of one endpoint run. *)
Record RunEnv := mkRunEnv {
  startChecks : string * option string * error;
  polls : list PollIter;
  getRunSummary : NCCSummary * option string * error;
  generateHTML : list Row -> string -> St -> St * error;
  generateCSV : slice ParsedBlock -> string -> St -> St * error;
  generateJSON : slice ParsedBlock -> string -> St -> St * error
}.

(** The loop over [blocks] that fills the [strings.Builder]. *)
Definition writeBlocks (blocks : slice ParsedBlock) : string :=
  fold_left
    (fun b pb => (((b ++ CheckName pb) ++ NL) ++ DetailRaw pb) ++ separator)
    (elems blocks) "".

Definition filterBlocksToFile (inputPath outputPath : string) (fs : St)
  : St * error :=
  match ReadFile inputPath fs with
  | (_, Some err) => (fs, Some err)
  | (data, None) =>
      match ParseSummary data with
      | (_, Some err) => (fs, Some err)
      | (blocks, None) =>
          match MkdirAll (filepath_Dir outputPath) fs with
          | (fs, Some err) => (fs, Some err)
          | (fs, None) => WriteFile outputPath (writeBlocks blocks) fs
          end
      end
  end.

Definition buildFilteredLog (inputPath outputPath : string) (fs : St)
  : St * error :=
  match ReadFile inputPath fs with
  | (_, Some err) => (fs, Some err)
  | (data, None) =>
      match ParseSummary data with
      | (_, Some err) => (fs, Some err)
      | (blocks, None) =>
          match MkdirAll (filepath_Dir outputPath) fs with
          | (fs, Some err) => (fs, Some err)
          | (fs, None) => WriteFile outputPath (writeBlocks blocks) fs
          end
      end
  end.

Definition writeSummary (folder cluster summary : string) (fs : St)
  : St * (string * error) :=
  match MkdirAll folder fs with
  | (fs, Some err) =>
      (fs, ("", Some (Wrap err ErrorTypeFile "failed to create directory")))
  | (fs, None) =>
      let outPath := filepath_Join folder (cluster ++ ".log") in
      match WriteFile outPath (SanitizeSummary summary) fs with
      | (fs, Some err) =>
          (fs, ("", Some (Wrap err ErrorTypeFile "failed to write summary")))
      | (fs, None) => (fs, (outPath, None))
      end
  end.

Definition applyFilters (flt : Filters) (blocks : slice ParsedBlock)
  (cluster : string) : slice ParsedBlock :=
  let filtered : slice ParsedBlock := None in
  let severityFilter := filter_severity flt in
  let checkFilter := filter_check flt in
  let clusterFilter := filter_cluster flt in
  let checkRegex :=
    if (checkFilter =? "")%string then None else regexp_Compile checkFilter in
  let clusterRegex :=
    if (clusterFilter =? "")%string then None else regexp_Compile clusterFilter in
  let keep (block : ParsedBlock) : bool :=
    (if (severityFilter =? "")%string then true
     else existsb (fun s => (TrimSpace s =? Severity block)%string)
            (Split severityFilter ","))
    && match checkRegex with
       | Some re => MatchString re (CheckName block)
       | None => true
       end in
  if match clusterRegex with
     | Some re => negb (MatchString re cluster)
     | None => false
     end
  then filtered
  else
    fold_left (fun filtered block =>
                 if keep block then append filtered block else filtered)
      (elems blocks) filtered.

Inductive PollResult :=
| GotoSummary
| PollReturn (err : GoError)
| PollPanic (message : string)
| PollPending.

(** The polling loop of [runClusterWithBars], from the value [last]. *)
Fixpoint pollLoop (cfg : Config) (turns : list PollIter) (last : Z)
  : list UIEvent * PollResult :=
  match turns with
  | [] => ([], PollPending)
  | turn :: rest =>
      match Client.Int63n (jitterRaw turn) (PollJitter cfg) with
      | Client.Panics m => ([], PollPanic m)
      | Client.Returns jitter =>
          match selected turn with
          | CtxDone e =>
              ([], PollReturn (Wrap e ErrorTypeTimeout
                                 "context cancelled during polling"))
          | TimerFired (_, _, Some err) =>
              ([], PollReturn (Wrap err ErrorTypeNetwork "poll failed"))
          | TimerFired (status, _, None) =>
              let pct := PercentageComplete status in
              let pct := if pct <? last then last else pct in
              let pct := if pct >? 100 then 100 else pct in
              let last := pct in
              if (ProgressStatus status =? "Failed")%string then
                ([SetCurrent pct], PollReturn (New ErrorTypeNetwork "ncc task failed"))
              else if pct >=? 100 then ([SetCurrent pct], GotoSummary)
              else
                let '(evs, r) := pollLoop cfg rest last in
                (SetCurrent pct :: evs, r)
          end
      end
  end.

(** The loop over [cfg.OutputFormats]; it stops at the first renderer
    error. *)
Fixpoint renderOutputs (env : RunEnv) (formats : list string)
  (blocks : slice ParsedBlock) (base : string) (fs : St) : St * error :=
  match formats with
  | [] => (fs, None)
  | f :: rest =>
      let f := ToLower (TrimSpace f) in
      let '(fs, err) :=
        if (f =? "html")%string then
          generateHTML env (RowsFromBlocks blocks) (base ++ ".html") fs
        else if (f =? "csv")%string then
          generateCSV env blocks (base ++ ".csv") fs
        else if (f =? "json")%string then
          generateJSON env blocks (base ++ ".json") fs
        else (fs, None) in
      match err with
      | Some e => (fs, Some e)
      | None => renderOutputs env rest blocks base fs
      end
  end.

Definition Run : Type := list UIEvent * St * RunOutcome (slice ParsedBlock * error).

(** [runClusterWithBars] from the label [SUMMARY] on. *)
Definition summaryPhase (env : RunEnv) (cfg : Config) (flt : Filters)
  (cluster : string) (fs : St) : Run :=
  match getRunSummary env with
  | (_, _, Some err) =>
      ([SetPhase "summary"], fs,
       Finished (None, Some (Wrap err ErrorTypeNetwork "get summary failed")))
  | (summary, _, None) =>
      let pre := [SetPhase "summary"; SetPhase "writing"] in
      match writeSummary (OutputDirLogs cfg) cluster (RunSummary summary) fs with
      | (fs, (_, Some err)) => (pre, fs, Finished (None, Some err))
      | (fs, (logPath, None)) =>
          let filteredPath :=
            filepath_Join (OutputDirFiltered cfg) (cluster ++ ".log") in
          match filterBlocksToFile logPath filteredPath fs with
          | (fs, Some err) => (pre, fs, Finished (None, Some err))
          | (fs, None) =>
              match ReadFile filteredPath fs with
              | (_, Some err) => (pre, fs, Finished (None, Some err))
              | (data, None) =>
                  match ParseSummary data with
                  | (_, Some err) => (pre, fs, Finished (None, Some err))
                  | (blocks, None) =>
                      let blocks := applyFilters flt blocks cluster in
                      match renderOutputs env (OutputFormats cfg) blocks
                              filteredPath fs with
                      | (fs, Some err) => (pre, fs, Finished (None, Some err))
                      | (fs, None) =>
                          ((pre ++ [SetPhase "done"])%list, fs,
                           Finished (blocks, None))
                      end
                  end
              end
          end
      end
  end.

Definition runClusterWithBars (env : RunEnv) (cfg : Config) (flt : Filters)
  (cluster : string) (fs : St) : Run :=
  match startChecks env with
  | (_, _, Some err) =>
      ([SetPhase "starting"], fs,
       Finished (None, Some (Wrap err ErrorTypeNetwork "start checks failed")))
  | (taskID, _, None) =>
      let pre := [SetPhase "starting"; SetCurrent 1; SetPhase "polling"] in
      let last := 1 in
      match pollLoop cfg (polls env) last with
      | (evs, PollPending) => ((pre ++ evs)%list, fs, StillPolling)
      | (evs, PollPanic m) => ((pre ++ evs)%list, fs, Panicked m)
      | (evs, PollReturn err) =>
          ((pre ++ evs)%list, fs, Finished (None, Some err))
      | (evs, GotoSummary) =>
          let '(evs', fs, r) := summaryPhase env cfg flt cluster fs in
          ((pre ++ evs ++ evs')%list, fs, r)
      end
  end.

(** The goroutine of [runNCCChecks] for one cluster: the events it
    emits, the file system it leaves, and the result it sends on the
    [results] channel ([None] while it has not finished). *)
Definition worker (env : RunEnv) (cfg : Config) (flt : Filters)
  (cl : string) (fs : St) : list UIEvent * St * option ClusterResult :=
  match runClusterWithBars env cfg flt cl fs with
  | (evs, fs, StillPolling) => (evs, fs, None)
  | (evs, fs, Panicked m) =>
      (evs, fs,
       Some {| Cluster := cl; Blocks := None;
               Err := Some (ExternalError ("panic: " ++ m)) |})
  | (evs, fs, Finished (_, Some err)) =>
      ((evs ++ [SetPhase "failed"])%list, fs,
       Some {| Cluster := cl; Blocks := None; Err := Some err |})
  | (evs, fs, Finished (blocks, None)) =>
      ((evs ++ [SetCurrent 100; SetPhase "done"])%list, fs,
       Some {| Cluster := cl; Blocks := blocks; Err := None |})
  end.

End Machine.

(** The values [onPct] was called with. *)
Definition percents (evs : list UIEvent) : list Z :=
  flat_map (fun e => match e with SetCurrent p => [p] | _ => [] end) evs.

End Cmd.
(* ================================================================= *)
(** ** Notions used to state the properties of package [client] *)

Module ClientProps.
Import GoLib Errors Types Config Client.

Definition origBody (req : Request) : option string :=
  match Body req with
  | Some (inl b) => Some b
  | _ => None
  end.

Definition effectiveAttempts (cfg : Config) : Z :=
  if RetryMaxAttempts cfg <? 1 then 1 else RetryMaxAttempts cfg.

Definition capDelay (env : Env) (base maxDelay attempt : Z) : Z :=
  Z.min (durationOfFloat env base attempt) maxDelay.

Definition jittered (env : Env) (cfg : Config) (attempt d : Z) : Prop :=
  jitteredBackoff env (randInt63 env attempt)
    (RetryBaseDelay cfg) (RetryMaxDelay cfg) attempt = Returns d.

Definition honoured (env : Env) (ob : option string) (attempt d : Z) : Prop :=
  exists resp body,
    clientDo env attempt ob = DoResponse resp (inl body) /\
    StatusCode resp = 429 /\
    retryAfterDelay env (Some resp) = (d, true) /\ d <> 0.

(** What one iteration of the loop can do: issue the request, then
    return, be cancelled while waiting, or wait and go on. *)
Inductive attemptShape (env : Env) (cfg : Config) (ob : option string)
  (attempts attempt : Z) : list Event -> Step -> Prop :=
| ShapeReturn r :
    attemptShape env cfg ob attempts attempt [EvDo attempt ob] (Return r)
| ShapeCancelled back r :
    attemptShape env cfg ob attempts attempt
      [EvDo attempt ob; EvCancelled attempt back] (Return r)
| ShapeWait back vars' :
    attempt < attempts ->
    ctxDone env attempt back = None ->
    jittered env cfg attempt back \/ honoured env ob attempt back ->
    attemptShape env cfg ob attempts attempt
      [EvDo attempt ob; EvWait attempt back] (Continue vars').

Fixpoint countFrom (start : Z) (n : nat) : list Z :=
  match n with
  | O => []
  | S n' => start :: countFrom (start + 1) n'
  end.

(** *** Example environments *)

Definition retryAfterHeader (ra : string) : string -> string :=
  fun key => if (key =? "Retry-After")%string then ra else "".

(** A server that answers the first attempt with 429 and the given
    [Retry-After], and every later attempt with 200. *)
Definition rateLimitedEnv (ra : string) : Env :=
  {| clientDo := fun k _ =>
       if k =? 1
       then DoResponse (mkResponse 429 (retryAfterHeader ra)) (inl "busy")
       else DoResponse (mkResponse 200 (retryAfterHeader "")) (inl "ok");
     ctxErr := fun _ => None;
     ctxDone := fun _ _ => None;
     randInt63 := fun k => 123456789123 * k;
     durationOfFloat := exactDuration;
     parseTimeUntil := fun _ => None |}.

(** A server that answers 503, then 404. *)
Definition flakyEnv : Env :=
  {| clientDo := fun k _ =>
       if k =? 1
       then DoResponse (mkResponse 503 (retryAfterHeader "")) (inl "down")
       else DoResponse (mkResponse 404 (retryAfterHeader "")) (inl "gone");
     ctxErr := fun _ => None;
     ctxDone := fun _ _ => None;
     randInt63 := fun k => 987654321 * k;
     durationOfFloat := exactDuration;
     parseTimeUntil := fun _ => None |}.

(** A server whose first answer carries the given status and
    [Retry-After] but a body that cannot be read, and which answers 200
    afterwards. *)
Definition unreadEnv (status : Z) (ra : string) : Env :=
  {| clientDo := fun k _ =>
       if k =? 1
       then DoResponse (mkResponse status (retryAfterHeader ra))
              (inr (ExternalError "unexpected EOF"))
       else DoResponse (mkResponse 200 (retryAfterHeader "")) (inl "ok");
     ctxErr := fun _ => None;
     ctxDone := fun _ _ => None;
     randInt63 := fun k => 123456789123 * k;
     durationOfFloat := exactDuration;
     parseTimeUntil := fun _ => None |}.

Definition getRequest : Request := mkRequest "https://h1:9440/v1/ncc/T1" None.

End ClientProps.


(* ================================================================= *)
(** ** Notions used to state the properties of package [parser] *)

Module ParserProps.
Import GoLib Errors Types Parser.

Fixpoint hasByte (c : ascii) (s : string) : bool :=
  match s with
  | EmptyString => false
  | String d s' => (d =? c)%char || hasByte c s'
  end.

(** A line as the scanner hands it out: no line feed in it, and short
    enough for the scanner's buffer. *)
Definition lineOK (l : string) : Prop :=
  hasByte nl l = false /\ fitsBuffer maxTokenSize l = true.

Definition notEnd (l : string) : Prop := reBlockEnd l = false.

(** The lines of a finding's detail, those that match [reBlockEnd], and
    whether the detail ends with such a line. *)
Definition detailLines (b : ParsedBlock) : list string := Split (DetailRaw b) nl.

Definition referLines (b : ParsedBlock) : list string :=
  filter reBlockEnd (detailLines b).

Definition lastLine (b : ParsedBlock) : string := last (detailLines b) "".

Definition closed (b : ParsedBlock) : bool := reBlockEnd (lastLine b).

(** The shape of what [ParseSummary] builds: a block is [mkBlock] of a
    start line and the lines gathered behind it, which either end with
    the first closing line or, for the last block only, hold none. *)
Definition openShape (b : ParsedBlock) : Prop :=
  exists l buf,
    b = mkBlock l buf /\ reBlockStart l = true /\ lineOK l /\
    Forall lineOK buf /\ Forall notEnd buf.

Definition closedShape (b : ParsedBlock) : Prop :=
  exists l buf e,
    b = mkBlock l (buf ++ [e])%list /\ reBlockStart l = true /\ lineOK l /\
    Forall lineOK buf /\ lineOK e /\ Forall notEnd buf /\ reBlockEnd e = true.

Inductive parsedShape : list ParsedBlock -> Prop :=
| shape_nil : parsedShape []
| shape_open b : openShape b -> parsedShape [b]
| shape_closed b bs : closedShape b -> parsedShape bs -> parsedShape (b :: bs).

(** The inner loop of [ParseSummary] as a function of its own: the lines
    [r] still to read and the lines [buf] gathered so far. *)
Definition gatherFrom (line : string) (blocks : slice ParsedBlock)
  : list string -> list string -> slice ParsedBlock :=
  fix gather (r buf : list string) {struct r} : slice ParsedBlock :=
    match r with
    | [] => append blocks (mkBlock line buf)
    | x :: r' =>
        if reBlockEnd x
        then parseLoop r' (append blocks (mkBlock line (buf ++ [x])%list))
        else gather r' (buf ++ [x])%list
    end.

(** [blocks] with the blocks [bs] appended one by one *)
Definition appendAll (blocks : slice ParsedBlock) (bs : list ParsedBlock)
  : slice ParsedBlock :=
  match bs with
  | [] => blocks
  | _ :: _ => Some (elems blocks ++ bs)%list
  end.

(** Dropping the carriage return that ends a line, on every line. *)
Definition crNormalize (d : string) : string :=
  Join (map dropCR (Split d nl)) NL.

(** What parsing the filtered text gives back for a finding. *)
Definition reparsed (b : ParsedBlock) : ParsedBlock :=
  {| Severity := Severity b;
     CheckName := dropCR (CheckName b);
     DetailRaw := crNormalize (DetailRaw b) ++
                  (if closed b then "" else Cmd.separator) |}.

(** A function on texts that is computed line by line. *)
Definition lineFold {M : Type} (op : M -> M -> M) (unit : M)
  (g : string -> M) (ls : list string) : M :=
  fold_right (fun l acc => op (g l) acc) unit ls.

(** A string with every white-space byte removed. *)
Fixpoint stripSpace (s : string) : string :=
  match s with
  | EmptyString => EmptyString
  | String c s' =>
      let n := Z.of_nat (nat_of_ascii c) in
      if ((9 <=? n) && (n <=? 13)) || (n =? 32) then stripSpace s'
      else String c (stripSpace s')
  end.

(** A summary whose only finding is not closed by a [Refer to] line. *)
Definition unclosedSummary : string :=
  "Detailed information for check_X" ++ NL ++ "FAIL: disk full".

Definition closedSummary : string :=
  "Detailed information for check_X" ++ NL ++ "FAIL: disk full" ++ NL ++
  "Refer to KB-1" ++ NL ++ "trailer".

End ParserProps.

(* ================================================================= *)
(** ** Notions used to state the properties of package [cmd] *)

Module CmdProps.
Import GoLib Errors Types Config Parser Cmd.

(** The clamp of the specification, applied along a sequence of remote
    percentages. *)
Fixpoint clampSeq (previous : Z) (remote : list Z) : list Z :=
  match remote with
  | [] => []
  | p :: rest =>
      let v := Z.max previous (Z.min 100 p) in
      v :: clampSeq v rest
  end.

(** A turn of the polling loop in which the timer fired and [GetTask]
    succeeded, and the percentage it carried. *)
Definition okPoll (turn : PollIter) : Prop :=
  exists status body, selected turn = TimerFired (status, body, None).

Definition remotePct (turn : PollIter) : Z :=
  match selected turn with
  | TimerFired (status, _, _) => PercentageComplete status
  | CtxDone _ => 0
  end.

(** The polls of a run that were answered: the turns in which [GetTask]
    returned a status, up to the first turn in which the context is
    done or [GetTask] fails, and none after a turn whose status is
    Failed or whose percentage is 100 or more. *)
Fixpoint answered (turns : list PollIter) : list PollIter :=
  match turns with
  | [] => []
  | turn :: rest =>
      match selected turn with
      | TimerFired (status, _, None) =>
          turn ::
          (if (ProgressStatus status =? "Failed")%string
              || (100 <=? PercentageComplete status)
           then []
           else answered rest)
      | _ => []
      end
  end.

(** The status of an answered poll ends the polling. *)
Definition endsPolling (turn : PollIter) : Prop :=
  exists status body,
    selected turn = TimerFired (status, body, None) /\
    (ProgressStatus status = "Failed" \/ 100 <= PercentageComplete status).

Definition dashes : string := "---------------------------------------".

(** The text written for one finding. *)
Definition blockText (b : ParsedBlock) : string :=
  CheckName b ++ NL ++ DetailRaw b ++ NL ++ NL ++ dashes ++ NL.

(** The text for one finding in the words of the specification: a blank
    line between the check-name and the detail. *)
Definition specBlockText (b : ParsedBlock) : string :=
  CheckName b ++ NL ++ NL ++ DetailRaw b ++ NL ++ NL ++ dashes ++ NL.

(** The lines of the text written for one finding. *)
Definition renderLines (b : ParsedBlock) : list string :=
  CheckName b :: (ParserProps.detailLines b ++ [""; dashes])%list.

(** *** A library instance for examples

    It agrees with the Go functions on ASCII text, on clean relative
    paths, and on patterns without metacharacters (a pattern is matched
    as a literal substring). *)
Definition isAsciiSpace (c : ascii) : bool :=
  let n := Z.of_nat (nat_of_ascii c) in
  ((9 <=? n) && (n <=? 13)) || (n =? 32).

Fixpoint trimLeft (s : string) : string :=
  match s with
  | EmptyString => EmptyString
  | String c s' => if isAsciiSpace c then trimLeft s' else s
  end.

Fixpoint trimRight (s : string) : string :=
  match s with
  | EmptyString => EmptyString
  | String c s' =>
      match trimRight s' with
      | EmptyString => if isAsciiSpace c then EmptyString else String c EmptyString
      | String d t => String c (String d t)
      end
  end.

Fixpoint asciiToLower (s : string) : string :=
  match s with
  | EmptyString => EmptyString
  | String c s' =>
      let n := nat_of_ascii c in
      String (if ((65 <=? n) && (n <=? 90))%nat then ascii_of_nat (n + 32) else c)
             (asciiToLower s')
  end.

Fixpoint dirOf (p : string) : option string :=
  match p with
  | EmptyString => None
  | String c p' =>
      match dirOf p' with
      | Some d => Some (String c d)
      | None => if (c =? "/")%char then Some EmptyString else None
      end
  end.

Definition exampleLib : Lib :=
  {| Regexp := string;
     regexp_Compile := fun pattern => Some pattern;
     MatchString := fun re s => Contains s re;
     TrimSpace := fun s => trimRight (trimLeft s);
     ToLower := asciiToLower;
     filepath_Join := fun a b => a ++ "/" ++ b;
     filepath_Dir := fun p => match dirOf p with Some d => d | None => "." end |}.

(** *** An example run: one endpoint whose summary holds one finding of
    severity INFO (the summary arrives with escaped line feeds). *)
Definition sampleSummary : string :=
  "Detailed information for check_X\nINFO: all good\nRefer to KB-1".

Definition sampleEnv : @RunEnv MemFS :=
  {| startChecks := ("T1", Some "{}", None);
     polls :=
       [ mkPollIter 7 (TimerFired (mkTaskStatus 50 "Running", None, None));
         mkPollIter 9 (TimerFired (mkTaskStatus 40 "Running", None, None));
         mkPollIter 11 (TimerFired (mkTaskStatus 250 "Succeeded", None, None)) ];
     getRunSummary := (mkNCCSummary sampleSummary, None, None);
     generateHTML := fun _ _ st => (st, None);
     generateCSV := fun _ _ st => (st, None);
     generateJSON := fun _ _ st => (st, None) |}.

Definition failOnly : Filters := mkFilters "FAIL" "" "".

Definition rawFile : MemFS :=
  [("nccfiles/h1.log",
    "Detailed information for check_X" ++ NL ++ "FAIL: disk full" ++ NL ++ "Refer to KB-1")].

Definition parsedRawFile : slice ParsedBlock :=
  Some [ {| Severity := "FAIL";
            CheckName := "Detailed information for check_X";
            DetailRaw := "FAIL: disk full" ++ NL ++ "Refer to KB-1" |} ].

End CmdProps.

(* ================================================================= *)
(** ** Further notions for package [parser] *)

Module ParserMore.
Import GoLib Errors Types Parser ParserProps.

(** The four severities. *)
Definition severities : list string := ["FAIL"; "WARN"; "INFO"; "ERR"].

(** The escape that [SanitizeSummary] replaces: a backslash followed by
    the letter n. *)
Definition escapedNL : string := "\n".

Definition startsWith (c : ascii) (s : string) : bool :=
  match s with
  | EmptyString => false
  | String d _ => (d =? c)%char
  end.

(** The bytes [html.EscapeString] replaces, apart from the ampersand. *)
Definition markupBytes : list ascii :=
  ["<"%char; ">"%char; "034"%char; "'"%char].

(** What [html.EscapeString] writes for one byte. *)
Definition escapeByte (c : ascii) : string :=
  if (c =? "&")%char then "&amp;"
  else if (c =? "'")%char then "&#39;"
  else if (c =? "<")%char then "&lt;"
  else if (c =? ">")%char then "&gt;"
  else if (c =? "034")%char then "&#34;"
  else String c "".

Definition fits (l : string) : Prop := fitsBuffer maxTokenSize l = true.

(** A text with every line feed turned into carriage return, line
    feed. *)
Definition toCRLF (s : string) : string :=
  ReplaceAll_byte s nl (String cr NL).

(** The lines of a text with a carriage return behind every line but
    the last. *)
Fixpoint addCR (l : list string) : list string :=
  match l with
  | [] => []
  | x :: r =>
      match r with
      | [] => [x]
      | _ :: _ => (x ++ String cr "") :: addCR r
      end
  end.

(** Example inputs. *)
Definition twoLineText : string := "first line" ++ NL ++ "second line" ++ NL.

(** A line of [n] bytes [c]. *)
Fixpoint repeatByte (c : ascii) (n : nat) : string :=
  match n with
  | O => EmptyString
  | S n' => String c (repeatByte c n')
  end.

(** A line as long as the scanner's buffer, 4 MiB of the letter a, and
    a line one byte shorter. *)
Definition longLine : string := repeatByte "a" (N.to_nat maxTokenSize).

Definition shortLine : string := repeatByte "a" (N.to_nat (maxTokenSize - 1)).

(** A summary that holds a complete finding behind a long line. *)
Definition longLineSummary : string := longLine ++ NL ++ closedSummary.

End ParserMore.

(* ================================================================= *)
(** ** Package [errors]: the methods of error values *)

Module ErrorsMore.
Import GoLib Errors.

(** The field [Type] of an error of this repository; an [HTTPError]
    embeds an [NCCError] made by [New(ErrorTypeNetwork, message)].
    Errors from outside the repository have no such field. *)
Definition errorType (e : GoError) : option ErrorType :=
  match e with
  | NCCError t _ _ => Some t
  | HTTPError _ _ _ => Some ErrorTypeNetwork
  | ExternalError _ => None
  end.

(** The method [IsRetryable] of [NCCError], which [HTTPError] inherits. *)
Definition IsRetryable (e : GoError) : option bool :=
  match errorType e with
  | Some ErrorTypeNetwork | Some ErrorTypeTimeout => Some true
  | Some _ => Some false
  | None => None
  end.

(** The string of an [ErrorType]. *)
Definition typeName (t : ErrorType) : string :=
  match t with
  | ErrorTypeConfig => "config"
  | ErrorTypeNetwork => "network"
  | ErrorTypeAuth => "auth"
  | ErrorTypeParse => "parse"
  | ErrorTypeFile => "file"
  | ErrorTypeValidation => "validation"
  | ErrorTypeTimeout => "timeout"
  | ErrorTypeUnknown => "unknown"
  end.

(** The method [Error]: for an [NCCError] the type in brackets, the
    message and, when it wraps an error, that error's text. *)
Fixpoint ErrorString (e : GoError) : string :=
  match e with
  | NCCError t message (Some err) =>
      "[" ++ typeName t ++ "] " ++ message ++ ": " ++ ErrorString err
  | NCCError t message None => "[" ++ typeName t ++ "] " ++ message
  | HTTPError _ _ message => "[network] " ++ message
  | ExternalError message => message
  end.

End ErrorsMore.

(* ================================================================= *)
(** ** Further notions for package [client] *)

Module ClientMore.
Import GoLib Errors Types Config Client ClientProps ErrorsMore.

Definition is2xx (r : Response) : bool :=
  (200 <=? StatusCode r) && (StatusCode r <? 300).

(** An attempt that failed in a way the loop retries: a transport error
    while the context is alive, a response whose body could not be
    read, or a response with a retryable status. *)
Definition retryableFailure (env : Env) (ob : option string) (k : Z) : Prop :=
  match clientDo env k ob with
  | DoError _ _ => ctxErr env k = None
  | DoResponse _ (inr _) => True
  | DoResponse r (inl _) =>
      is2xx r = false /\ IsRetryableStatus (StatusCode r) = true
  end.

(** The response and body a cancelled wait hands back. *)
Definition keptResponse (env : Env) (ob : option string) (k : Z)
  : option Response * option string :=
  match clientDo env k ob with
  | DoResponse r (inl b) => (Some r, Some b)
  | _ => (None, None)
  end.

(** The ways one iteration of the loop of [DoWithRetry] ends, one for
    each [return] and [continue] of its body. *)
Inductive attemptCase (env : Env) (cfg : Config) (req : Request) (op : string)
  (ob : option string) (attempts k : Z) : list Event -> Step -> Prop :=
| CaseOK r b :
    clientDo env k ob = DoResponse r (inl b) -> is2xx r = true ->
    attemptCase env cfg req op ob attempts k
      [EvDo k ob] (Return (Some r, Some b, None))
| CaseStatus r b :
    clientDo env k ob = DoResponse r (inl b) -> is2xx r = false ->
    IsRetryableStatus (StatusCode r) && (k <? attempts) = false ->
    attemptCase env cfg req op ob attempts k
      [EvDo k ob]
      (Return (Some r, Some b,
               Some (NewHTTPError (StatusCode r) (URL req)
                       (op ++ " HTTP " ++ Itoa (StatusCode r)))))
| CaseContext resp lastErr e :
    clientDo env k ob = DoError resp lastErr -> ctxErr env k = Some e ->
    attemptCase env cfg req op ob attempts k
      [EvDo k ob]
      (Return (None, None, Some (Wrap e ErrorTypeTimeout "context cancelled")))
| CaseTransport resp lastErr :
    clientDo env k ob = DoError resp lastErr -> ctxErr env k = None ->
    (k <? attempts) = false ->
    attemptCase env cfg req op ob attempts k
      [EvDo k ob]
      (Return (None, None,
               Some (Wrap lastErr ErrorTypeNetwork "request failed after retries")))
| CaseRead r lastErr :
    clientDo env k ob = DoResponse r (inr lastErr) ->
    (k <? attempts) = false ->
    attemptCase env cfg req op ob attempts k
      [EvDo k ob]
      (Return (Some r, None,
               Some (Wrap lastErr ErrorTypeNetwork "failed to read response body")))
| CaseCancelled back e :
    retryableFailure env ob k -> k < attempts ->
    ctxDone env k back = Some e ->
    attemptCase env cfg req op ob attempts k
      [EvDo k ob; EvCancelled k back]
      (Return (fst (keptResponse env ob k), snd (keptResponse env ob k),
               Some (cancelledDuringRetry e)))
| CaseWait back vars' :
    retryableFailure env ob k -> k < attempts ->
    ctxDone env k back = None ->
    attemptCase env cfg req op ob attempts k
      [EvDo k ob; EvWait k back] (Continue vars').

(** The part of a trace in front of the last attempt: [n] attempts from
    number [a] on, each a retryable failure followed by a wait that the
    context did not interrupt. *)
Inductive waitsFrom (env : Env) (ob : option string) (attempts : Z)
  : Z -> nat -> list Event -> Prop :=
| waits_nil a : waitsFrom env ob attempts a 0 []
| waits_cons a n d rest :
    retryableFailure env ob a -> a < attempts ->
    ctxDone env a d = None ->
    waitsFrom env ob attempts (a + 1) n rest ->
    waitsFrom env ob attempts a (S n) (EvDo a ob :: EvWait a d :: rest).

(** A call that reached the loop: [n] failed attempts with their
    waits, then the attempt on which the loop body returned. *)
Definition runOf (env : Env) (cfg : Config) (req : Request) (op : string)
  (ob : option string) (attempts a : Z) (n : nat)
  (trace : list Event) (result : Outcome Result) : Prop :=
  exists waits last r,
    trace = (waits ++ last)%list /\
    result = Returns r /\
    waitsFrom env ob attempts a n waits /\
    attemptCase env cfg req op ob attempts (a + Z.of_nat n) last (Return r).

Definition sendsBody (ob : option string) (e : Event) : Prop :=
  match e with
  | EvDo _ b => b = ob
  | _ => True
  end.

(** The type and message of the errors [DoWithRetry] wraps. *)
Definition wrappedKinds : list (ErrorType * string) :=
  [ (ErrorTypeNetwork, "failed to read request body");
    (ErrorTypeTimeout, "context cancelled");
    (ErrorTypeTimeout, "context cancelled during retry");
    (ErrorTypeNetwork, "request failed after retries");
    (ErrorTypeNetwork, "failed to read response body") ].

(** What the last allowed attempt returns when it fails in a way the
    loop would have retried. *)
Definition lastFailure (env : Env) (req : Request) (op : string)
  (ob : option string) (k : Z) : Result :=
  match clientDo env k ob with
  | DoError _ lastErr =>
      (None, None,
       Some (Wrap lastErr ErrorTypeNetwork "request failed after retries"))
  | DoResponse r (inr lastErr) =>
      (Some r, None,
       Some (Wrap lastErr ErrorTypeNetwork "failed to read response body"))
  | DoResponse r (inl b) =>
      (Some r, Some b,
       Some (NewHTTPError (StatusCode r) (URL req)
               (op ++ " HTTP " ++ Itoa (StatusCode r))))
  end.

Definition isCancelled (e : Event) : bool :=
  match e with
  | EvCancelled _ _ => true
  | _ => false
  end.

(** *** Example environments *)

(** A server that always answers 503. *)
Definition downEnv : Env :=
  {| clientDo := fun _ _ =>
       DoResponse (mkResponse 503 (retryAfterHeader "")) (inl "down");
     ctxErr := fun _ => None;
     ctxDone := fun _ _ => None;
     randInt63 := fun k => 1000003 * k;
     durationOfFloat := exactDuration;
     parseTimeUntil := fun _ => None |}.

(** The same server, with a context that is cancelled during the wait
    behind the second attempt. *)
Definition cancelledEnv : Env :=
  {| clientDo := clientDo downEnv;
     ctxErr := fun _ => None;
     ctxDone := fun k _ =>
       if k =? 2 then Some (ExternalError "context canceled") else None;
     randInt63 := randInt63 downEnv;
     durationOfFloat := exactDuration;
     parseTimeUntil := fun _ => None |}.

Definition postRequest : Request :=
  mkRequest "https://h1:9440/PrismGateway/services/rest/v1/ncc/checks"
            (Some (inl "{}")).

End ClientMore.

(* ================================================================= *)
(** ** Further notions for package [cmd] *)

Module CmdMore.
Import GoLib Errors Types Config Parser Cmd ParserProps CmdProps.

Section Filtering.
Context {lib : Lib}.

(** The test [applyFilters] makes on one finding: the severity list,
    then the check-name pattern (a pattern that does not compile is
    ignored). *)
Definition keeps (flt : Filters) (block : ParsedBlock) : bool :=
  (if (filter_severity flt =? "")%string then true
   else existsb (fun s => (TrimSpace s =? Severity block)%string)
          (Split (filter_severity flt) ","))
  && match (if (filter_check flt =? "")%string then None
            else regexp_Compile (filter_check flt)) with
     | Some re => MatchString re (CheckName block)
     | None => true
     end.

(** The test [applyFilters] makes on the cluster name. *)
Definition clusterSelected (flt : Filters) (cluster : string) : bool :=
  match (if (filter_cluster flt =? "")%string then None
         else regexp_Compile (filter_cluster flt)) with
  | Some re => MatchString re cluster
  | None => true
  end.

End Filtering.

(** What the code expects of a file system: a file that was written is
    read back with the bytes written, and creating a directory changes
    no file. *)
Definition lawfulFS {St : Type} (fsys : FS St) : Prop :=
  (forall path data fs fs',
     WriteFile path data fs = (fs', None) -> ReadFile path fs' = (data, None)) /\
  (forall dir path fs fs',
     MkdirAll dir fs = (fs', None) -> ReadFile path fs' = ReadFile path fs).

(** The texts [setPhase] was called with, and the phases of a run that
    succeeds. *)
Definition phases (evs : list UIEvent) : list string :=
  flat_map (fun e => match e with SetPhase t => [t] | _ => [] end) evs.

Definition allPhases : list string :=
  ["starting"; "polling"; "summary"; "writing"; "done"].

(** A turn of the polling loop in which [GetTask] succeeded with a task
    that has not failed and is below 100 percent. *)
Definition stillRunning (turn : PollIter) : Prop :=
  exists status body,
    selected turn = TimerFired (status, body, None) /\
    PercentageComplete status < 100 /\
    ProgressStatus status <> "Failed".

(** A turn in which [GetTask] succeeded with a task that has not failed
    and is at 100 percent or more. *)
Definition complete (turn : PollIter) : Prop :=
  exists status body,
    selected turn = TimerFired (status, body, None) /\
    100 <= PercentageComplete status /\
    ProgressStatus status <> "Failed".

(** An endpoint like [sampleEnv] whose configuration has no jitter. *)
Definition noJitter : Config :=
  {| Username := Username DefaultConfig;
     Password := Password DefaultConfig;
     Timeout := Timeout DefaultConfig;
     RequestTimeout := RequestTimeout DefaultConfig;
     PollInterval := PollInterval DefaultConfig;
     PollJitter := 0;
     OutputDirLogs := OutputDirLogs DefaultConfig;
     OutputDirFiltered := OutputDirFiltered DefaultConfig;
     OutputFormats := OutputFormats DefaultConfig;
     MaxParallel := MaxParallel DefaultConfig;
     RetryMaxAttempts := RetryMaxAttempts DefaultConfig;
     RetryBaseDelay := RetryBaseDelay DefaultConfig;
     RetryMaxDelay := RetryMaxDelay DefaultConfig |}.

(** The finding of [sampleSummary]. *)
Definition parsedRawInfo : slice ParsedBlock :=
  Some [ {| Severity := "INFO";
            CheckName := "Detailed information for check_X";
            DetailRaw := "INFO: all good" ++ NL ++ "Refer to KB-1" |} ].

End CmdMore.

(* ================================================================= *)
(** ** Collecting the results: the end of [runNCCChecks], and the
    severity counts of the reports *)

Module Report.
Import GoLib Errors Types Config Parser Cmd.

(** [types.AggBlock]; the fields are [Cluster], [Severity], [Check] and
    [Detail]. *)
Record AggBlock := mkAggBlock {
  AggCluster : string;
  AggSeverity : string;
  AggCheck : string;
  AggDetail : string
}.

(** The entries of [clusterFiles]: [Cluster], [HTML] and [CSV]. *)
Record ClusterFile := mkClusterFile {
  FileCluster : string;
  FileHTML : string;
  FileCSV : string
}.

(** The three variables filled by the loop over the [results] channel. *)
Record Drained := mkDrained {
  failed : slice string;
  agg : slice AggBlock;
  clusterFiles : slice ClusterFile
}.

(** What the end of [runNCCChecks] calls, with the switches read from
    [viper].  Every error these calls return is logged and dropped. *)
Record Outputs := mkOutputs {
  writeAggregatedHTML : string -> slice AggBlock -> slice ClusterFile -> error;
  emailEnabled : bool;
  sendEmailNotification : slice AggBlock -> slice string -> error;
  metricsEnabled : bool;
  exportPrometheusMetrics : slice AggBlock -> slice string -> error;
  webhookEnabled : bool;
  sendWebhookNotification : slice AggBlock -> slice string -> error
}.

Inductive Call :=
| CallAggregated (dir : string) (rows : slice AggBlock) (files : slice ClusterFile)
| CallEmail (rows : slice AggBlock) (failedClusters : slice string)
| CallMetrics (rows : slice AggBlock) (failedClusters : slice string)
| CallWebhook (rows : slice AggBlock) (failedClusters : slice string).

(** The verb [%v] of [fmt] on a slice of strings. *)
Definition formatStrings (l : slice string) : string :=
  "[" ++ Join (elems l) " " ++ "]".

Section Drain.
Context {lib : Lib}.
Variable filepath_Base : string -> string.

Definition aggOf (cluster : string) (b : ParsedBlock) : AggBlock :=
  {| AggCluster := cluster;
     AggSeverity := Severity b;
     AggCheck := CheckName b;
     AggDetail := DetailRaw b |}.

(** The body of [for r := range results]. *)
Definition drainStep (cfg : Config) (acc : Drained) (r : ClusterResult) : Drained :=
  match Err r with
  | Some _ =>
      {| failed := append (failed acc) (Cluster r);
         agg := agg acc;
         clusterFiles := clusterFiles acc |}
  | None =>
      let agg' :=
        fold_left (fun a b => append a (aggOf (Cluster r) b))
          (elems (Blocks r)) (agg acc) in
      let basePath := filepath_Join (OutputDirFiltered cfg) (Cluster r ++ ".log") in
      let htmlPath := basePath ++ ".html" in
      let csvPath := basePath ++ ".csv" in
      {| failed := failed acc;
         agg := agg';
         clusterFiles :=
           append (clusterFiles acc)
             {| FileCluster := Cluster r;
                FileHTML := filepath_Base htmlPath;
                FileCSV := filepath_Base csvPath |} |}
  end.

(** The loop over the closed channel: [results] are the values in the
    order the workers sent them. *)
Definition drain (cfg : Config) (results : list ClusterResult) : Drained :=
  fold_left (drainStep cfg) results (mkDrained None None None).

(** [runNCCChecks] from [close(results)] on: the calls it makes and the
    error it returns. *)
Definition collectResults (cfg : Config) (out : Outputs)
  (results : list ClusterResult) : list Call * error :=
  let d := drain cfg results in
  let calls := [CallAggregated (OutputDirFiltered cfg) (agg d) (clusterFiles d)] in
  let calls :=
    match writeAggregatedHTML out (OutputDirFiltered cfg) (agg d) (clusterFiles d) with
    | _ => calls
    end in
  let calls :=
    if emailEnabled out then
      match sendEmailNotification out (agg d) (failed d) with
      | _ => (calls ++ [CallEmail (agg d) (failed d)])%list
      end
    else calls in
  let calls :=
    if metricsEnabled out then
      match exportPrometheusMetrics out (agg d) (failed d) with
      | _ => (calls ++ [CallMetrics (agg d) (failed d)])%list
      end
    else calls in
  let calls :=
    if webhookEnabled out then
      match sendWebhookNotification out (agg d) (failed d) with
      | _ => (calls ++ [CallWebhook (agg d) (failed d)])%list
      end
    else calls in
  if len (failed d) >? 0 then
    (calls, Some (ExternalError ("some clusters failed: " ++ formatStrings (failed d))))
  else (calls, None).

End Drain.

(** A result that carries an error. *)
Definition failedResult (r : ClusterResult) : bool :=
  match Err r with Some _ => true | None => false end.

(** *** The severity counts of [buildPayload] and [GenerateJSON] *)

Record Summary := mkSummary {
  Total : Z;
  Fail : Z;
  Warn : Z;
  Info : Z;
  ErrCount : Z       (* the field [Err] *)
}.

(** One iteration of the counting loop: [Total++], then the [switch]
    on the severity. *)
Definition countStep (s : Summary) (severity : string) : Summary :=
  let s := mkSummary (Total s + 1) (Fail s) (Warn s) (Info s) (ErrCount s) in
  if (severity =? "FAIL")%string then
    mkSummary (Total s) (Fail s + 1) (Warn s) (Info s) (ErrCount s)
  else if (severity =? "WARN")%string then
    mkSummary (Total s) (Fail s) (Warn s + 1) (Info s) (ErrCount s)
  else if (severity =? "INFO")%string then
    mkSummary (Total s) (Fail s) (Warn s) (Info s + 1) (ErrCount s)
  else if (severity =? "ERR")%string then
    mkSummary (Total s) (Fail s) (Warn s) (Info s) (ErrCount s + 1)
  else s.

(** The [summary] of the webhook payload built by [buildPayload]. *)
Definition payloadSummary (results : slice AggBlock) : Summary :=
  fold_left (fun s result => countStep s (AggSeverity result))
    (elems results) (mkSummary 0 0 0 0 0).

(** The [Summary] of the report written by [GenerateJSON]. *)
Definition reportSummary (blocks : slice ParsedBlock) : Summary :=
  fold_left (fun s block => countStep s (Severity block))
    (elems blocks) (mkSummary 0 0 0 0 0).

(** How often a severity occurs. *)
Definition occurrences (severity : string) (l : list string) : Z :=
  Z.of_nat (count_occ string_dec l severity).

End Report.

(* ================================================================= *)
(** ** Package [client]: the NCC client *)

Module NCCClient.
Import GoLib Errors Types Config Client.

(** A JSON value as [StartChecks] looks at it: a string, or anything
    else. *)
Inductive JValue :=
| JString (s : string)
| JOther.

(** A decoded [map[string]interface{}]; a nil map reads like an empty
    one. *)
Definition JObject : Type := string -> option JValue.

(** What the client needs from [net/http] and [encoding/json]:
    [http.NewRequestWithContext] (it fails on a URL it cannot parse),
    [json.Unmarshal] into a map, and, for the health check, the [Do]
    of the HTTP client without retries followed by [io.ReadAll] of the
    body; [httpDo n url] is what the request number [n] made this way
    gets. *)
Class Net := {
  http_NewRequest : string -> string -> error;
  httpDo : nat -> string -> DoOutcome;
  json_Unmarshal_map : string -> GoError + JObject
}.

Record NCCClient := mkNCCClient {
  baseURL : string;
  user : string;
  pass : string;
  http : Env;
  cfg : Config
}.

Definition NewNCCClient (cluster user pass : string) (httpc : Env) (cfg : Config)
  : NCCClient :=
  {| baseURL := "https://" ++ cluster ++ ":9440/PrismGateway/services/rest";
     user := user;
     pass := pass;
     http := httpc;
     cfg := cfg |}.

Definition quote : string := String "034" "".

(** The type assertion [.(string)] on a map entry. *)
Definition asString (v : option JValue) : string * bool :=
  match v with
  | Some (JString s) => (s, true)
  | _ => ("", false)
  end.

(** The bytes of a slice that may be nil. *)
Definition bytesOf (body : option string) : string :=
  match body with
  | Some b => b
  | None => ""
  end.

Section Calls.
Context {net : Net}.

Definition startPayload : string :=
  "{" ++ quote ++ "sendEmail" ++ quote ++ ":false}".

Definition StartChecks (c : NCCClient)
  : list Event * Outcome (string * option string * error) :=
  let url := baseURL c ++ "/v1/ncc/checks" in
  let payload := startPayload in
  match http_NewRequest "POST" url with
  | Some err =>
      ([], Returns ("", None,
                    Some (Wrap err ErrorTypeNetwork "failed to create request")))
  | None =>
      let req := mkRequest url (Some (inl payload)) in
      match DoWithRetry (http c) req (cfg c) "start checks" with
      | (evs, Panics m) => (evs, Panics m)
      | (evs, Returns (_, body, Some err)) =>
          (evs, Returns ("", body,
                         Some (Wrap err ErrorTypeNetwork "failed to start checks")))
      | (evs, Returns (_, body, None)) =>
          match json_Unmarshal_map (bytesOf body) with
          | inl err =>
              (evs, Returns ("", body,
                             Some (Wrap err ErrorTypeParse
                                     "failed to parse start checks response")))
          | inr data =>
              let uuid := fst (asString (data "taskUuid")) in
              let uuid :=
                if (uuid =? "")%string then
                  match asString (data "task_uuid") with
                  | (alt, true) => if negb (alt =? "")%string then alt else uuid
                  | (_, false) => uuid
                  end
                else uuid in
              if (uuid =? "")%string then
                (evs, Returns ("", body,
                               Some (New ErrorTypeParse "missing taskUuid in response")))
              else (evs, Returns (uuid, body, None))
          end
      end
  end.

(** [HealthCheck], as the request number [n] of the HTTP client: the
    URLs it requested, and its result. *)
Definition HealthCheck (c : NCCClient) (n : nat) : list string * error :=
  let url := baseURL c ++ "/v1/cluster" in
  match http_NewRequest "GET" url with
  | Some err =>
      ([], Some (Wrap err ErrorTypeNetwork "failed to create health check request"))
  | None =>
      match httpDo n url with
      | DoError _ err =>
          ([url], Some (Wrap err ErrorTypeNetwork "health check failed"))
      | DoResponse resp read =>
          let body :=
            match read with
            | inl b => b
            | inr _ => "unable to read response body"
            end in
          if StatusCode resp =? 401 then
            ([url], Some (New ErrorTypeAuth
                            "authentication failed - check username and password"))
          else if (StatusCode resp <? 200) || (StatusCode resp >=? 300) then
            ([url], Some (New ErrorTypeNetwork
                            ("health check returned status " ++
                             Itoa (StatusCode resp) ++ ": " ++ body)))
          else
            match json_Unmarshal_map body with
            | inl err =>
                ([url], Some (Wrap err ErrorTypeParse
                                "health check response is not valid JSON"))
            | inr _ => ([url], None)
            end
      end
  end.

(** [checkClusterHealth] *)
Definition checkClusterHealth (cluster username password : string) (httpc : Env)
  (n : nat) : list string * error :=
  let nccClient :=
    NewNCCClient cluster username password httpc
      (mkConfig "" "" 0 0 0 0 "" "" [] 0 0 0 0) in
  HealthCheck nccClient n.

(** The loop of [performHealthChecks] over the clusters, from the
    requests [urls] made and the clusters [failedClusters] found so
    far. *)
Fixpoint healthLoop (clusters : list string) (username password : string)
  (httpc : Env) (urls : list string) (failedClusters : slice string)
  : list string * slice string :=
  match clusters with
  | [] => (urls, failedClusters)
  | cluster :: rest =>
      match checkClusterHealth cluster username password httpc
              (List.length urls) with
      | (u, Some _) =>
          healthLoop rest username password httpc (urls ++ u)%list
            (append failedClusters cluster)
      | (u, None) =>
          healthLoop rest username password httpc (urls ++ u)%list failedClusters
      end
  end.

Definition performHealthChecks (clusters : list string) (username password : string)
  (httpc : Env) : list string * error :=
  let '(urls, failedClusters) :=
    healthLoop clusters username password httpc [] None in
  if len failedClusters >? 0 then
    (urls, Some (ExternalError
                   ("health checks failed for clusters: [" ++
                    Join (elems failedClusters) " " ++ "]")))
  else (urls, None).

End Calls.

(** What a result of [StartChecks] tells: with a nil error, the task
    identifier comes from the decoded body of an attempt that got a 2xx
    status; with an error, the identifier is empty. *)
Definition startChecksResult {net : Net} (c : NCCClient)
  (r : string * option string * error) : Prop :=
  match r with
  | (id, body, None) =>
      id <> "" /\
      exists b data m resp,
        body = Some b /\
        clientDo (http c) m (Some startPayload) = DoResponse resp (inl b) /\
        ClientMore.is2xx resp = true /\
        json_Unmarshal_map b = inr data /\
        (data "taskUuid" = Some (JString id) \/
         fst (asString (data "taskUuid")) = "" /\
         data "task_uuid" = Some (JString id))
  | (id, body, Some e) =>
      id = "" /\
      (ErrorsMore.errorType e = Some ErrorTypeNetwork \/
       ErrorsMore.errorType e = Some ErrorTypeParse)
  end.

(** The URL [HealthCheck] asks for. *)
Definition healthURL (cluster : string) : string :=
  "https://" ++ cluster ++ ":9440/PrismGateway/services/rest/v1/cluster".

Definition readOrPlaceholder (read : string + GoError) : string :=
  match read with
  | inl b => b
  | inr _ => "unable to read response body"
  end.

(** The request number [n], made for [cluster], finds it healthy. *)
Definition healthyAt {net : Net} (n : nat) (cluster : string) : Prop :=
  exists resp read data,
    httpDo n (healthURL cluster) = DoResponse resp read /\
    200 <= StatusCode resp < 300 /\
    json_Unmarshal_map (readOrPlaceholder read) = inr data.

Definition creatable {net : Net} (cluster : string) : Prop :=
  http_NewRequest "GET" (healthURL cluster) = None.

End NCCClient.

(* ================================================================= *)
(** ** Package [config]: loading and validating the configuration *)

Module ConfigLoad.
Import GoLib Errors Types Config Cmd ErrorsMore.

(** The struct [Config] in full: the fields the execution core reads
    are those of [Config.Config], kept here as [Core]. *)
Record FullConfig := mkFullConfig {
  Core : Config.Config;
  Clusters : slice string;
  InsecureSkipVerify : bool;
  TLSMinVersion : Z;
  LogFile : string;
  LogLevel : string;
  LogHTTP : bool
}.

(** [DefaultConfig()]; [tls.VersionTLS12] is 0x0303. *)
Definition DefaultFullConfig : FullConfig :=
  {| Core := DefaultConfig;
     Clusters := Some [];
     InsecureSkipVerify := false;
     TLSMinVersion := 771;
     LogFile := "logs/ncc-runner.log";
     LogLevel := "info";
     LogHTTP := false |}.

(** The settings [viper] hands out. *)
Record Viper := mkViper {
  GetString : string -> string;
  GetInt : string -> Z;
  GetBool : string -> bool
}.

(** What [LoadConfig] reads from outside: the settings before a
    configuration file is read, [os.Stat] on that file
    ([os.IsNotExist] of its error), [writeDummyConfig],
    [viper.ReadInConfig], the settings afterwards (with the
    environment variables bound), and [time.ParseDuration]. *)
Record LoadEnv := mkLoadEnv {
  viperAtStart : Viper;
  statNotExist : string -> bool;
  writeDummyConfig : string -> error;
  ReadInConfig : error;
  viperLoaded : Viper;
  ParseDuration : string -> option Z
}.

Definition Validate (c : FullConfig) : error :=
  if len (Clusters c) =? 0 then Some (ExternalError "no clusters provided")
  else if (Username (Core c) =? "")%string then
    Some (ExternalError "username is required")
  else if MaxParallel (Core c) <=? 0 then
    Some (ExternalError "max-parallel must be greater than 0")
  else if Timeout (Core c) <=? 0 then
    Some (ExternalError "timeout must be greater than 0")
  else if RequestTimeout (Core c) <=? 0 then
    Some (ExternalError "request-timeout must be greater than 0")
  else if PollInterval (Core c) <=? 0 then
    Some (ExternalError "poll-interval must be greater than 0")
  else if RetryMaxAttempts (Core c) <=? 0 then
    Some (ExternalError "retry-max-attempts must be greater than 0")
  else None.

Section Load.
Context {lib : Lib}.

Definition splitCSV (s : string) : slice string :=
  if (s =? "")%string then None
  else
    let parts := Split s "," in
    fold_left
      (fun out p =>
         let p := TrimSpace p in
         if negb (p =? "")%string then append out p else out)
      parts (Some []).

Definition mustParseDur (env : LoadEnv) (s : string) (def : Z) : Z :=
  if (s =? "")%string then def
  else match ParseDuration env s with
       | Some d => d
       | None => def
       end.

Definition LoadConfig (env : LoadEnv) : option FullConfig * error :=
  let cfg := DefaultFullConfig in
  let cfgFile := GetString (viperAtStart env) "config" in
  let fileError : error :=
    if negb (cfgFile =? "")%string then
      if statNotExist env cfgFile then
        match writeDummyConfig env cfgFile with
        | Some err =>
            Some (ExternalError ("failed to create dummy config at " ++ cfgFile ++
                                 ": " ++ ErrorString err))
        | None =>
            Some (ExternalError ("dummy config created at " ++ cfgFile ++
                                 "; edit and re-run"))
        end
      else
        match ReadInConfig env with
        | Some err => Some (ExternalError ("read config: " ++ ErrorString err))
        | None => None
        end
    else None in
  match fileError with
  | Some err => (None, Some err)
  | None =>
      let v := viperLoaded env in
      let core := Core cfg in
      let clusters := splitCSV (GetString v "clusters") in
      let username := GetString v "username" in
      let password := GetString v "password" in
      let insecure := GetBool v "insecure-skip-verify" in
      let timeout := mustParseDur env (GetString v "timeout") (Timeout core) in
      let requestTimeout :=
        mustParseDur env (GetString v "request-timeout") (RequestTimeout core) in
      let pollInterval :=
        mustParseDur env (GetString v "poll-interval") (PollInterval core) in
      let pollJitter :=
        mustParseDur env (GetString v "poll-jitter") (PollJitter core) in
      let outputDirLogs := GetString v "output-dir-logs" in
      let outputDirFiltered := GetString v "output-dir-filtered" in
      let outputFormats := splitCSV (GetString v "outputs") in
      let maxParallel := GetInt v "max-parallel" in
      let logFile := GetString v "log-file" in
      let logLevel := GetString v "log-level" in
      let logHTTP := GetBool v "log-http" in
      let retryMaxAttempts := GetInt v "retry-max-attempts" in
      let retryBaseDelay :=
        mustParseDur env (GetString v "retry-base-delay") (RetryBaseDelay core) in
      let retryMaxDelay :=
        mustParseDur env (GetString v "retry-max-delay") (RetryMaxDelay core) in
      let outputDirLogs :=
        if (outputDirLogs =? "")%string then "nccfiles" else outputDirLogs in
      let outputDirFiltered :=
        if (outputDirFiltered =? "")%string then "outputfiles"
        else outputDirFiltered in
      let outputFormats :=
        if len outputFormats =? 0 then Some ["html"] else outputFormats in
      let maxParallel := if maxParallel <=? 0 then 4 else maxParallel in
      let logFile :=
        if (logFile =? "")%string then "logs/ncc-runner.log" else logFile in
      let retryMaxAttempts :=
        if retryMaxAttempts <=? 0 then 6 else retryMaxAttempts in
      let retryBaseDelay :=
        if retryBaseDelay <=? 0 then 400 * Millisecond else retryBaseDelay in
      let retryMaxDelay :=
        if retryMaxDelay <=? 0 then 8 * Second else retryMaxDelay in
      (Some {| Core :=
                 {| Username := username;
                    Password := password;
                    Timeout := timeout;
                    RequestTimeout := requestTimeout;
                    PollInterval := pollInterval;
                    PollJitter := pollJitter;
                    OutputDirLogs := outputDirLogs;
                    OutputDirFiltered := outputDirFiltered;
                    OutputFormats := elems outputFormats;
                    MaxParallel := maxParallel;
                    RetryMaxAttempts := retryMaxAttempts;
                    RetryBaseDelay := retryBaseDelay;
                    RetryMaxDelay := retryMaxDelay |};
               Clusters := clusters;
               InsecureSkipVerify := insecure;
               TLSMinVersion := TLSMinVersion cfg;
               LogFile := logFile;
               LogLevel := logLevel;
               LogHTTP := logHTTP |},
       None)
  end.

End Load.

Definition nonEmpty (p : string) : bool := negb (p =? "")%string.

(** What holds of every configuration [LoadConfig] returns. *)
Definition loaded (c : FullConfig) : Prop :=
  1 <= MaxParallel (Core c) /\
  1 <= RetryMaxAttempts (Core c) /\
  0 < RetryBaseDelay (Core c) /\
  0 < RetryMaxDelay (Core c) /\
  OutputDirLogs (Core c) <> "" /\
  OutputDirFiltered (Core c) <> "" /\
  LogFile c <> "" /\
  OutputFormats (Core c) <> [] /\
  Forall (fun f => f <> "") (OutputFormats (Core c)) /\
  Forall (fun cl => cl <> "") (elems (Clusters c)).

(** A configuration with another poll jitter and other retry delays. *)
Definition withDelays (c : FullConfig) (jitter base maxDelay : Z) : FullConfig :=
  {| Core :=
       {| Username := Username (Core c);
          Password := Password (Core c);
          Timeout := Timeout (Core c);
          RequestTimeout := RequestTimeout (Core c);
          PollInterval := PollInterval (Core c);
          PollJitter := jitter;
          OutputDirLogs := OutputDirLogs (Core c);
          OutputDirFiltered := OutputDirFiltered (Core c);
          OutputFormats := OutputFormats (Core c);
          MaxParallel := MaxParallel (Core c);
          RetryMaxAttempts := RetryMaxAttempts (Core c);
          RetryBaseDelay := base;
          RetryMaxDelay := maxDelay |};
     Clusters := Clusters c;
     InsecureSkipVerify := InsecureSkipVerify c;
     TLSMinVersion := TLSMinVersion c;
     LogFile := LogFile c;
     LogLevel := LogLevel c;
     LogHTTP := LogHTTP c |}.

(** *** An example: settings given on the command line, no file. *)
Definition lookup (kv : list (string * string)) (key : string) : string :=
  match find (fun p => (fst p =? key)%string) kv with
  | Some p => snd p
  | None => ""
  end.

Definition flagsViper : Viper :=
  {| GetString :=
       lookup [("clusters", "h1, h2,,"); ("username", "admin");
               ("poll-jitter", "0s"); ("outputs", " ,")];
     GetInt := fun _ => 0;
     GetBool := fun _ => false |}.

Definition flagsEnv : LoadEnv :=
  {| viperAtStart := flagsViper;
     statNotExist := fun _ => false;
     writeDummyConfig := fun _ => None;
     ReadInConfig := None;
     viperLoaded := flagsViper;
     ParseDuration := fun s => if (s =? "0s")%string then Some 0 else None |}.

(** What [LoadConfig] makes of these settings. *)
Definition flagsConfig : FullConfig :=
  Eval vm_compute in
    match @LoadConfig CmdProps.exampleLib flagsEnv with
    | (Some c, _) => c
    | (None, _) => DefaultFullConfig
    end.

End ConfigLoad.

(* ================================================================= *)
(** ** Package [metrics]: label escaping; package [notifications]: the
    webhook *)

Module Metrics.
Import GoLib.

Definition backslash : ascii := "\"%char.
Definition quoteByte : ascii := "034"%char.

(** [escapeLabel]: three passes of [strings.ReplaceAll]. *)
Definition escapeLabel (s : string) : string :=
  let s := ReplaceAll_byte s backslash (String backslash (String backslash "")) in
  let s := ReplaceAll_byte s quoteByte (String backslash (String quoteByte "")) in
  let s := ReplaceAll_byte s nl (String backslash "n") in
  s.

(** What the three passes together write for one byte. *)
Definition escapeLabelByte (c : ascii) : string :=
  if (c =? backslash)%char then String backslash (String backslash "")
  else if (c =? quoteByte)%char then String backslash (String quoteByte "")
  else if (c =? nl)%char then String backslash "n"
  else String c "".

(** Reading an escaped label back: a backslash announces one byte, and
    the letter n behind it stands for a line feed. *)
Fixpoint unescapeLabel (s : string) : string :=
  match s with
  | EmptyString => EmptyString
  | String c s' =>
      if (c =? backslash)%char then
        match s' with
        | EmptyString => String c EmptyString
        | String d s'' =>
            String (if (d =? "n")%char then nl else d) (unescapeLabel s'')
        end
      else String c (unescapeLabel s')
  end.

End Metrics.

Module Webhook.
Import GoLib Errors Types Report.

Record WebhookConfig := mkWebhookConfig {
  URL : string;
  Method : string;
  Headers : list (string * string);
  Timeout : Z
}.

(** The payload handed to [json.Marshal]. *)
Record Payload := mkPayload {
  Timestamp : string;
  EventType : string;
  PayloadSummary : Summary;
  Results : slice AggBlock;
  FailedClusters : slice string;
  Metadata : list (string * string)
}.

(** A request as the notifier builds it; [SentHeaders] are the calls
    of [Header.Set] (Go ranges over the map of configured headers in no
    fixed order). *)
Record Sent := mkSent {
  SentMethod : string;
  SentURL : string;
  SentHeaders : list (string * string);
  SentBody : string
}.

(** The clock, [json.Marshal], [http.NewRequest] and the HTTP client:
    [clientDo] gives the status code of the response, or the error. *)
Record Env := mkEnv {
  now : string;
  json_Marshal : Payload -> GoError + string;
  http_NewRequest : string -> string -> error;
  clientDo : Sent -> GoError + Z
}.

Definition buildPayload (env : Env) (results : slice AggBlock)
  (failedClusters : slice string) : GoError + string :=
  let summary := payloadSummary results in
  json_Marshal env
    {| Timestamp := now env;
       EventType := "ncc_report";
       PayloadSummary := summary;
       Results := results;
       FailedClusters := failedClusters;
       Metadata := [("source", "ncc-orchestrator"); ("version", "1.0.0")] |}.

(** [SendReport]: the requests it sent, and its result. *)
Definition SendReport (config : WebhookConfig) (env : Env)
  (results : slice AggBlock) (failedClusters : slice string)
  : list Sent * error :=
  if (URL config =? "")%string then
    ([], Some (New ErrorTypeConfig "webhook URL not configured"))
  else
    match buildPayload env results failedClusters with
    | inl err =>
        ([], Some (Wrap err ErrorTypeFile "failed to build webhook payload"))
    | inr payload =>
        match http_NewRequest env (Method config) (URL config) with
        | Some err =>
            ([], Some (Wrap err ErrorTypeNetwork "failed to create webhook request"))
        | None =>
            let req :=
              {| SentMethod := Method config;
                 SentURL := URL config;
                 SentHeaders :=
                   (("Content-Type", "application/json") :: Headers config);
                 SentBody := payload |} in
            match clientDo env req with
            | inl err =>
                ([req], Some (Wrap err ErrorTypeNetwork "failed to send webhook"))
            | inr status =>
                if status >=? 400 then
                  ([req], Some (New ErrorTypeNetwork
                                  ("webhook returned status " ++ Itoa status)))
                else ([req], None)
            end
        end
    end.

End Webhook.
(* ================================================================= *)
(** ** Properties of package [client] *)

Module ClientProofs.
Import GoLib Errors Types Config Client ClientProps.

(** The backoff is a value, and it stays under the maximum delay. *)
Lemma jitteredBackoff_total env raw base maxDelay attempt :
  exists d, jitteredBackoff env raw base maxDelay attempt = Returns d /\
            d <= Z.max 0 maxDelay.
Proof.
  unfold jitteredBackoff, Int63n.
  set (e := durationOfFloat env base attempt).
  destruct (Z.gtb_spec e maxDelay) as [Hgt | Hle].
  - destruct (Z.leb_spec maxDelay 0); [exists 0; split; [reflexivity | lia]|].
    exists (raw mod maxDelay).
    pose proof (Z.mod_pos_bound raw maxDelay ltac:(lia)).
    split; [reflexivity | lia].
  - destruct (Z.leb_spec e 0); [exists 0; split; [reflexivity | lia]|].
    exists (raw mod e).
    pose proof (Z.mod_pos_bound raw e ltac:(lia)).
    split; [reflexivity | lia].
Qed.

Section Loop.
Variable env : Env.
Variables (cfg : Config) (req : Request) (op : string) (ob : option string).
Variable attempts : Z.

Lemma attemptOnce_shape attempt vars :
  attemptShape env cfg ob attempts attempt
    (fst (attemptOnce env cfg req op ob attempts attempt vars))
    (snd (attemptOnce env cfg req op ob attempts attempt vars)).
Proof.
  destruct (jitteredBackoff_total env (randInt63 env attempt)
              (RetryBaseDelay cfg) (RetryMaxDelay cfg) attempt) as (d & Hd & _).
  unfold attemptOnce, waitBackoff. rewrite Hd.
  destruct (clientDo env attempt ob) as [r e | resp [body | e]] eqn:Hdo.
  - destruct (ctxErr env attempt); [constructor|].
    destruct (Z.ltb_spec attempt attempts); [|constructor].
    destruct (ctxDone env attempt d) eqn:Hc; simpl; constructor; auto.
  - destruct ((200 <=? StatusCode resp) && (StatusCode resp <? 300)); [constructor|].
    destruct (Z.eqb_spec (StatusCode resp) 429) as [H429|].
    + destruct (retryAfterDelay env (Some resp)) as [ra [|]] eqn:Hra.
      * destruct (Z.eqb_spec ra 0) as [->|Hnz].
        -- destruct (IsRetryableStatus (StatusCode resp)); simpl; [|constructor].
           destruct (Z.ltb_spec attempt attempts); simpl; [|constructor].
           destruct (ctxDone env attempt d) eqn:Hc; simpl; constructor; auto.
        -- destruct (IsRetryableStatus (StatusCode resp)); simpl; [|constructor].
           destruct (Z.ltb_spec attempt attempts); simpl; [|constructor].
           destruct (ctxDone env attempt ra) eqn:Hc; simpl; constructor; auto.
           right. exists resp, body. auto.
      * simpl.
        destruct (IsRetryableStatus (StatusCode resp)); simpl; [|constructor].
        destruct (Z.ltb_spec attempt attempts); simpl; [|constructor].
        destruct (ctxDone env attempt d) eqn:Hc; simpl; constructor; auto.
    + simpl.
      destruct (IsRetryableStatus (StatusCode resp)); simpl; [|constructor].
      destruct (Z.ltb_spec attempt attempts); simpl; [|constructor].
      destruct (ctxDone env attempt d) eqn:Hc; simpl; constructor; auto.
  - destruct (Z.ltb_spec attempt attempts); [|constructor].
    destruct (ctxDone env attempt d) eqn:Hc; simpl; constructor; auto.
Qed.


#[local] Abbreviation loop := (retryLoop env cfg req op ob attempts).
#[local] Abbreviation once := (attemptOnce env cfg req op ob attempts).

Lemma retryLoop_step remaining attempt vars :
  loop (S remaining) attempt vars =
  match snd (once attempt vars) with
  | Return r => (fst (once attempt vars), Returns r)
  | Panic m => (fst (once attempt vars), Panics m)
  | Continue vars' =>
      ((fst (once attempt vars) ++ fst (loop remaining (attempt + 1) vars'))%list,
       snd (loop remaining (attempt + 1) vars'))
  end.
Proof.
  simpl. destruct (once attempt vars) as [evs [vars'|r|m]]; simpl; auto.
  destruct (retryLoop env cfg req op ob attempts remaining (attempt + 1) vars');
    reflexivity.
Qed.

Lemma attemptsIssued_app a b :
  attemptsIssued (a ++ b) = (attemptsIssued a ++ attemptsIssued b)%list.
Proof. apply flat_map_app. Qed.

Lemma delaysWaited_app a b :
  delaysWaited (a ++ b) = (delaysWaited a ++ delaysWaited b)%list.
Proof. apply flat_map_app. Qed.

(** The loop issues attempts [attempt], [attempt + 1], ... and at most
    [remaining] of them. *)
Lemma retryLoop_attempts remaining : forall attempt vars,
  exists m, (m <= remaining)%nat /\
    attemptsIssued (fst (loop remaining attempt vars)) = countFrom attempt m.
Proof.
  induction remaining as [|n IH]; intros attempt vars.
  - exists 0%nat. split; auto.
  - rewrite retryLoop_step.
    destruct (attemptOnce_shape attempt vars)
      as [r | back r | back vars' Hlt Hc Hb].
    + exists 1%nat. split; [lia | reflexivity].
    + exists 1%nat. split; [lia | reflexivity].
    + destruct (IH (attempt + 1) vars') as (m & Hm & E).
      exists (S m). split; [lia|].
      cbn [fst]. rewrite attemptsIssued_app, E. reflexivity.
Qed.


(** An attempt on which the iteration returns is the last one, and its
    result is the result of the call. *)
Lemma retryLoop_returns_at k r0 :
  (forall vars, snd (once k vars) = Return r0) ->
  forall remaining attempt vars,
    In k (attemptsIssued (fst (loop remaining attempt vars))) ->
    snd (loop remaining attempt vars) = Returns r0 /\
    exists pre, attemptsIssued (fst (loop remaining attempt vars)) = (pre ++ [k])%list.
Proof.
  intros Hk. induction remaining as [|n IH]; intros attempt vars Hin.
  - destruct Hin.
  - rewrite retryLoop_step in *.
    pose proof (attemptOnce_shape attempt vars) as Hs.
    inversion Hs as [r E1 E2 | back r E1 E2 | back vars' Hlt Hc Hb E1 E2];
      rewrite <- E2 in *; rewrite <- E1 in *; cbn [fst snd] in *.
    + destruct Hin as [<- | []]. rewrite Hk in E2. inversion E2; subst.
      split; auto. exists []. reflexivity.
    + destruct Hin as [<- | []]. rewrite Hk in E2. inversion E2; subst.
      split; auto. exists []. reflexivity.
    + rewrite attemptsIssued_app in *. simpl in Hin.
      destruct Hin as [<- | Hin].
      * rewrite Hk in E2. discriminate.
      * destruct (IH _ _ Hin) as (Hr & pre & Hp).
        split; auto. exists (attempt :: pre). simpl. rewrite Hp. reflexivity.
Qed.

(** An attempt after which the iteration waits is followed, in the
    trace, by that wait and then by the next attempt. *)
Lemma retryLoop_waits_at k d :
  (forall vars, fst (once k vars) = [EvDo k ob; EvWait k d]) ->
  forall remaining attempt vars,
    Z.of_nat remaining = attempts - attempt + 1 ->
    In k (attemptsIssued (fst (loop remaining attempt vars))) ->
    exists pre post,
      fst (loop remaining attempt vars) =
      (pre ++ [EvDo k ob; EvWait k d; EvDo (k + 1) ob] ++ post)%list.
Proof.
  intros Hk. induction remaining as [|n IH]; intros attempt vars Hrem Hin.
  - destruct Hin.
  - rewrite retryLoop_step in *.
    pose proof (attemptOnce_shape attempt vars) as Hs.
    inversion Hs as [r E1 E2 | back r E1 E2 | back vars' Hlt Hc Hb E1 E2];
      rewrite <- E2 in *; rewrite <- E1 in *; cbn [fst snd] in *.
    + destruct Hin as [<- | []]. rewrite Hk in E1. discriminate.
    + destruct Hin as [<- | []]. rewrite Hk in E1. discriminate.
    + rewrite attemptsIssued_app in Hin. simpl in Hin.
      destruct Hin as [<- | Hin].
      * rewrite Hk in E1. inversion E1; subst back.
        destruct n as [|n']; [lia|].
        rewrite retryLoop_step.
        pose proof (attemptOnce_shape (attempt + 1) vars') as Hs'.
        exists [].
        inversion Hs' as [r E3 E4 | back r E3 E4 | back vars'' Hlt' Hc' Hb' E3 E4];
          cbn [fst snd]; eexists; simpl; reflexivity.
      * destruct (IH (attempt + 1) vars' ltac:(lia) Hin) as (pre & post & E).
        exists ([EvDo attempt ob; EvWait attempt back] ++ pre)%list, post.
        rewrite E. rewrite <- app_assoc. reflexivity.
Qed.

(** Started with as many iterations as attempts remain, the loop ends
    inside an iteration: the code behind the loop is never reached. *)
Lemma retryLoop_ends_in_attempt remaining : forall attempt vars,
  Z.of_nat remaining = attempts - attempt + 1 -> (1 <= remaining)%nat ->
  exists k vars' r,
    In k (attemptsIssued (fst (loop remaining attempt vars))) /\
    snd (once k vars') = Return r /\
    snd (loop remaining attempt vars) = Returns r.
Proof.
  induction remaining as [|n IH]; intros attempt vars Hrem Hpos; [lia|].
  rewrite retryLoop_step.
  pose proof (attemptOnce_shape attempt vars) as Hs.
  inversion Hs as [r E1 E2 | back r E1 E2 | back vars' Hlt Hc Hb E1 E2];
    cbn [fst snd].
  - exists attempt, vars, r. rewrite <- E2.
    split; [left; reflexivity | split; reflexivity].
  - exists attempt, vars, r. rewrite <- E2.
    split; [left; reflexivity | split; reflexivity].
  - destruct (IH (attempt + 1) vars' ltac:(lia) ltac:(lia)) as (k & v & r & Hin & Hk & Hr).
    exists k, v, r. rewrite attemptsIssued_app.
    split; [apply in_or_app; right; exact Hin | split; assumption].
Qed.

End Loop.

Lemma DoWithRetry_loop env req cfg op :
  DoWithRetry env req cfg op =
  match Body req with
  | Some (inr err) =>
      ([], Returns (None, None,
                    Some (Wrap err ErrorTypeNetwork "failed to read request body")))
  | _ =>
      retryLoop env cfg req op (origBody req) (effectiveAttempts cfg)
        (Z.to_nat (effectiveAttempts cfg)) 1 (mkLoopVars None None None)
  end.
Proof.
  unfold DoWithRetry, origBody, effectiveAttempts.
  destruct (Body req) as [[b | e] |]; reflexivity.
Qed.

Lemma effectiveAttempts_max cfg :
  effectiveAttempts cfg = Z.max 1 (RetryMaxAttempts cfg).
Proof. unfold effectiveAttempts. destruct (Z.ltb_spec (RetryMaxAttempts cfg) 1); lia. Qed.

(** [DoWithRetry] never panics, and what it returns is what one of its
    iterations returned, or the error of reading the request body. *)
Lemma DoWithRetry_returns env req cfg op :
  exists r, snd (DoWithRetry env req cfg op) = Returns r.
Proof.
  rewrite DoWithRetry_loop.
  assert (H : exists r,
             snd (retryLoop env cfg req op (origBody req) (effectiveAttempts cfg)
                    (Z.to_nat (effectiveAttempts cfg)) 1
                    (mkLoopVars None None None)) = Returns r).
  { destruct (retryLoop_ends_in_attempt env cfg req op (origBody req)
                (effectiveAttempts cfg) (Z.to_nat (effectiveAttempts cfg)) 1
                (mkLoopVars None None None)) as (k & v & r & _ & _ & Hr).
    - rewrite effectiveAttempts_max. lia.
    - rewrite effectiveAttempts_max. lia.
    - exists r. exact Hr. }
  destruct (Body req) as [[b | e] |]; [exact H | eexists; reflexivity | exact H].
Qed.

Lemma countFrom_length start n : List.length (countFrom start n) = n.
Proof. revert start. induction n; simpl; auto. Qed.

Lemma IsRetryableStatus_set code :
  IsRetryableStatus code = true <-> In code [408; 429; 500; 502; 503; 504].
Proof.
  unfold IsRetryableStatus. simpl.
  repeat rewrite orb_true_iff. repeat rewrite Z.eqb_eq. intuition congruence.
Qed.

Lemma attemptOnce_success env cfg req op ob attempts k vars resp body :
  clientDo env k ob = DoResponse resp (inl body) ->
  200 <= StatusCode resp < 300 ->
  snd (attemptOnce env cfg req op ob attempts k vars) =
  Return (Some resp, Some body, None).
Proof.
  intros Hdo Hs. unfold attemptOnce. rewrite Hdo.
  replace ((200 <=? StatusCode resp) && (StatusCode resp <? 300)) with true.
  - reflexivity.
  - symmetry. apply andb_true_iff. split; [apply Z.leb_le | apply Z.ltb_lt]; lia.
Qed.

Lemma attemptOnce_terminal env cfg req op ob attempts k vars resp body :
  clientDo env k ob = DoResponse resp (inl body) ->
  ~ (200 <= StatusCode resp < 300) ->
  IsRetryableStatus (StatusCode resp) = false ->
  snd (attemptOnce env cfg req op ob attempts k vars) =
  Return (Some resp, Some body,
          Some (NewHTTPError (StatusCode resp) (URL req)
                  (op ++ " HTTP " ++ Itoa (StatusCode resp)))).
Proof.
  intros Hdo Hs Hr.
  destruct (jitteredBackoff_total env (randInt63 env k)
              (RetryBaseDelay cfg) (RetryMaxDelay cfg) k) as (d & Hd & _).
  unfold attemptOnce. rewrite Hdo, Hd, Hr.
  replace ((200 <=? StatusCode resp) && (StatusCode resp <? 300)) with false.
  - cbv beta iota zeta. destruct (StatusCode resp =? 429).
    + destruct (retryAfterDelay env (Some resp)) as [ra [|]];
        [destruct (ra =? 0)|]; reflexivity.
    + reflexivity.
  - symmetry. apply andb_false_iff.
    destruct (Z.leb_spec 200 (StatusCode resp)); auto.
    destruct (Z.ltb_spec (StatusCode resp) 300); auto. lia.
Qed.

Lemma wrap64_small z : minInt64 <= z <= maxInt64 -> wrap64 z = z.
Proof.
  unfold wrap64, minInt64, maxInt64. intros H.
  rewrite Z.mod_small; lia.
Qed.

Lemma Atoi_nonempty s z : Atoi s = Some z -> s <> "".
Proof. intros H ->. discriminate. Qed.

Lemma attemptOnce_retry_after env cfg req op ob attempts k vars resp body secs :
  clientDo env k ob = DoResponse resp (inl body) ->
  StatusCode resp = 429 ->
  Atoi (Header_Get resp "Retry-After") = Some secs ->
  0 < secs <= 9223372036 ->
  k < attempts ->
  ctxDone env k (secs * Second) = None ->
  fst (attemptOnce env cfg req op ob attempts k vars) =
  [EvDo k ob; EvWait k (secs * Second)].
Proof.
  intros Hdo H429 Hra Hsecs Hlt Hctx.
  assert (Hne : (Header_Get resp "Retry-After" =? "")%string = false).
  { apply String.eqb_neq. eapply Atoi_nonempty; eauto. }
  assert (Hw : wrap64 (secs * Second) = secs * Second).
  { apply wrap64_small. unfold minInt64, maxInt64, Second, Millisecond. lia. }
  assert (Hnz : (secs * Second =? 0) = false).
  { apply Z.eqb_neq. unfold Second, Millisecond. lia. }
  unfold attemptOnce, waitBackoff, retryAfterDelay.
  rewrite Hdo, H429, Hne, Hra, Hw. simpl.
  rewrite Hnz.
  replace (k <? attempts) with true by (symmetry; apply Z.ltb_lt; lia).
  simpl. rewrite Hctx. reflexivity.
Qed.

(** C10 (as amended).  [jitteredBackoff] never panics: whatever the base
    delay, the maximum delay, the attempt number and the generator's
    draw, it returns a duration [d] with [0 <= d]; [d] is at most the
    maximum delay when that is not negative (in general
    [d <= max 0 maxDelay]); [d] is 0 when the cap
    [min (base * 2^(attempt-1)) maxDelay] is not positive, and below the
    cap otherwise. *)
Theorem jitteredBackoff_never_panics_bounds env raw base maxDelay attempt :
  exists d,
    jitteredBackoff env raw base maxDelay attempt = Returns d /\
    0 <= d /\ d <= Z.max 0 maxDelay /\
    (capDelay env base maxDelay attempt <= 0 -> d = 0) /\
    (0 < capDelay env base maxDelay attempt ->
     d < capDelay env base maxDelay attempt).
Proof.
  unfold jitteredBackoff, capDelay, Int63n.
  remember (durationOfFloat env base attempt) as e eqn:He.
  replace (if e >? maxDelay then maxDelay else e) with (Z.min e maxDelay)
    by (destruct (Z.gtb_spec e maxDelay); lia).
  remember (Z.min e maxDelay) as cap eqn:Hcap.
  destruct (Z.leb_spec cap 0) as [Hle | Hpos].
  - (* the guard returns before the generator is called *)
    exists 0. split; [reflexivity | lia].
  - (* the bound handed to the generator is positive *)
    exists (raw mod cap).
    destruct (Z.mod_pos_bound raw cap Hpos) as [H0 Hlt].
    split; [reflexivity | lia].
Qed.

(** C10 (as stated) fails for a negative maximum delay: the function
    returns 0, which is above the maximum. *)
Lemma jitteredBackoff_negative_max_delay :
  ~ (forall env raw base maxDelay attempt,
       1 <= attempt ->
       exists d, jitteredBackoff env raw base maxDelay attempt = Returns d /\
                 0 <= d <= maxDelay).
Proof.
  intros H.
  destruct (H flakyEnv 5 1 (-1) 1 ltac:(lia)) as (d & E & H0 & H1).
  vm_compute in E. inversion E. subst d. lia.
Qed.




(** C4 (as amended).  When an attempt of [DoWithRetry] receives status
    429, its response body is read without error, the response carries
    a [Retry-After] header that [strconv.Atoi] reads as [secs] seconds,
    [0 < secs <= 9223372036] (the values whose nanosecond count fits a
    [time.Duration]), another attempt remains and the wait is not
    cancelled, then the caller waits exactly [secs] seconds, whatever
    the maximum delay, and then issues the next attempt. *)
Theorem DoWithRetry_honours_retry_after env req cfg op k resp body secs :
  In k (attemptsIssued (fst (DoWithRetry env req cfg op))) ->
  clientDo env k (origBody req) = DoResponse resp (inl body) ->
  StatusCode resp = 429 ->
  Atoi (Header_Get resp "Retry-After") = Some secs ->
  0 < secs <= 9223372036 ->
  k < effectiveAttempts cfg ->
  ctxDone env k (secs * Second) = None ->
  exists pre post,
    fst (DoWithRetry env req cfg op) =
    (pre ++ [EvDo k (origBody req); EvWait k (secs * Second);
             EvDo (k + 1) (origBody req)] ++ post)%list.
Proof.
  intros Hin Hdo H429 Hra Hsecs Hlt Hctx.
  rewrite DoWithRetry_loop in *.
  assert (Hone : forall vars,
             fst (attemptOnce env cfg req op (origBody req)
                    (effectiveAttempts cfg) k vars) =
             [EvDo k (origBody req); EvWait k (secs * Second)]).
  { intros vars. eapply attemptOnce_retry_after; eauto. }
  assert (Hrem : Z.of_nat (Z.to_nat (effectiveAttempts cfg)) =
                 effectiveAttempts cfg - 1 + 1).
  { rewrite effectiveAttempts_max. lia. }
  destruct (Body req) as [[b | e] |];
    [ | destruct Hin | ];
    eapply retryLoop_waits_at; eauto.
Qed.

Lemma DoWithRetry_honours_retry_after_witness :
  exists pre post,
    fst (DoWithRetry (rateLimitedEnv "3600") getRequest DefaultConfig "get task") =
    (pre ++ [EvDo 1 (origBody getRequest); EvWait 1 (3600 * Second);
             EvDo (1 + 1) (origBody getRequest)] ++ post)%list.
Proof.
  apply (DoWithRetry_honours_retry_after (rateLimitedEnv "3600") getRequest
           DefaultConfig "get task" 1
           (mkResponse 429 (retryAfterHeader "3600")) "busy" 3600).
  - vm_compute. left. reflexivity.
  - reflexivity.
  - reflexivity.
  - vm_compute. reflexivity.
  - lia.
  - vm_compute. reflexivity.
  - reflexivity.
Defined.

(** For a very large value of [Retry-After] the delay is not honoured:
    the nanosecond count of 9223372037 seconds does not fit a
    [time.Duration], the product wraps to a negative duration and the
    caller does not wait at all. *)
Lemma DoWithRetry_retry_after_wraps :
  ~ (forall env req cfg op k resp body secs,
       In k (attemptsIssued (fst (DoWithRetry env req cfg op))) ->
       clientDo env k (origBody req) = DoResponse resp (inl body) ->
       StatusCode resp = 429 ->
       Atoi (Header_Get resp "Retry-After") = Some secs ->
       0 < secs ->
       k < effectiveAttempts cfg ->
       (forall back, ctxDone env k back = None) ->
       exists back,
         In (k, back) (delaysWaited (fst (DoWithRetry env req cfg op))) /\
         secs * Second <= back).
Proof.
  intros H.
  destruct (H (rateLimitedEnv "9223372037") getRequest DefaultConfig "get task" 1
              (mkResponse 429 (retryAfterHeader "9223372037")) "busy" 9223372037)
    as (back & Hin & Hle).
  - vm_compute. left. reflexivity.
  - reflexivity.
  - reflexivity.
  - vm_compute. reflexivity.
  - lia.
  - vm_compute. reflexivity.
  - reflexivity.
  - assert (E : delaysWaited
                  (fst (DoWithRetry (rateLimitedEnv "9223372037") getRequest
                          DefaultConfig "get task")) =
                [(1, -9223372036709551616)])
      by (vm_compute; reflexivity).
    rewrite E in Hin. destruct Hin as [Hin | []]. inversion Hin; subst back.
    unfold Second, Millisecond in Hle. lia.
Qed.

(** The run against a server whose first answer cannot be read: the
    caller waits the jittered backoff, whatever the status and the
    headers of that answer, and issues a second attempt. *)
Lemma DoWithRetry_unread_run status ra :
  DoWithRetry (unreadEnv status ra) getRequest DefaultConfig "get task" =
  ([EvDo 1 None; EvWait 1 256789123; EvDo 2 None],
   Returns (Some (mkResponse 200 (retryAfterHeader "")), Some "ok", None)).
Proof. reflexivity. Qed.

(** C4 (as stated) fails in two ways.  For a very large value the
    nanosecond count wraps: after [Retry-After: 9223372037] the caller
    does not wait at all.  And when the body of the 429 response cannot
    be read, the status and the header are not looked at: after
    [Retry-After: 3600] the caller waits the jittered backoff, here
    about a quarter of a second. *)
Lemma DoWithRetry_retry_after_not_honoured :
  ~ (forall env req cfg op k resp body secs,
       In k (attemptsIssued (fst (DoWithRetry env req cfg op))) ->
       clientDo env k (origBody req) = DoResponse resp (inl body) ->
       StatusCode resp = 429 ->
       Atoi (Header_Get resp "Retry-After") = Some secs ->
       0 < secs ->
       k < effectiveAttempts cfg ->
       (forall back, ctxDone env k back = None) ->
       exists back,
         In (k, back) (delaysWaited (fst (DoWithRetry env req cfg op))) /\
         secs * Second <= back) /\
  ~ (forall env req cfg op k resp read secs,
       In k (attemptsIssued (fst (DoWithRetry env req cfg op))) ->
       clientDo env k (origBody req) = DoResponse resp read ->
       StatusCode resp = 429 ->
       Atoi (Header_Get resp "Retry-After") = Some secs ->
       0 < secs <= 9223372036 ->
       k < effectiveAttempts cfg ->
       (forall back, ctxDone env k back = None) ->
       exists back,
         In (k, back) (delaysWaited (fst (DoWithRetry env req cfg op))) /\
         secs * Second <= back).
Proof.
  split; [exact DoWithRetry_retry_after_wraps|].
  intros H.
  destruct (H (unreadEnv 429 "3600") getRequest DefaultConfig "get task" 1
              (mkResponse 429 (retryAfterHeader "3600"))
              (inr (ExternalError "unexpected EOF")) 3600)
    as (back & Hin & Hle).
  - rewrite DoWithRetry_unread_run. left. reflexivity.
  - reflexivity.
  - reflexivity.
  - vm_compute. reflexivity.
  - lia.
  - vm_compute. reflexivity.
  - reflexivity.
  - rewrite DoWithRetry_unread_run in Hin.
    destruct Hin as [Hin | []]. inversion Hin; subst back.
    unfold Second, Millisecond in Hle. lia.
Qed.

(** C8 (as amended).  Under a retry policy with [RetryMaxAttempts = N >= 1],
    [DoWithRetry] issues at most [N] attempts; an attempt that receives
    a 2xx status and whose response body is read without error makes
    the call return that response and its body with a nil error, and is
    the last attempt; an attempt that receives a status outside 2xx and
    outside 408, 429, 500, 502, 503, 504 and whose response body is
    read without error makes the call return an [HTTPError] with that
    status and the request URL, and is the last attempt. *)
Theorem DoWithRetry_attempts_and_statuses env req cfg op :
  1 <= RetryMaxAttempts cfg ->
  let trace := fst (DoWithRetry env req cfg op) in
  let result := snd (DoWithRetry env req cfg op) in
  Z.of_nat (List.length (attemptsIssued trace)) <= RetryMaxAttempts cfg /\
  forall k resp body,
    In k (attemptsIssued trace) ->
    clientDo env k (origBody req) = DoResponse resp (inl body) ->
    (200 <= StatusCode resp < 300 ->
     result = Returns (Some resp, Some body, None) /\
     exists pre, attemptsIssued trace = (pre ++ [k])%list) /\
    (~ (200 <= StatusCode resp < 300) ->
     ~ In (StatusCode resp) [408; 429; 500; 502; 503; 504] ->
     result = Returns (Some resp, Some body,
                       Some (HTTPError (StatusCode resp) (URL req)
                               (op ++ " HTTP " ++ Itoa (StatusCode resp)))) /\
     exists pre, attemptsIssued trace = (pre ++ [k])%list).
Proof.
  intros HN trace result. subst trace result.
  rewrite DoWithRetry_loop.
  assert (Heff : effectiveAttempts cfg = RetryMaxAttempts cfg)
    by (rewrite effectiveAttempts_max; lia).
  split.
  - destruct (Body req) as [[b | e] |]; [ | simpl; lia | ];
      destruct (retryLoop_attempts env cfg req op (origBody req)
                  (effectiveAttempts cfg) (Z.to_nat (effectiveAttempts cfg)) 1
                  (mkLoopVars None None None)) as (m & Hm & E);
      rewrite E, countFrom_length; lia.
  - intros k resp body Hin Hdo. split.
    + intros H2xx.
      destruct (Body req) as [[b | e] |]; [ | destruct Hin | ];
        eapply retryLoop_returns_at; eauto;
        intros vars; eapply attemptOnce_success; eauto.
    + intros Hn2xx Hnr.
      assert (Hr : IsRetryableStatus (StatusCode resp) = false).
      { destruct (IsRetryableStatus (StatusCode resp)) eqn:E; auto.
        apply IsRetryableStatus_set in E. contradiction. }
      destruct (Body req) as [[b | e] |]; [ | destruct Hin | ];
        eapply retryLoop_returns_at; eauto;
        intros vars; eapply attemptOnce_terminal; eauto.
Qed.

(** C8 (as stated) fails when the body of a response cannot be read:
    the status is then not looked at and the attempt is retried.  A
    first answer of 200 with an unreadable body does not make the call
    return at once, and a first answer of 404 with an unreadable body
    is not terminal: in both runs a second attempt is issued. *)
Lemma DoWithRetry_unread_body_is_retried :
  ~ (forall env req cfg op k resp read,
       1 <= RetryMaxAttempts cfg ->
       In k (attemptsIssued (fst (DoWithRetry env req cfg op))) ->
       clientDo env k (origBody req) = DoResponse resp read ->
       200 <= StatusCode resp < 300 ->
       exists pre, attemptsIssued (fst (DoWithRetry env req cfg op)) =
                   (pre ++ [k])%list) /\
  ~ (forall env req cfg op k resp read,
       1 <= RetryMaxAttempts cfg ->
       In k (attemptsIssued (fst (DoWithRetry env req cfg op))) ->
       clientDo env k (origBody req) = DoResponse resp read ->
       ~ (200 <= StatusCode resp < 300) ->
       ~ In (StatusCode resp) [408; 429; 500; 502; 503; 504] ->
       (exists body,
          snd (DoWithRetry env req cfg op) =
          Returns (Some resp, body,
                   Some (HTTPError (StatusCode resp) (URL req)
                           (op ++ " HTTP " ++ Itoa (StatusCode resp))))) /\
       exists pre, attemptsIssued (fst (DoWithRetry env req cfg op)) =
                   (pre ++ [k])%list).
Proof.
  assert (Hlast : forall pre : list Z, [1; 2] <> (pre ++ [1])%list).
  { intros [|a [|b [|c pre]]] E; discriminate E. }
  assert (HN : 1 <= RetryMaxAttempts DefaultConfig) by (vm_compute; discriminate).
  split; intros H.
  - destruct (H (unreadEnv 200 "") getRequest DefaultConfig "get task" 1
                (mkResponse 200 (retryAfterHeader ""))
                (inr (ExternalError "unexpected EOF")) HN) as (pre & E).
    + rewrite DoWithRetry_unread_run. left. reflexivity.
    + reflexivity.
    + cbn. lia.
    + rewrite DoWithRetry_unread_run in E. exact (Hlast pre E).
  - destruct (H (unreadEnv 404 "") getRequest DefaultConfig "get task" 1
                (mkResponse 404 (retryAfterHeader ""))
                (inr (ExternalError "unexpected EOF")) HN) as (_ & pre & E).
    + rewrite DoWithRetry_unread_run. left. reflexivity.
    + reflexivity.
    + cbn. lia.
    + cbn. intuition discriminate.
    + rewrite DoWithRetry_unread_run in E. exact (Hlast pre E).
Qed.

Lemma DoWithRetry_attempts_and_statuses_witness :
  Z.of_nat (List.length
              (attemptsIssued
                 (fst (DoWithRetry flakyEnv getRequest DefaultConfig "get task"))))
  <= 6 /\
  snd (DoWithRetry flakyEnv getRequest DefaultConfig "get task") =
  Returns (Some (mkResponse 404 (retryAfterHeader "")), Some "gone",
           Some (HTTPError 404 "https://h1:9440/v1/ncc/T1" "get task HTTP 404")).
Proof.
  destruct (DoWithRetry_attempts_and_statuses flakyEnv getRequest DefaultConfig
              "get task") as [Hlen Hst].
  - vm_compute. discriminate.
  - split; [exact Hlen|].
    destruct (Hst 2 (mkResponse 404 (retryAfterHeader "")) "gone") as [_ Hterm].
    + vm_compute. right. left. reflexivity.
    + reflexivity.
    + destruct Hterm as [Hres _].
      * cbn. lia.
      * cbn. intuition discriminate.
      * exact Hres.
Defined.
End ClientProofs.

(* ================================================================= *)
(** ** Properties of package [parser] *)

Module StringFacts.
Import GoLib.
Import ParserProps.

Lemma sapp_assoc (a b c : string) : (a ++ b) ++ c = a ++ b ++ c.
Proof. induction a; simpl; [reflexivity | f_equal; auto]. Qed.

Lemma sapp_nil_r (a : string) : a ++ "" = a.
Proof. induction a; simpl; [reflexivity | f_equal; auto]. Qed.

Lemma slength_app (a b : string) :
  String.length (a ++ b) = (String.length a + String.length b)%nat.
Proof. induction a; simpl; auto. Qed.

Lemma concat_cons x xs :
  String.concat "" (x :: xs) = x ++ String.concat "" xs.
Proof. destruct xs; simpl; [rewrite sapp_nil_r|]; reflexivity. Qed.

Lemma HasSuffix_app_r a t suf :
  HasSuffix t suf = true -> HasSuffix (a ++ t) suf = true.
Proof.
  intros H. induction a as [|c a IH]; simpl; [exact H|].
  rewrite IH. apply orb_true_r.
Qed.

Lemma hasByte_cons c d s :
  hasByte c (String d s) = false -> d <> c /\ hasByte c s = false.
Proof.
  simpl. intros H. apply orb_false_iff in H. destruct H as [H1 H2].
  split; auto. apply Ascii.eqb_neq. exact H1.
Qed.

(** A pattern without the byte [c] matches in front of [c] exactly as it
    matches at the end of the text. *)
Lemma prefix_app_sep c p : forall a b,
  hasByte c p = false ->
  String.prefix p (a ++ String c b) = String.prefix p a.
Proof.
  induction p as [|x p IH]; intros a b H.
  - destruct a; reflexivity.
  - apply hasByte_cons in H. destruct H as [Hx Hp].
    destruct a as [|y a]; simpl.
    + destruct (ascii_dec x c); [contradiction | reflexivity].
    + destruct (ascii_dec x y); [apply IH; exact Hp | reflexivity].
Qed.

Lemma prefix_app_end c p a :
  hasByte c p = false ->
  String.prefix p (a ++ String c "") = String.prefix p a.
Proof. apply prefix_app_sep. Qed.

(** *** [Split] and [Join] *)

Lemma Split_nonempty s c : Split s c <> [].
Proof.
  destruct s as [|d s]; simpl; [discriminate|].
  destruct (d =? c)%char; [discriminate|].
  destruct (Split s c); discriminate.
Qed.

Lemma Split_app_sep c a : forall b,
  Split (a ++ String c b) c = (Split a c ++ Split b c)%list.
Proof.
  induction a as [|d a IH]; intros b; simpl.
  - rewrite Ascii.eqb_refl. reflexivity.
  - destruct (d =? c)%char.
    + rewrite IH. reflexivity.
    + rewrite IH. pose proof (Split_nonempty a c).
      destruct (Split a c); [contradiction | reflexivity].
Qed.

Lemma Split_noSep c l : hasByte c l = false -> Split l c = [l].
Proof.
  induction l as [|d l IH]; intros H; simpl.
  - reflexivity.
  - apply hasByte_cons in H. destruct H as [Hd Hl].
    apply Ascii.eqb_neq in Hd. rewrite Hd, (IH Hl). reflexivity.
Qed.

Lemma Split_free c s : Forall (fun l => hasByte c l = false) (Split s c).
Proof.
  induction s as [|d s IH]; simpl.
  - repeat constructor.
  - destruct (d =? c)%char eqn:E.
    + constructor; [reflexivity | exact IH].
    + destruct (Split s c) as [|l ls]; [repeat constructor; simpl; rewrite E; reflexivity|].
      inversion IH; subst. constructor; auto. simpl. rewrite E. assumption.
Qed.

Lemma Join_cons x y r sep :
  Join (x :: y :: r) sep = x ++ sep ++ Join (y :: r) sep.
Proof. reflexivity. Qed.

Lemma Split_Join ls :
  ls <> [] -> Forall (fun l => hasByte nl l = false) ls ->
  Split (Join ls NL) nl = ls.
Proof.
  induction ls as [|x [|y r] IH]; intros Hne Hfree.
  - contradiction.
  - inversion Hfree; subst. apply Split_noSep. assumption.
  - inversion Hfree; subst. rewrite Join_cons. unfold NL at 1. cbn [String.append].
    rewrite Split_app_sep, IH; [|discriminate | assumption].
    rewrite Split_noSep by assumption. reflexivity.
Qed.

Lemma Join_Split d : Join (Split d nl) NL = d.
Proof.
  induction d as [|c d IH]; [reflexivity|].
  cbn [Split]. pose proof (Split_nonempty d nl) as Hne.
  destruct (c =? nl)%char eqn:E.
  - apply Ascii.eqb_eq in E. subst c.
    destruct (Split d nl) as [|l ls]; [contradiction|].
    rewrite Join_cons, IH. reflexivity.
  - destruct (Split d nl) as [|l [|y r]]; [contradiction | |].
    + cbn in *. rewrite IH. reflexivity.
    + rewrite Join_cons in *. cbn [String.append]. rewrite IH. reflexivity.
Qed.

Lemma Join_app X Y :
  X <> [] -> Y <> [] ->
  Join (X ++ Y) NL = Join X NL ++ NL ++ Join Y NL.
Proof.
  induction X as [|x [|y r] IH]; intros HX HY.
  - contradiction.
  - destruct Y; [contradiction | reflexivity].
  - change ((x :: y :: r) ++ Y)%list with (x :: y :: (r ++ Y))%list.
    rewrite !Join_cons.
    change (y :: (r ++ Y))%list with ((y :: r) ++ Y)%list.
    rewrite IH by (auto; discriminate).
    rewrite !sapp_assoc. reflexivity.
Qed.

(** *** [dropCR] *)

Lemma dropCR_cases l : dropCR l = l \/ l = dropCR l ++ String cr "".
Proof.
  induction l as [|c l IH]; [left; reflexivity|].
  destruct l as [|d l].
  - simpl. destruct (Ascii.eqb_spec c cr); [right; subst; reflexivity | left; reflexivity].
  - change (dropCR (String c (String d l))) with (String c (dropCR (String d l))).
    destruct IH as [E | E].
    + left. rewrite E. reflexivity.
    + right. cbn [String.append]. rewrite <- E. reflexivity.
Qed.

Lemma hasByte_app c a b : hasByte c (a ++ b) = hasByte c a || hasByte c b.
Proof. induction a; simpl; [reflexivity | rewrite IHa, orb_assoc; reflexivity]. Qed.

Lemma dropCR_free c l : hasByte c l = false -> hasByte c (dropCR l) = false.
Proof.
  intros H. destruct (dropCR_cases l) as [E | E]; [rewrite E; exact H|].
  rewrite E, hasByte_app in H. apply orb_false_iff in H. tauto.
Qed.

Lemma dropCR_length l : (String.length (dropCR l) <= String.length l)%nat.
Proof.
  destruct (dropCR_cases l) as [E | E]; [rewrite E; lia|].
  rewrite E at 2. rewrite slength_app. lia.
Qed.

Lemma dropCR_prefix p l :
  hasByte cr p = false -> String.prefix p (dropCR l) = String.prefix p l.
Proof.
  intros H. destruct (dropCR_cases l) as [E | E]; [rewrite E; reflexivity|].
  rewrite E at 2. rewrite prefix_app_end by exact H. reflexivity.
Qed.

(** *** The scanner *)

Lemma dropFinalEmpty_snoc X : dropFinalEmpty (X ++ [""]) = X.
Proof.
  induction X as [|x X IH]; [reflexivity|].
  cbn [List.app dropFinalEmpty]. rewrite IH.
  destruct (X ++ [""])%list eqn:E; [destruct X; discriminate | reflexivity].
Qed.

Lemma dropFinalEmpty_Forall (P : string -> Prop) l :
  Forall P l -> Forall P (dropFinalEmpty l).
Proof.
  induction l as [|x l IH]; intros H; [constructor|].
  inversion H; subst. cbn [dropFinalEmpty]. destruct l as [|y l].
  - destruct (x =? "")%string; auto.
  - constructor; auto.
Qed.

Lemma takeWhile_all {A} (p : A -> bool) l :
  Forall (fun x => p x = true) l -> takeWhile p l = l.
Proof.
  induction 1 as [|x l Hx Hl IH]; simpl; [reflexivity|].
  rewrite Hx, IH. reflexivity.
Qed.

Lemma takeWhile_Forall {A} (p : A -> bool) (P : A -> Prop) l :
  Forall P l -> Forall (fun x => P x /\ p x = true) (takeWhile p l).
Proof.
  induction 1 as [|x l Hx Hl IH]; simpl; [constructor|].
  destruct (p x) eqn:E; constructor; auto.
Qed.

Lemma HasSuffix_app a suf : HasSuffix (a ++ suf) suf = true.
Proof.
  induction a as [|c a IH]; simpl.
  - destruct suf; simpl; [reflexivity|].
    rewrite Ascii.eqb_refl, String.eqb_refl. reflexivity.
  - rewrite IH. apply orb_true_r.
Qed.

End StringFacts.

Module ParserProofs.
Import GoLib Errors Types Parser ParserProps StringFacts.

(** *** The lines [splitLines] hands to the parser *)

Lemma fitsBuffer_shorter m a b :
  (String.length a <= String.length b)%nat ->
  fitsBuffer m b = true -> fitsBuffer m a = true.
Proof.
  unfold fitsBuffer. intros Hl Hb.
  apply N.ltb_lt. apply N.ltb_lt in Hb. lia.
Qed.

Lemma lineOK_empty : lineOK "".
Proof. split; reflexivity. Qed.

Lemma lineOK_dropCR l : lineOK l -> lineOK (dropCR l).
Proof.
  intros [Hfree Hfit]. split.
  - apply dropCR_free. exact Hfree.
  - eapply fitsBuffer_shorter; [apply dropCR_length | exact Hfit].
Qed.

Lemma ScanLines_lineOK s : Forall lineOK (ScanLines maxTokenSize s).
Proof.
  unfold ScanLines. apply Forall_map.
  eapply Forall_impl;
    [| apply takeWhile_Forall, dropFinalEmpty_Forall, (Split_free nl s)].
  intros l [Hfree Hfit]. apply lineOK_dropCR. split; assumption.
Qed.

Lemma splitLines_lineOK s : Forall lineOK (splitLines s).
Proof.
  unfold splitLines.
  destruct ((0 <? Z.of_nat (String.length s)) && HasSuffix s NL).
  - apply Forall_app. split; [apply ScanLines_lineOK|].
    constructor; [apply lineOK_empty | constructor].
  - apply ScanLines_lineOK.
Qed.

(** *** The equations of the parsing loop *)

Lemma parseLoop_cons line rest blocks :
  parseLoop (line :: rest) blocks =
  if reBlockStart line then gatherFrom line blocks rest []
  else parseLoop rest blocks.
Proof.
  reflexivity.
Qed.

Lemma parseLoop_skip line rest blocks :
  reBlockStart line = false ->
  parseLoop (line :: rest) blocks = parseLoop rest blocks.
Proof. intros H. rewrite parseLoop_cons, H. reflexivity. Qed.

Lemma gatherFrom_open line blocks r : forall buf,
  Forall notEnd r ->
  gatherFrom line blocks r buf = append blocks (mkBlock line (buf ++ r)%list).
Proof.
  induction r as [|x r IH]; intros buf H; simpl.
  - rewrite app_nil_r. reflexivity.
  - inversion H as [|? ? Hx Hr]; subst. unfold notEnd in Hx. rewrite Hx.
    rewrite IH by assumption. rewrite <- app_assoc. reflexivity.
Qed.

Lemma gatherFrom_closed line blocks buf0 e rest : forall buf,
  Forall notEnd buf0 -> reBlockEnd e = true ->
  gatherFrom line blocks (buf0 ++ e :: rest)%list buf =
  parseLoop rest (append blocks (mkBlock line (buf ++ buf0 ++ [e])%list)).
Proof.
  induction buf0 as [|x r IH]; intros buf H He; simpl.
  - rewrite He. reflexivity.
  - inversion H as [|? ? Hx Hr]; subst. unfold notEnd in Hx. rewrite Hx.
    rewrite IH by assumption. rewrite <- app_assoc. reflexivity.
Qed.

Lemma parseLoop_open line rest blocks :
  reBlockStart line = true -> Forall notEnd rest ->
  parseLoop (line :: rest) blocks = append blocks (mkBlock line rest).
Proof.
  intros Hs Hr. rewrite parseLoop_cons, Hs, gatherFrom_open by assumption.
  reflexivity.
Qed.

Lemma parseLoop_closed line buf0 e rest blocks :
  reBlockStart line = true -> Forall notEnd buf0 -> reBlockEnd e = true ->
  parseLoop (line :: buf0 ++ e :: rest)%list blocks =
  parseLoop rest (append blocks (mkBlock line (buf0 ++ [e])%list)).
Proof.
  intros Hs Hb He. rewrite parseLoop_cons, Hs, gatherFrom_closed by assumption.
  reflexivity.
Qed.

Lemma split_at_end (r : list string) :
  Forall notEnd r \/
  exists buf0 e rest,
    r = (buf0 ++ e :: rest)%list /\ Forall notEnd buf0 /\ reBlockEnd e = true.
Proof.
  induction r as [|x r IH]; [left; constructor|].
  destruct (reBlockEnd x) eqn:E.
  - right. exists [], x, r. repeat split; auto.
  - destruct IH as [H | (buf0 & e & rest & -> & Hb & He)].
    + left. constructor; assumption.
    + right. exists (x :: buf0), e, rest.
      split; [reflexivity | split; [constructor; assumption | assumption]].
Qed.

Lemma appendAll_append blocks b bs :
  appendAll (append blocks b) bs = appendAll blocks (b :: bs).
Proof.
  destruct bs as [|b' bs]; cbn [appendAll append elems].
  - reflexivity.
  - rewrite <- app_assoc. reflexivity.
Qed.

(** What the parsing loop appends: blocks of the parsed shape, and none
    exactly when no line starts a block. *)
Lemma parseLoop_shape n : forall lines blocks,
  (List.length lines <= n)%nat ->
  Forall lineOK lines ->
  exists bs,
    parsedShape bs /\
    parseLoop lines blocks = appendAll blocks bs /\
    (bs = [] <-> Forall (fun l => reBlockStart l = false) lines).
Proof.
  induction n as [|n IH]; intros lines blocks Hlen Hok.
  - destruct lines; [|simpl in Hlen; lia].
    exists []. repeat split; auto. constructor.
  - destruct lines as [|l rest].
    { exists []. repeat split; auto. constructor. }
    inversion Hok as [|? ? Hl Hrest]; subst. simpl in Hlen.
    destruct (reBlockStart l) eqn:Hs.
    + destruct (split_at_end rest) as [Hopen | (buf0 & e & rest' & -> & Hb & He)].
      * exists [mkBlock l rest]. split; [|split].
        -- apply shape_open. exists l, rest.
           split; [reflexivity | split; [assumption | split; [assumption |
             split; assumption]]].
        -- apply parseLoop_open; assumption.
        -- split; [discriminate|]. intros H. inversion H; congruence.
      * apply Forall_app in Hrest. destruct Hrest as [Hbok Herest].
        inversion Herest as [|? ? Heok Hrest']; subst.
        destruct (IH rest' (append blocks (mkBlock l (buf0 ++ [e])%list)))
          as (bs & Hshape & Hparse & _); auto.
        { rewrite length_app in Hlen. simpl in Hlen. lia. }
        exists (mkBlock l (buf0 ++ [e])%list :: bs). split; [|split].
        -- apply shape_closed; [|assumption].
           exists l, buf0, e.
           split; [reflexivity | split; [assumption | split; [assumption |
             split; [assumption | split; [assumption | split; assumption]]]]].
        -- rewrite parseLoop_closed by assumption.
           rewrite Hparse. apply appendAll_append.
        -- split; [discriminate|]. intros H. inversion H; congruence.
    + destruct (IH rest blocks) as (bs & Hshape & Hparse & Hiff); auto; [lia|].
      exists bs. split; [assumption | split].
      * rewrite parseLoop_skip by assumption. exact Hparse.
      * rewrite Hiff. split; intros H.
        -- constructor; assumption.
        -- inversion H; assumption.
Qed.

(** [ParseSummary] on a text that is not empty. *)
Lemma ParseSummary_shape text :
  text <> "" ->
  exists bs,
    parsedShape bs /\
    (bs = [] <-> Forall (fun l => reBlockStart l = false) (splitLines text)) /\
    ParseSummary text =
    match bs with
    | [] => (None, Some (ParseError "no valid blocks found in summary"))
    | _ :: _ => (Some bs, None)
    end.
Proof.
  intros Hne.
  destruct (parseLoop_shape (List.length (splitLines text)) (splitLines text) None)
    as (bs & Hshape & Hparse & Hiff); [lia | apply splitLines_lineOK |].
  exists bs. split; [assumption | split; [assumption|]].
  unfold ParseSummary. apply String.eqb_neq in Hne. rewrite Hne.
  cbv zeta. rewrite Hparse. destruct bs as [|b bs]; cbn [appendAll]; [reflexivity|].
  unfold len. cbn [elems List.app List.length].
  destruct (Z.eqb_spec (Z.of_nat (S (List.length bs))) 0); [lia | reflexivity].
Qed.

Lemma ParseSummary_success text F :
  ParseSummary text = (Some F, None) -> F <> [] /\ parsedShape F.
Proof.
  intros H. destruct (string_dec text "") as [-> | Hne]; [discriminate|].
  destruct (ParseSummary_shape text Hne) as (bs & Hshape & _ & E).
  rewrite E in H. destruct bs as [|b bs]; [discriminate|].
  inversion H; subst. split; [discriminate | assumption].
Qed.

Lemma ParseSummary_ok_nonempty text blocks :
  ParseSummary text = (blocks, None) -> exists b bs, blocks = Some (b :: bs).
Proof.
  intros H. destruct (string_dec text "") as [-> | Hne]; [discriminate|].
  destruct (ParseSummary_shape text Hne) as (bs & _ & _ & E).
  rewrite E in H. destruct bs as [|b bs]; [discriminate|].
  inversion H; subst. exists b, bs. reflexivity.
Qed.

(** In terms of the lines [splitLines] delivers: [ParseSummary] returns
    an error exactly when its input is the empty string or none of the
    delivered lines starts a finding; with an error the findings are
    nil, and without one they are a slice that is neither nil nor
    empty. *)
Lemma ParseSummary_error_iff text :
  match ParseSummary text with
  | (blocks, Some e) =>
      blocks = None /\
      ((text = "" /\ e = ParseError "empty summary text") \/
       (text <> "" /\
        Forall (fun l => reBlockStart l = false) (splitLines text) /\
        e = ParseError "no valid blocks found in summary"))
  | (blocks, None) =>
      text <> "" /\
      ~ Forall (fun l => reBlockStart l = false) (splitLines text) /\
      exists b bs, blocks = Some (b :: bs)
  end.
Proof.
  destruct (string_dec text "") as [-> | Hne].
  - cbn. split; [reflexivity | left; split; reflexivity].
  - destruct (ParseSummary_shape text Hne) as (bs & Hshape & Hiff & E).
    rewrite E. destruct bs as [|b bs].
    + split; [reflexivity | right].
      split; [assumption | split; [apply Hiff; reflexivity | reflexivity]].
    + split; [assumption | split].
      * intros H. apply Hiff in H. discriminate.
      * exists b, bs. reflexivity.
Qed.

(** *** The lines of a parsed finding *)

Lemma filter_notEnd buf : Forall notEnd buf -> filter reBlockEnd buf = [].
Proof.
  induction 1 as [|x l Hx Hl IH]; simpl; [reflexivity|].
  unfold notEnd in Hx. rewrite Hx. exact IH.
Qed.

Lemma Forall_free buf :
  Forall lineOK buf -> Forall (fun l => hasByte nl l = false) buf.
Proof. apply Forall_impl. intros l [H _]. exact H. Qed.

Lemma closedShape_lines b :
  closedShape b ->
  reBlockStart (CheckName b) = true /\ lineOK (CheckName b) /\
  exists buf e,
    detailLines b = (buf ++ [e])%list /\ Forall lineOK (buf ++ [e])%list /\
    Forall notEnd buf /\ reBlockEnd e = true.
Proof.
  intros (l & buf & e & -> & Hs & Hl & Hb & He & Hn & Hend).
  cbn [mkBlock CheckName]. split; [assumption | split; [assumption|]].
  exists buf, e.
  assert (Hok : Forall lineOK (buf ++ [e])%list).
  { apply Forall_app. split; [assumption | constructor; [assumption | constructor]]. }
  split; [|split; [assumption | split; assumption]].
  unfold detailLines. cbn [mkBlock DetailRaw].
  apply Split_Join; [destruct buf; discriminate | apply Forall_free; exact Hok].
Qed.

Lemma openShape_lines b :
  openShape b ->
  reBlockStart (CheckName b) = true /\ lineOK (CheckName b) /\
  detailLines b <> [] /\
  Forall lineOK (detailLines b) /\ Forall notEnd (detailLines b) /\
  DetailRaw b = Join (detailLines b) NL.
Proof.
  intros (l & buf & -> & Hs & Hl & Hb & Hn).
  cbn [mkBlock CheckName DetailRaw]. split; [assumption | split; [assumption|]].
  unfold detailLines. cbn [mkBlock DetailRaw].
  destruct buf as [|x buf].
  - cbn. split; [discriminate | split; [|split; [|reflexivity]]];
      (constructor; [|constructor]); [apply lineOK_empty | reflexivity].
  - rewrite Split_Join; [|discriminate | apply Forall_free; exact Hb].
    split; [discriminate | split; [assumption | split; [assumption | reflexivity]]].
Qed.

Lemma last_snoc {A} (l : list A) (x d : A) : last (l ++ [x]) d = x.
Proof.
  induction l as [|y l IH]; [reflexivity|].
  cbn [List.app]. destruct (l ++ [x])%list eqn:E; [destruct l; discriminate|].
  exact IH.
Qed.

Lemma closedShape_refer b :
  closedShape b ->
  referLines b = [lastLine b] /\ closed b = true /\
  Forall notEnd (removelast (detailLines b)).
Proof.
  intros H. apply closedShape_lines in H.
  destruct H as (_ & _ & buf & e & Hd & _ & Hn & He).
  unfold referLines, closed, lastLine. rewrite Hd, last_snoc, removelast_last.
  rewrite filter_app, (filter_notEnd buf Hn). cbn. rewrite He.
  split; [reflexivity | split; [reflexivity | assumption]].
Qed.

Lemma last_Forall {A} (P : A -> Prop) (l : list A) d :
  l <> [] -> Forall P l -> P (last l d).
Proof.
  induction l as [|x l IH]; intros Hne H; [contradiction|].
  inversion H; subst. destruct l as [|y l]; [assumption|].
  apply IH; [discriminate | assumption].
Qed.

Lemma removelast_Forall {A} (P : A -> Prop) (l : list A) :
  Forall P l -> Forall P (removelast l).
Proof.
  induction 1 as [|x l Hx Hl IH]; [constructor|].
  cbn [removelast]. destruct l; [constructor | constructor; assumption].
Qed.

Lemma openShape_refer b :
  openShape b ->
  referLines b = [] /\ closed b = false /\
  Forall notEnd (removelast (detailLines b)).
Proof.
  intros H. apply openShape_lines in H.
  destruct H as (_ & _ & Hne & _ & Hn & _).
  unfold referLines, closed, lastLine. rewrite (filter_notEnd _ Hn).
  split; [reflexivity | split].
  - apply (last_Forall notEnd); assumption.
  - apply removelast_Forall. assumption.
Qed.

Lemma parsedShape_each F :
  parsedShape F ->
  Forall (fun b => closedShape b \/ openShape b) F /\
  Forall closedShape (removelast F).
Proof.
  induction 1 as [| b Hb | b bs Hb Hbs [IH1 IH2]].
  - split; constructor.
  - split; [constructor; [right; assumption | constructor] | constructor].
  - split; [constructor; [left; assumption | assumption]|].
    cbn [removelast]. destruct bs; [constructor | constructor; assumption].
Qed.




(** *** Severity detection works line by line *)

Lemma severityAt_app_sep c a b :
  c = nl \/ c = cr -> severityAt (a ++ String c b) = severityAt a.
Proof.
  intros Hc. unfold severityAt, HasPrefix.
  rewrite !prefix_app_sep by (destruct Hc; subst c; reflexivity).
  reflexivity.
Qed.

Lemma reSeverity_find_app_sep c a : forall prevWord b,
  c = nl \/ c = cr ->
  reSeverity_find prevWord (a ++ String c b) =
  match reSeverity_find prevWord a with
  | Some w => Some w
  | None => reSeverity_find false b
  end.
Proof.
  induction a as [|y a IH]; intros prevWord b Hc.
  - cbn [String.append reSeverity_find].
    change (String c b) with ("" ++ String c b) at 1.
    rewrite severityAt_app_sep by assumption.
    assert (Hw : isWordByte c = false) by (destruct Hc; subst c; reflexivity).
    rewrite Hw. destruct prevWord; reflexivity.
  - cbn [String.append reSeverity_find].
    change (String y (a ++ String c b)) with (String y a ++ String c b).
    rewrite severityAt_app_sep by assumption.
    rewrite IH by assumption.
    destruct (if prevWord then None else severityAt (String y a)); reflexivity.
Qed.

Lemma prefix_empty_false p : p <> "" -> String.prefix p "" = false.
Proof. destruct p; [contradiction | reflexivity]. Qed.

Lemma Contains_app_sep c lit a : forall b,
  hasByte c lit = false -> lit <> "" ->
  Contains (a ++ String c b) lit = Contains a lit || Contains b lit.
Proof.
  induction a as [|y a IH]; intros b Hc Hne.
  - cbn [String.append Contains].
    change (String c b) with ("" ++ String c b) at 1.
    rewrite prefix_app_sep by assumption.
    rewrite prefix_empty_false by assumption. reflexivity.
  - cbn [String.append Contains].
    change (String y (a ++ String c b)) with (String y a ++ String c b).
    rewrite prefix_app_sep by assumption.
    rewrite IH by assumption. rewrite orb_assoc. reflexivity.
Qed.

Section LineWise.
Variables (M : Type) (op : M -> M -> M) (unit : M) (g : string -> M).
Hypothesis g_nl : forall a b, g (a ++ String nl b) = op (g a) (g b).
Hypothesis g_cr : forall a, g (a ++ String cr "") = g a.
Hypothesis op_unit : forall x, op x unit = x.
Hypothesis g_empty : g "" = unit.
Hypothesis g_dashes : g CmdProps.dashes = unit.

#[local] Abbreviation lineFold := (ParserProps.lineFold op unit g).

Lemma g_Join ls : ls <> [] -> g (Join ls NL) = lineFold ls.
Proof.
  induction ls as [|x [|y r] IH]; intros Hne.
  - contradiction.
  - cbn. rewrite op_unit. reflexivity.
  - rewrite Join_cons. unfold NL at 1. cbn [String.append].
    rewrite g_nl, IH by discriminate. reflexivity.
Qed.

Lemma g_dropCR l : g (dropCR l) = g l.
Proof.
  destruct (dropCR_cases l) as [E | E]; [rewrite E; reflexivity|].
  rewrite E at 2. rewrite g_cr. reflexivity.
Qed.

Lemma lineFold_dropCR ls extra :
  lineFold extra = unit -> lineFold (map dropCR ls ++ extra)%list = lineFold ls.
Proof.
  intros He. induction ls as [|x ls IH]; [exact He|].
  cbn [map List.app]. unfold ParserProps.lineFold in *. cbn [fold_right].
  rewrite IH, g_dropCR. reflexivity.
Qed.

Lemma g_reparse ls extra :
  ls <> [] -> extra = [] \/ extra = [""; CmdProps.dashes; ""] ->
  g (Join (map dropCR ls ++ extra)%list NL) = g (Join ls NL).
Proof.
  intros Hne Hex.
  rewrite !g_Join; [| assumption | destruct ls; [contradiction | discriminate]].
  apply lineFold_dropCR.
  destruct Hex as [-> | ->]; cbn; [reflexivity|].
  rewrite g_empty, g_dashes, !op_unit. reflexivity.
Qed.

End LineWise.

Lemma reSeverity_find_reparse ls extra :
  ls <> [] -> extra = [] \/ extra = [""; CmdProps.dashes; ""] ->
  reSeverity_find false (Join (map dropCR ls ++ extra)%list NL) =
  reSeverity_find false (Join ls NL).
Proof.
  apply (g_reparse (option string)
           (fun x y => match x with Some w => Some w | None => y end) None).
  - intros a b. apply reSeverity_find_app_sep. left; reflexivity.
  - intros a. rewrite reSeverity_find_app_sep by (right; reflexivity).
    destruct (reSeverity_find false a); reflexivity.
  - intros [w|]; reflexivity.
  - reflexivity.
  - reflexivity.
Qed.

Lemma Contains_reparse lit ls extra :
  hasByte nl lit = false -> hasByte cr lit = false -> lit <> "" ->
  Contains CmdProps.dashes lit = false ->
  ls <> [] -> extra = [] \/ extra = [""; CmdProps.dashes; ""] ->
  Contains (Join (map dropCR ls ++ extra)%list NL) lit = Contains (Join ls NL) lit.
Proof.
  intros Hnl Hcr Hne Hd.
  apply (g_reparse bool orb false (fun s => Contains s lit)).
  - intros a b. apply Contains_app_sep; assumption.
  - intros a. rewrite Contains_app_sep by assumption.
    cbn [Contains]. rewrite prefix_empty_false by assumption.
    rewrite !orb_false_r. reflexivity.
  - apply orb_false_r.
  - cbn [Contains]. rewrite prefix_empty_false by assumption. reflexivity.
  - exact Hd.
Qed.

(** Dropping carriage returns at line ends and appending the separator
    lines leaves the detected severity unchanged. *)
Lemma detectSeverity_reparse ls extra :
  ls <> [] -> extra = [] \/ extra = [""; CmdProps.dashes; ""] ->
  detectSeverity (Join (map dropCR ls ++ extra)%list NL) =
  detectSeverity (Join ls NL).
Proof.
  intros Hne Hex. unfold detectSeverity.
  rewrite reSeverity_find_reparse by assumption.
  rewrite !Contains_reparse by (assumption || reflexivity || discriminate).
  reflexivity.
Qed.

End ParserProofs.

(* ================================================================= *)
(** ** Properties of package [cmd] *)

Module CmdProofs.
Import GoLib Errors Types Config Parser Cmd CmdProps StringFacts ParserProofs.

(** Case analysis on every [match] of the goal, outermost first. *)
Ltac case_matches :=
  repeat match goal with
         | |- context [match ?x with _ => _ end] => destruct x
         end.

Lemma percents_app a b : percents (a ++ b) = (percents a ++ percents b)%list.
Proof. apply flat_map_app. Qed.

(** *** The clamp *)

Lemma code_clamp_is_spec_clamp last p :
  last <= 100 ->
  (let pct := p in
   let pct := if pct <? last then last else pct in
   if pct >? 100 then 100 else pct) = Z.max last (Z.min 100 p).
Proof.
  intros H. cbv zeta.
  destruct (Z.ltb_spec p last);
    [destruct (Z.gtb_spec last 100) | destruct (Z.gtb_spec p 100)]; lia.
Qed.

Lemma clampSeq_bounds previous remote :
  previous <= 100 ->
  Forall (fun v => previous <= v <= 100) (clampSeq previous remote).
Proof.
  revert previous. induction remote as [|p rest IH]; intros previous H; simpl.
  - constructor.
  - constructor; [lia|].
    eapply Forall_impl; [|apply IH; lia].
    simpl. intros v Hv. lia.
Qed.

Lemma clampSeq_sorted previous remote :
  previous <= 100 ->
  Sorted Z.le (previous :: clampSeq previous remote).
Proof.
  revert previous. induction remote as [|p rest IH]; intros previous H; simpl.
  - repeat constructor.
  - constructor.
    + apply IH. lia.
    + constructor. lia.
Qed.

(** Each value of the clamped sequence is the clamp of the value before
    it and of the remote percentage at its place. *)
Lemma clampSeq_nth remote : forall previous i p,
  nth_error remote i = Some p ->
  exists before,
    nth_error (previous :: clampSeq previous remote) i = Some before /\
    nth_error (previous :: clampSeq previous remote) (S i) =
    Some (Z.max before (Z.min 100 p)).
Proof.
  induction remote as [|q rest IH]; intros previous i p Hi;
    [destruct i; discriminate Hi|].
  destruct i as [|i].
  - injection Hi as ->. exists previous. split; reflexivity.
  - cbn [nth_error] in Hi.
    destruct (IH (Z.max previous (Z.min 100 q)) i p Hi) as (before & H1 & H2).
    exists before. split; [exact H1 | exact H2].
Qed.

(** *** The answered polls *)

Lemma answered_prefix turns : exists n, answered turns = firstn n turns.
Proof.
  induction turns as [|turn rest [n IH]]; [exists 0%nat; reflexivity|].
  cbn [answered].
  destruct (selected turn) as [e | [[status body] [err|]]];
    try (exists 0%nat; reflexivity).
  destruct ((ProgressStatus status =? "Failed")%string
            || (100 <=? PercentageComplete status)).
  - exists 1%nat. destruct rest; reflexivity.
  - exists (S n). cbn [firstn]. rewrite IH. reflexivity.
Qed.

Lemma answered_okPoll turns : Forall okPoll (answered turns).
Proof.
  induction turns as [|turn rest IH]; [constructor|].
  cbn [answered].
  destruct (selected turn) as [e | [[status body] [err|]]] eqn:Hsel;
    try constructor.
  - exists status, body. exact Hsel.
  - destruct ((ProgressStatus status =? "Failed")%string
              || (100 <=? PercentageComplete status)); [constructor | exact IH].
Qed.

(** The answered polls stop short of an answered turn only after a
    turn that ends the polling. *)
Lemma answered_maximal turns : forall turn,
  nth_error turns (List.length (answered turns)) = Some turn ->
  okPoll turn ->
  exists final, In final (answered turns) /\ endsPolling final.
Proof.
  induction turns as [|first rest IH]; intros turn Hn Hok;
    [discriminate Hn|].
  cbn [answered] in Hn |- *.
  destruct (selected first) as [e | [[status body] [err|]]] eqn:Hsel.
  - injection Hn as ->. destruct Hok as (s & b & Hs). congruence.
  - injection Hn as ->. destruct Hok as (s & b & Hs). congruence.
  - destruct (String.eqb_spec (ProgressStatus status) "Failed") as [Hf | Hf].
    + exists first. split; [left; reflexivity|].
      exists status, body. split; [exact Hsel | left; exact Hf].
    + destruct (Z.leb_spec 100 (PercentageComplete status)) as [Hp | Hp];
        cbn [orb] in Hn |- *.
      * exists first. split; [left; reflexivity|].
        exists status, body. split; [exact Hsel | right; exact Hp].
      * cbn [List.length nth_error] in Hn.
        destruct (IH turn Hn Hok) as (final & Hin & Hend).
        exists final. split; [right; exact Hin | exact Hend].
Qed.

(** No poll is answered after one that ends the polling. *)
Lemma answered_stops turns : forall i turn,
  nth_error (answered turns) i = Some turn -> endsPolling turn ->
  S i = List.length (answered turns).
Proof.
  induction turns as [|first rest IH]; intros i turn Hi Hend;
    [destruct i; discriminate Hi|].
  cbn [answered] in Hi |- *.
  destruct (selected first) as [e | [[status body] [err|]]] eqn:Hsel;
    try (destruct i; discriminate Hi).
  destruct (String.eqb_spec (ProgressStatus status) "Failed") as [Hf | Hf];
    [destruct i as [|[|i]]; [reflexivity | discriminate Hi | discriminate Hi]|].
  destruct (Z.leb_spec 100 (PercentageComplete status)) as [Hp | Hp];
    cbn [orb] in Hi |- *;
    [destruct i as [|[|i]]; [reflexivity | discriminate Hi | discriminate Hi]|].
  destruct i as [|i].
  - injection Hi as <-. destruct Hend as (s & b & Hs & Hor).
    rewrite Hsel in Hs. injection Hs as <- _.
    destruct Hor as [H | H]; [contradiction | lia].
  - cbn [nth_error List.length] in Hi |- *.
    rewrite (IH i turn Hi Hend). reflexivity.
Qed.

(** *** The polling loop *)

Section Polling.
Context {lib : Lib} {St : Type} {fsys : FS St}.

(** What the polling loop reports: with a positive poll jitter, the
    clamp of every answered poll, in order. *)
Lemma pollLoop_percents cfg turns : forall last,
  last < 100 ->
  percents (fst (pollLoop cfg turns last)) =
  if 0 <? PollJitter cfg
  then clampSeq last (map remotePct (answered turns))
  else [].
Proof.
  induction turns as [|turn rest IH]; intros last Hlast.
  - cbn. destruct (0 <? PollJitter cfg); reflexivity.
  - cbn [pollLoop answered]. unfold Client.Int63n.
    destruct (Z.leb_spec (PollJitter cfg) 0) as [Hj | Hj].
    { destruct (Z.ltb_spec 0 (PollJitter cfg)); [lia | reflexivity]. }
    specialize (IH (Z.max last (Z.min 100 (remotePct turn)))).
    destruct (Z.ltb_spec 0 (PollJitter cfg)) as [_ | Hj']; [|lia].
    unfold remotePct in IH |- *.
    destruct (selected turn) as [e | [[status body] [err|]]] eqn:Hsel;
      try reflexivity.
    pose proof (code_clamp_is_spec_clamp last (PercentageComplete status)
                  ltac:(lia)) as Hc.
    cbv zeta in Hc |- *. rewrite Hc.
    set (v := Z.max last (Z.min 100 (PercentageComplete status))) in *.
    destruct (ProgressStatus status =? "Failed")%string;
      [cbn [orb map clampSeq]; rewrite Hsel; reflexivity|].
    cbn [orb].
    destruct (Z.geb_spec v 100) as [Hge | Hlt];
      destruct (Z.leb_spec 100 (PercentageComplete status)) as [Hp | Hp];
      try (exfalso; subst v; lia).
    + cbn [map clampSeq]. rewrite Hsel. reflexivity.
    + specialize (IH Hlt).
      destruct (pollLoop cfg rest v) as [evs r]. cbn [fst] in IH |- *.
      cbn [percents flat_map List.app map clampSeq]. fold (percents evs).
      rewrite Hsel, IH. reflexivity.
Qed.

Lemma pollLoop_reports cfg turns : forall last,
  last <= 100 ->
  exists n,
    Forall okPoll (firstn n turns) /\
    percents (fst (pollLoop cfg turns last)) =
    clampSeq last (map remotePct (firstn n turns)) /\
    (snd (pollLoop cfg turns last) = GotoSummary ->
     List.last (percents (fst (pollLoop cfg turns last))) 0 = 100).
Proof.
  induction turns as [|turn rest IH]; intros last Hlast.
  - exists 0%nat. simpl. repeat split; auto. discriminate.
  - simpl. destruct (Client.Int63n (jitterRaw turn) (PollJitter cfg)) as [jitter|m].
    2:{ exists 0%nat. simpl. repeat split; auto. discriminate. }
    destruct (selected turn) as [e | [[status body] [err|]]] eqn:Hsel.
    + exists 0%nat. simpl. repeat split; auto. discriminate.
    + exists 0%nat. simpl. repeat split; auto. discriminate.
    + pose proof (code_clamp_is_spec_clamp last (PercentageComplete status) Hlast) as Hc.
      cbv zeta in Hc. rewrite Hc.
      set (v := Z.max last (Z.min 100 (PercentageComplete status))).
      assert (Hturn : okPoll turn) by (exists status, body; exact Hsel).
      assert (Hpct : remotePct turn = PercentageComplete status)
        by (unfold remotePct; rewrite Hsel; reflexivity).
      destruct (ProgressStatus status =? "Failed")%string.
      * exists 1%nat. simpl. rewrite Hpct. repeat split; auto. discriminate.
      * destruct (Z.geb_spec v 100) as [Hge | Hlt].
        -- exists 1%nat. simpl. rewrite Hpct. repeat split; auto.
           intros _. subst v. lia.
        -- destruct (IH v ltac:(lia)) as (n & Hok & Hp & Hs).
           exists (S n).
           destruct (pollLoop cfg rest v) as [evs r]. cbn [fst snd] in *.
           simpl. rewrite Hpct. fold v. rewrite Hp.
           repeat split; auto.
           intros Hr. specialize (Hs Hr). rewrite Hp in Hs.
           destruct (clampSeq v (map remotePct (firstn n rest))) eqn:E.
           ++ simpl in Hs. discriminate.
           ++ exact Hs.
Qed.

Lemma summaryPhase_percents (env : RunEnv) cfg flt cluster fs :
  percents (fst (fst (summaryPhase env cfg flt cluster fs))) = [].
Proof.
  unfold summaryPhase. case_matches; reflexivity.
Qed.

Lemma summaryPhase_success (env : RunEnv) cfg flt cluster fs blocks :
  snd (summaryPhase env cfg flt cluster fs) = Finished (blocks, None) ->
  exists data parsed,
    ParseSummary data = (parsed, None) /\
    blocks = applyFilters flt parsed cluster.
Proof.
  unfold summaryPhase.
  destruct (getRunSummary env) as [[summary body] [err|]]; [discriminate|].
  destruct (writeSummary _ _ _ _) as [fs1 [logPath [err|]]]; [discriminate|].
  destruct (filterBlocksToFile _ _ _) as [fs2 [err|]]; [discriminate|].
  destruct (ReadFile _ _) as [data [err|]]; [discriminate|].
  destruct (ParseSummary data) as [parsed [err|]] eqn:E; [discriminate|].
  destruct (renderOutputs _ _ _ _ _) as [fs3 [err|]]; [discriminate|].
  cbn [snd]. intros H. inversion H. exists data, parsed. split; [exact E | reflexivity].
Qed.

Lemma applyFilters_fold (keep : ParsedBlock -> bool) l : forall acc : slice ParsedBlock,
  fold_left (fun filtered block =>
               if keep block then append filtered block else filtered) l acc =
  match filter keep l with
  | [] => acc
  | b :: kept => Some (elems acc ++ b :: kept)%list
  end.
Proof.
  induction l as [|x l IH]; intros acc; simpl.
  - reflexivity.
  - rewrite IH. destruct (keep x).
    + unfold append at 2. cbn [elems].
      destruct (filter keep l); unfold append; cbn [elems].
      * reflexivity.
      * rewrite <- app_assoc. reflexivity.
    + reflexivity.
Qed.

(** [applyFilters] returns nil or a slice that is not empty. *)
Lemma applyFilters_nil_or_nonempty flt blocks cluster :
  applyFilters flt blocks cluster = None \/
  exists b kept, applyFilters flt blocks cluster = Some (b :: kept).
Proof.
  unfold applyFilters. cbv zeta.
  match goal with
  | |- context [if ?c then None else fold_left _ _ _] => destruct c
  end; [left; reflexivity|].
  rewrite applyFilters_fold.
  match goal with |- context [filter ?k ?l] => destruct (filter k l) end.
  - left; reflexivity.
  - right. do 2 eexists. reflexivity.
Qed.

Lemma pollLoop_cancelled cfg turns : forall last,
  (exists turn e, In turn turns /\ selected turn = CtxDone e) ->
  snd (pollLoop cfg turns last) <> PollPending.
Proof.
  induction turns as [|turn rest IH]; intros last (t & e & Hin & Hsel).
  - destruct Hin.
  - simpl. destruct (Client.Int63n (jitterRaw turn) (PollJitter cfg)) as [jitter|m];
      [|discriminate].
    destruct (selected turn) as [e' | [[status body] [err|]]] eqn:Hturn;
      try discriminate.
    destruct (ProgressStatus status =? "Failed")%string; [discriminate|].
    match goal with |- context [if ?c then _ else _] => destruct c end;
      [discriminate|].
    destruct Hin as [<- | Hin]; [congruence|].
    specialize (IH (let pct := PercentageComplete status in
                    let pct := if pct <? last then last else pct in
                    if pct >? 100 then 100 else pct)
                   (ex_intro _ t (ex_intro _ e (conj Hin Hsel)))).
    cbv zeta in IH.
    destruct (pollLoop cfg rest
                (if (if PercentageComplete status <? last then last
                     else PercentageComplete status) >? 100
                 then 100
                 else if PercentageComplete status <? last then last
                      else PercentageComplete status)) as [evs r].
    exact IH.
Qed.

(** Without filters [applyFilters] keeps every finding. *)
Lemma applyFilters_noFilters b bs cluster :
  applyFilters noFilters (Some (b :: bs)) cluster = Some (b :: bs).
Proof.
  unfold applyFilters, noFilters. cbv zeta.
  cbn [filter_severity filter_check filter_cluster String.eqb].
  rewrite applyFilters_fold. cbn [andb elems].
  assert (E : forall l : list ParsedBlock, filter (fun _ => true) l = l).
  { induction l as [|x l IH]; simpl; [reflexivity | rewrite IH; reflexivity]. }
  rewrite E. reflexivity.
Qed.

(** The sequence of percentages [runClusterWithBars] reports is
    non-decreasing, never exceeds 100, and ends at 100 when the run
    succeeds. *)
Lemma runClusterWithBars_monotone (env : RunEnv) cfg flt cluster fs :
  let run := runClusterWithBars env cfg flt cluster fs in
  let reported := percents (fst (fst run)) in
  (reported = [] \/
   exists n,
     Forall okPoll (firstn n (polls env)) /\
     reported = 1 :: clampSeq 1 (map remotePct (firstn n (polls env)))) /\
  Sorted Z.le reported /\
  Forall (fun p => p <= 100) reported /\
  (forall blocks, snd run = Finished (blocks, None) ->
                  List.last reported 0 = 100).
Proof.
  cbv zeta. unfold runClusterWithBars.
  destruct (startChecks env) as [[taskID body] [err|]].
  { cbn. split; [auto | split; [constructor | split; [constructor |]]].
    intros blocks H; discriminate H. }
  destruct (pollLoop_reports cfg (polls env) 1 ltac:(lia)) as (n & Hok & Hp & Hs).
  assert (Hsorted : Sorted Z.le (1 :: clampSeq 1 (map remotePct (firstn n (polls env)))))
    by (apply clampSeq_sorted; lia).
  assert (Hbound : Forall (fun p => p <= 100)
                     (1 :: clampSeq 1 (map remotePct (firstn n (polls env))))).
  { constructor; [lia|].
    eapply Forall_impl; [|apply clampSeq_bounds with (previous := 1); lia].
    simpl. intros v Hv. lia. }
  destruct (pollLoop cfg (polls env) 1) as [evs r]. cbn [fst snd] in *.
  assert (Hrep : forall evs',
             percents evs' = [] ->
             percents ([SetPhase "starting"; SetCurrent 1; SetPhase "polling"]
                       ++ evs ++ evs') =
             1 :: clampSeq 1 (map remotePct (firstn n (polls env)))).
  { intros evs' He. rewrite !percents_app, He, app_nil_r, Hp. reflexivity. }
  destruct r as [ | err | m | ].
  - pose proof (summaryPhase_percents env cfg flt cluster fs) as Hsum.
    destruct (summaryPhase env cfg flt cluster fs) as [[evs' fs'] out].
    cbn [fst snd] in *. rewrite (Hrep evs' Hsum).
    split; [eauto | split; [assumption | split; [assumption |]]].
    intros blocks _. specialize (Hs eq_refl). rewrite Hp in Hs.
    destruct (clampSeq 1 (map remotePct (firstn n (polls env)))); [discriminate|].
    exact Hs.
  - cbn [fst snd]. pose proof (Hrep [] eq_refl) as Hrep0.
    rewrite app_nil_r in Hrep0. rewrite Hrep0.
    split; [eauto | split; [assumption | split; [assumption |]]].
    intros blocks H; discriminate H.
  - cbn [fst snd]. pose proof (Hrep [] eq_refl) as Hrep0.
    rewrite app_nil_r in Hrep0. rewrite Hrep0.
    split; [eauto | split; [assumption | split; [assumption |]]].
    intros blocks H; discriminate H.
  - cbn [fst snd]. pose proof (Hrep [] eq_refl) as Hrep0.
    rewrite app_nil_r in Hrep0. rewrite Hrep0.
    split; [eauto | split; [assumption | split; [assumption |]]].
    intros blocks H; discriminate H.
Qed.

(** What [runClusterWithBars] reports, in full. *)
Lemma runClusterWithBars_percents (env : RunEnv) cfg flt cluster fs :
  percents (fst (fst (runClusterWithBars env cfg flt cluster fs))) =
  match startChecks env with
  | (_, _, Some _) => []
  | (_, _, None) =>
      1 :: (if 0 <? PollJitter cfg
            then clampSeq 1 (map remotePct (answered (polls env)))
            else [])
  end.
Proof.
  unfold runClusterWithBars.
  destruct (startChecks env) as [[taskID body] [err|]]; [reflexivity|].
  pose proof (pollLoop_percents cfg (polls env) 1 ltac:(lia)) as Hp.
  destruct (pollLoop cfg (polls env) 1) as [evs r]. cbn [fst] in Hp.
  assert (Hrep : forall evs',
             percents evs' = [] ->
             percents ([SetPhase "starting"; SetCurrent 1; SetPhase "polling"]
                       ++ evs ++ evs') = 1 :: percents evs).
  { intros evs' He. rewrite !percents_app, He, app_nil_r. reflexivity. }
  destruct r as [ | err | m | ].
  - pose proof (summaryPhase_percents env cfg flt cluster fs) as Hsum.
    destruct (summaryPhase env cfg flt cluster fs) as [[evs' fs'] out].
    cbn [fst snd] in *. rewrite (Hrep evs' Hsum), Hp. reflexivity.
  - cbn [fst]. rewrite <- (app_nil_r evs), (Hrep [] eq_refl), Hp. reflexivity.
  - cbn [fst]. rewrite <- (app_nil_r evs), (Hrep [] eq_refl), Hp. reflexivity.
  - cbn [fst]. rewrite <- (app_nil_r evs), (Hrep [] eq_refl), Hp. reflexivity.
Qed.

(** C9.  The percentages [runClusterWithBars] reports are: nothing when
    the start fails; otherwise 1 and then, after each answered poll,
    the value [max previous (min 100 p')] of the value reported before
    it and of the remote percentage [p'] of that poll.  With a
    positive poll jitter the answered polls are the turns in which
    [GetTask] returned a status, from the first turn up to the first
    one that ends the polling (status Failed, or 100 percent or more)
    or is followed by a turn without a status.  The reported sequence
    is non-decreasing, never exceeds 100, and ends at 100 when the run
    succeeds. *)
Theorem runClusterWithBars_progress (env : RunEnv) cfg flt cluster fs :
  let run := runClusterWithBars env cfg flt cluster fs in
  let reported := percents (fst (fst run)) in
  let polled := answered (polls env) in
  reported =
    match startChecks env with
    | (_, _, Some _) => []
    | (_, _, None) =>
        1 :: (if 0 <? PollJitter cfg
              then clampSeq 1 (map remotePct polled)
              else [])
    end /\
  (exists n, polled = firstn n (polls env)) /\
  Forall okPoll polled /\
  (forall turn,
     nth_error (polls env) (List.length polled) = Some turn -> okPoll turn ->
     exists final, In final polled /\ endsPolling final) /\
  (forall i turn,
     nth_error polled i = Some turn -> endsPolling turn ->
     S i = List.length polled) /\
  (forall i turn,
     snd (startChecks env) = None -> 0 < PollJitter cfg ->
     nth_error polled i = Some turn ->
     exists previous,
       nth_error reported i = Some previous /\
       nth_error reported (S i) =
       Some (Z.max previous (Z.min 100 (remotePct turn)))) /\
  Sorted Z.le reported /\
  Forall (fun p => p <= 100) reported /\
  (forall blocks, snd run = Finished (blocks, None) ->
                  List.last reported 0 = 100).
Proof.
  cbv zeta.
  split; [apply runClusterWithBars_percents|].
  split; [apply answered_prefix|].
  split; [apply answered_okPoll|].
  split; [apply answered_maximal|].
  split; [apply answered_stops|].
  split; [|exact (proj2 (runClusterWithBars_monotone env cfg flt cluster fs))].
  intros i turn Hstart Hj Hi.
  rewrite runClusterWithBars_percents.
  destruct (startChecks env) as [[taskID body] [err|]]; [discriminate Hstart|].
  destruct (Z.ltb_spec 0 (PollJitter cfg)) as [_ | Hj']; [|lia].
  apply clampSeq_nth. rewrite nth_error_map, Hi. reflexivity.
Qed.

Lemma runClusterWithBars_success (env : RunEnv) cfg flt cluster fs blocks :
  snd (runClusterWithBars env cfg flt cluster fs) = Finished (blocks, None) ->
  exists data parsed,
    ParseSummary data = (parsed, None) /\
    blocks = applyFilters flt parsed cluster.
Proof.
  unfold runClusterWithBars.
  destruct (startChecks env) as [[taskID body] [err|]]; [discriminate|].
  destruct (pollLoop cfg (polls env) 1) as [evs [ | err | m | ]];
    try discriminate.
  pose proof (summaryPhase_success env cfg flt cluster fs blocks) as H.
  destruct (summaryPhase env cfg flt cluster fs) as [[evs' fs'] out].
  exact H.
Qed.

(** A worker whose deadline fires at some turn of the polling loop
    publishes a result. *)
Lemma worker_publishes (env : RunEnv) cfg flt cl fs :
  (exists turn e, In turn (polls env) /\ selected turn = CtxDone e) ->
  snd (worker env cfg flt cl fs) <> None.
Proof.
  intros H. unfold worker, runClusterWithBars.
  destruct (startChecks env) as [[taskID body] [err|]]; [discriminate|].
  pose proof (pollLoop_cancelled cfg (polls env) 1 H) as Hp.
  destruct (pollLoop cfg (polls env) 1) as [evs [ | err | m | ]];
    try discriminate; [|contradiction].
  destruct (summaryPhase env cfg flt cl fs) as [[evs' fs'] out] eqn:E.
  assert (Hout : out <> StillPolling).
  { pose proof (f_equal snd E) as E'. cbn [snd] in E'. rewrite <- E'.
    unfold summaryPhase. case_matches; discriminate. }
  destruct out as [[blocks [err|]] | m | ]; try discriminate. contradiction.
Qed.

End Polling.

Lemma runClusterWithBars_progress_witness :
  let reported :=
    percents (fst (fst (@runClusterWithBars exampleLib MemFS _ sampleEnv
                          DefaultConfig noFilters "h1" []))) in
  reported = [1; 50; 50; 100] /\
  exists previous,
    nth_error reported 1 = Some previous /\
    nth_error reported 2 = Some (Z.max previous (Z.min 100 40)).
Proof.
  destruct (@runClusterWithBars_progress exampleLib MemFS _ sampleEnv
              DefaultConfig noFilters "h1" []) as (Hall & _ & _ & _ & _ & Hstep & _).
  split; [exact Hall|].
  apply (Hstep 1%nat (mkPollIter 9 (TimerFired (mkTaskStatus 40 "Running", None, None))));
    [reflexivity | reflexivity | reflexivity].
Defined.

(** C1 (as stated) fails: an endpoint that completes while no finding
    passes the severity filter publishes nil findings and a nil error. *)
Lemma worker_publishes_nil_findings_without_error :
  exists r,
    snd (@worker exampleLib MemFS _ sampleEnv DefaultConfig failOnly "h1" []) = Some r /\
    ~ (Blocks r = None <-> Err r <> None).
Proof.
  exists {| Cluster := "h1"; Blocks := None; Err := None |}.
  split.
  - vm_compute. reflexivity.
  - cbn. intros [H _]. apply H; reflexivity.
Qed.

(** *** The filtered file *)

Lemma writeBlocks_fold l : forall acc,
  fold_left
    (fun b pb => (((b ++ CheckName pb) ++ NL) ++ DetailRaw pb) ++ separator)
    l acc = acc ++ String.concat "" (map blockText l).
Proof.
  induction l as [|pb l IH]; intros acc.
  - simpl. rewrite sapp_nil_r. reflexivity.
  - cbn [fold_left map]. rewrite IH, concat_cons.
    unfold blockText, separator, dashes. rewrite !sapp_assoc. reflexivity.
Qed.

Lemma writeBlocks_concat blocks :
  writeBlocks blocks = String.concat "" (map blockText (elems blocks)).
Proof. unfold writeBlocks. rewrite writeBlocks_fold. reflexivity. Qed.

(** C5 (as amended).  When the raw file parses into findings, the
    filtered file [filterBlocksToFile] (and likewise [buildFilteredLog])
    writes is exactly the concatenation, in finding order, of
    check-name, line feed, detail, two line feeds, 39 dashes, line feed:
    a single line feed, no blank line, between the check-name and the
    detail. *)
Theorem filtered_file_content {lib : Lib} {St : Type} {fsys : FS St}
  inputPath outputPath (fs fs1 : St) data blocks :
  ReadFile inputPath fs = (data, None) ->
  ParseSummary data = (blocks, None) ->
  MkdirAll (filepath_Dir outputPath) fs = (fs1, None) ->
  filterBlocksToFile inputPath outputPath fs =
    WriteFile outputPath (String.concat "" (map blockText (elems blocks))) fs1 /\
  buildFilteredLog inputPath outputPath fs =
    WriteFile outputPath (String.concat "" (map blockText (elems blocks))) fs1.
Proof.
  intros Hread Hparse Hmk.
  unfold filterBlocksToFile, buildFilteredLog.
  rewrite Hread, Hparse, Hmk, writeBlocks_concat. split; reflexivity.
Qed.

Lemma filtered_file_content_witness :
  @filterBlocksToFile exampleLib MemFS _ "nccfiles/h1.log" "outputfiles/h1.log" rawFile =
    WriteFile "outputfiles/h1.log"
      (String.concat "" (map blockText (elems parsedRawFile))) rawFile /\
  @buildFilteredLog exampleLib MemFS _ "nccfiles/h1.log" "outputfiles/h1.log" rawFile =
    WriteFile "outputfiles/h1.log"
      (String.concat "" (map blockText (elems parsedRawFile))) rawFile.
Proof.
  apply (@filtered_file_content exampleLib MemFS _ "nccfiles/h1.log"
           "outputfiles/h1.log" rawFile rawFile
           (("Detailed information for check_X" ++ NL ++ "FAIL: disk full" ++ NL
             ++ "Refer to KB-1")) parsedRawFile).
  - reflexivity.
  - vm_compute. reflexivity.
  - reflexivity.
Defined.

(** C5 (as stated) fails: the file has no blank line between the
    check-name and the detail. *)
Lemma filtered_file_has_no_blank_line :
  ~ (forall inputPath outputPath (fs fs1 : MemFS) data blocks,
       ReadFile inputPath fs = (data, None) ->
       ParseSummary data = (blocks, None) ->
       MkdirAll (@filepath_Dir exampleLib outputPath) fs = (fs1, None) ->
       @filterBlocksToFile exampleLib MemFS _ inputPath outputPath fs =
       WriteFile outputPath
         (String.concat "" (map specBlockText (elems blocks))) fs1).
Proof.
  intros H.
  specialize (H "nccfiles/h1.log" "outputfiles/h1.log" rawFile rawFile
                ("Detailed information for check_X" ++ NL ++ "FAIL: disk full" ++ NL
                 ++ "Refer to KB-1") parsedRawFile
                eq_refl ltac:(vm_compute; reflexivity) eq_refl).
  vm_compute in H. discriminate H.
Qed.

End CmdProofs.

(* ================================================================= *)
(** ** Parsing the filtered text again *)

Module RoundTrip.
Import GoLib Errors Types Parser Cmd ParserProps CmdProps.
Import StringFacts ParserProofs CmdProofs.

Lemma Split_blockText b rest :
  hasByte nl (CheckName b) = false ->
  Split (blockText b ++ rest) nl = (renderLines b ++ Split rest nl)%list.
Proof.
  intros Hfree. unfold blockText, renderLines, detailLines, NL.
  rewrite !sapp_assoc. cbn [String.append].
  rewrite !Split_app_sep.
  rewrite (Split_noSep nl (CheckName b) Hfree).
  cbn [Split]. rewrite Ascii.eqb_refl.
  rewrite Split_app_sep.
  change (Split dashes nl) with [dashes].
  cbn [List.app]. rewrite <- app_assoc. reflexivity.
Qed.

Lemma Split_render F :
  Forall (fun b => hasByte nl (CheckName b) = false) F ->
  Split (String.concat "" (map blockText F)) nl =
  (flat_map renderLines F ++ [""])%list.
Proof.
  induction 1 as [|b F Hb HF IH]; [reflexivity|].
  cbn [map flat_map]. rewrite concat_cons, Split_blockText by assumption.
  rewrite IH, app_assoc. reflexivity.
Qed.

Lemma render_suffix F :
  F <> [] -> HasSuffix (String.concat "" (map blockText F)) NL = true.
Proof.
  induction F as [|b F IH]; intros Hne; [contradiction|].
  cbn [map]. rewrite concat_cons. destruct F as [|b' F].
  - cbn [map String.concat]. rewrite sapp_nil_r.
    unfold blockText. rewrite <- !sapp_assoc. apply HasSuffix_app.
  - apply HasSuffix_app_r. apply IH. discriminate.
Qed.

Lemma render_length F :
  F <> [] -> (0 <? Z.of_nat (String.length (String.concat "" (map blockText F)))) = true.
Proof.
  intros Hne. destruct F as [|b F]; [contradiction|].
  cbn [map]. rewrite concat_cons. unfold blockText, NL.
  rewrite !slength_app. cbn [String.length]. apply Z.ltb_lt. lia.
Qed.

(** The lines the scanner hands out for the filtered text. *)
Lemma splitLines_render F :
  F <> [] ->
  Forall (fun b => hasByte nl (CheckName b) = false) F ->
  Forall (fun l => fitsBuffer maxTokenSize l = true) (flat_map renderLines F) ->
  splitLines (String.concat "" (map blockText F)) =
  (map dropCR (flat_map renderLines F) ++ [""])%list.
Proof.
  intros Hne Hfree Hfit. unfold splitLines, ScanLines.
  rewrite render_length, render_suffix by assumption. cbn [andb].
  rewrite Split_render, dropFinalEmpty_snoc, takeWhile_all by assumption.
  reflexivity.
Qed.

Lemma reBlockStart_dropCR l : reBlockStart (dropCR l) = reBlockStart l.
Proof. apply dropCR_prefix. reflexivity. Qed.

Lemma reBlockEnd_dropCR l : reBlockEnd (dropCR l) = reBlockEnd l.
Proof. apply dropCR_prefix. reflexivity. Qed.

Lemma notEnd_dropCR ls : Forall notEnd ls -> Forall notEnd (map dropCR ls).
Proof.
  intros H. apply Forall_map. eapply Forall_impl; [|exact H].
  intros l Hl. unfold notEnd in *. rewrite reBlockEnd_dropCR. exact Hl.
Qed.

Lemma map_dropCR_renderLines b :
  map dropCR (renderLines b) =
  dropCR (CheckName b) :: (map dropCR (detailLines b) ++ [""; dashes])%list.
Proof. unfold renderLines. cbn [map]. rewrite map_app. reflexivity. Qed.

Lemma reparsed_closed b :
  closedShape b ->
  exists buf e,
    Forall notEnd (map dropCR buf) /\ reBlockEnd (dropCR e) = true /\
    map dropCR (detailLines b) = (map dropCR buf ++ [dropCR e])%list /\
    reparsed b = mkBlock (dropCR (CheckName b)) (map dropCR buf ++ [dropCR e])%list.
Proof.
  intros Hc.
  destruct (closedShape_refer b Hc) as (_ & Hclosed & _).
  destruct Hc as (l & buf & e & -> & Hs & Hl & Hb & He & Hn & Hend).
  assert (Hd : detailLines (mkBlock l (buf ++ [e])%list) = (buf ++ [e])%list).
  { unfold detailLines. cbn [mkBlock DetailRaw]. apply Split_Join.
    - destruct buf; discriminate.
    - apply Forall_free. apply Forall_app.
      split; [assumption | constructor; [assumption | constructor]]. }
  exists buf, e.
  split; [apply notEnd_dropCR; assumption|].
  split; [rewrite reBlockEnd_dropCR; assumption|].
  split; [rewrite Hd, map_app; reflexivity|].
  unfold reparsed. rewrite Hclosed. unfold crNormalize.
  fold (detailLines (mkBlock l (buf ++ [e])%list)). rewrite Hd.
  cbn [mkBlock Severity CheckName DetailRaw].
  rewrite sapp_nil_r, map_app. cbn [map].
  pose proof (detectSeverity_reparse (buf ++ [e])%list [] ) as Hsev.
  rewrite app_nil_r, map_app in Hsev. cbn [map] in Hsev.
  unfold mkBlock.
  rewrite Hsev; [reflexivity | destruct buf; discriminate | left; reflexivity].
Qed.

Lemma reparsed_open b :
  openShape b ->
  Forall notEnd (map dropCR (detailLines b) ++ [""; dashes; ""])%list /\
  reparsed b =
  mkBlock (dropCR (CheckName b)) (map dropCR (detailLines b) ++ [""; dashes; ""])%list.
Proof.
  intros Ho.
  destruct (openShape_refer b Ho) as (_ & Hclosed & _).
  destruct (openShape_lines b Ho) as (_ & _ & Hne & _ & Hn & Hd).
  split.
  - apply Forall_app. split; [apply notEnd_dropCR; assumption|].
    repeat constructor.
  - unfold reparsed. rewrite Hclosed. unfold crNormalize.
    fold (detailLines b). unfold mkBlock.
    rewrite detectSeverity_reparse by (assumption || (right; reflexivity)).
    rewrite <- Hd. destruct b as [sev cn dr].
    cbn [Severity CheckName DetailRaw] in *.
    assert (Hsev : sev = detectSeverity dr).
    { destruct Ho as (l & buf & E & _). inversion E. reflexivity. }
    rewrite <- Hsev. f_equal.
    rewrite Join_app; [reflexivity | | discriminate].
    destruct (detailLines (mkParsedBlock sev cn dr)); [contradiction | discriminate].
Qed.

(** Parsing the lines of the filtered text gives every finding back,
    as [reparsed] describes. *)
Lemma parseLoop_render F :
  parsedShape F -> forall blocks,
  parseLoop (map dropCR (flat_map renderLines F) ++ [""])%list blocks =
  appendAll blocks (map reparsed F).
Proof.
  induction 1 as [| b Hb | b bs Hb Hbs IH]; intros blocks.
  - cbn. reflexivity.
  - cbn [flat_map map]. rewrite app_nil_r, map_dropCR_renderLines.
    destruct (reparsed_open b Hb) as (Hn & ->).
    destruct Hb as (l & buf & -> & Hs & _).
    cbn [mkBlock CheckName]. cbn [List.app]. rewrite <- app_assoc. cbn [List.app].
    rewrite parseLoop_open;
      [reflexivity | rewrite reBlockStart_dropCR; assumption | exact Hn].
  - cbn [flat_map map]. rewrite map_app, map_dropCR_renderLines.
    destruct (reparsed_closed b Hb) as (buf & e & Hn & He & Hd & ->).
    rewrite Hd.
    assert (Hs : reBlockStart (dropCR (CheckName b)) = true).
    { rewrite reBlockStart_dropCR. destruct Hb as (l & buf' & e' & -> & Hs & _).
      exact Hs. }
    cbn [List.app]. rewrite <- !app_assoc. cbn [List.app].
    rewrite parseLoop_closed by assumption.
    rewrite !parseLoop_skip by reflexivity.
    rewrite IH. apply appendAll_append.
Qed.

Lemma parsedShape_lines F :
  parsedShape F ->
  Forall (fun b => hasByte nl (CheckName b) = false) F /\
  Forall (fun l => fitsBuffer maxTokenSize l = true) (flat_map renderLines F).
Proof.
  intros H. apply parsedShape_each in H. destruct H as [H _].
  induction H as [|b F Hb HF [IH1 IH2]]; [split; constructor|].
  assert (Hlines : lineOK (CheckName b) /\ Forall lineOK (detailLines b)).
  { destruct Hb as [Hc | Ho].
    - destruct (closedShape_lines b Hc) as (_ & Hl & buf & e & -> & Hok & _).
      split; assumption.
    - destruct (openShape_lines b Ho) as (_ & Hl & _ & Hok & _).
      split; assumption. }
  destruct Hlines as [[Hfree Hfit] Hd].
  split; [constructor; assumption|].
  cbn [flat_map]. apply Forall_app. split; [|assumption].
  unfold renderLines. constructor; [assumption|].
  apply Forall_app. split.
  - eapply Forall_impl; [|exact Hd]. intros l [_ Hl]. exact Hl.
  - repeat constructor.
Qed.

(** A finding that a [Refer to] line closes and whose lines end with no
    carriage return is read back as it is. *)
Lemma reparsed_unchanged b :
  closed b = true ->
  dropCR (CheckName b) = CheckName b ->
  Forall (fun l => dropCR l = l) (detailLines b) ->
  reparsed b = b.
Proof.
  intros Hc Hn Hd. unfold reparsed, crNormalize. rewrite Hc, Hn.
  fold (detailLines b).
  assert (E : map dropCR (detailLines b) = detailLines b).
  { induction Hd as [|x l Hx Hl IH]; [reflexivity|].
    cbn [map]. rewrite Hx, IH. reflexivity. }
  rewrite E. unfold detailLines. rewrite Join_Split, sapp_nil_r.
  destruct b; reflexivity.
Qed.

(** C6 (as amended).  When [ParseSummary] gives the findings [F] for
    some input, [ParseSummary] on the filtered text written for [F]
    succeeds and gives, in the same order, one finding for each finding
    of [F]: with the same severity; with the same check-name and the
    same detail up to one carriage return dropped at the end of each
    line; and, for a final finding that no [Refer to] line closes, with
    the separator (two line feeds, the dashes, a line feed) appended to
    the detail. *)
Theorem ParseSummary_writeBlocks_roundtrip text F :
  ParseSummary text = (Some F, None) ->
  ParseSummary (writeBlocks (Some F)) = (Some (map reparsed F), None).
Proof.
  intros H. apply ParseSummary_success in H. destruct H as [Hne Hshape].
  destruct (parsedShape_lines F Hshape) as [Hfree Hfit].
  rewrite writeBlocks_concat. cbn [elems].
  unfold ParseSummary.
  assert (Hnonempty : (String.concat "" (map blockText F) =? "")%string = false).
  { apply String.eqb_neq. intros E. pose proof (render_length F Hne) as Hl.
    rewrite E in Hl. discriminate. }
  rewrite Hnonempty. cbv zeta.
  rewrite splitLines_render, parseLoop_render by assumption.
  destruct F as [|b F]; [contradiction|].
  cbn [map appendAll elems List.app]. unfold len. cbn [elems List.length].
  destruct (Z.eqb_spec (Z.of_nat (S (List.length (map reparsed F)))) 0);
    [lia | reflexivity].
Qed.

Lemma ParseSummary_writeBlocks_roundtrip_witness :
  ParseSummary
    (writeBlocks
       (Some [mkBlock "Detailed information for check_X"
                ["FAIL: disk full"; "Refer to KB-1"]])) =
  (Some (map reparsed
           [mkBlock "Detailed information for check_X"
              ["FAIL: disk full"; "Refer to KB-1"]]), None).
Proof.
  apply (ParseSummary_writeBlocks_roundtrip closedSummary).
  vm_compute. reflexivity.
Defined.

(** C6 (as stated) fails: for a finding that no [Refer to] line closes,
    the detail read back holds the dashes of the separator, so it
    differs from the original detail even with all white space
    removed. *)
Lemma roundtrip_changes_unclosed_detail :
  ~ (forall text F F',
       ParseSummary text = (Some F, None) ->
       ParseSummary (writeBlocks (Some F)) = (Some F', None) ->
       Forall2 (fun f f' =>
                  CheckName f' = CheckName f /\
                  Severity f' = Severity f /\
                  stripSpace (DetailRaw f') = stripSpace (DetailRaw f)) F F').
Proof.
  intros H.
  specialize (H unclosedSummary
                [mkBlock "Detailed information for check_X" ["FAIL: disk full"]]
                [mkBlock "Detailed information for check_X"
                   ["FAIL: disk full"; ""; dashes; ""]]
                ltac:(vm_compute; reflexivity) ltac:(vm_compute; reflexivity)).
  inversion H as [|f f' l l' (_ & _ & Hd) _]; subst.
  vm_compute in Hd. discriminate Hd.
Qed.

End RoundTrip.

(* ================================================================= *)
(** ** Further properties of package [parser] *)

Module ParserMoreProofs.
Import GoLib Errors Types Parser ParserProps ParserMore.
Import StringFacts ParserProofs.

(** *** [SanitizeSummary] *)

Lemma sanitize_head_n s :
  startsWith "n" (ReplaceAll_escaped_nl s) = true -> startsWith "n" s = true.
Proof.
  destruct s as [|c [|d s]]; cbn; auto.
  destruct ((c =? "\")%char && (d =? "n")%char) eqn:E; cbn; intros H;
    [discriminate H | exact H].
Qed.

Lemma prefix_escapedNL c t :
  String.prefix escapedNL (String c t) = ((c =? "\")%char && startsWith "n" t)%bool.
Proof.
  unfold escapedNL.
  destruct (Ascii.eqb_spec c "\") as [-> | Hne].
  - destruct t as [|d t]; [vm_compute; reflexivity|].
    cbn [startsWith]. destruct (Ascii.eqb_spec d "n") as [-> | Hd].
    + cbn [String.prefix].
      destruct (ascii_dec "\" "\"); [|congruence].
      destruct (ascii_dec "n" "n"); [|congruence].
      destruct t; reflexivity.
    + cbn [String.prefix].
      destruct (ascii_dec "\" "\"); [|congruence].
      destruct (ascii_dec "n" d); [congruence | reflexivity].
  - cbn [String.prefix].
    destruct (ascii_dec "\" c); [congruence | reflexivity].
Qed.

Lemma sanitize_cons2 c d s :
  ReplaceAll_escaped_nl (String c (String d s)) =
  if ((c =? "\")%char && (d =? "n")%char)%bool
  then String nl (ReplaceAll_escaped_nl s)
  else String c (ReplaceAll_escaped_nl (String d s)).
Proof. reflexivity. Qed.

Lemma Contains_cons c t sub :
  Contains (String c t) sub = (String.prefix sub (String c t) || Contains t sub)%bool.
Proof. reflexivity. Qed.

Lemma sanitize_clean_upto n : forall s,
  (String.length s <= n)%nat ->
  Contains (ReplaceAll_escaped_nl s) escapedNL = false.
Proof.
  induction n as [|n IH]; intros s Hlen.
  - destruct s; [reflexivity | simpl in Hlen; lia].
  - destruct s as [|c [|d s]]; [reflexivity | |].
    + change (ReplaceAll_escaped_nl (String c "")) with (String c "").
      rewrite Contains_cons, prefix_escapedNL.
      cbn. rewrite andb_false_r. reflexivity.
    + rewrite sanitize_cons2.
      destruct ((c =? "\")%char && (d =? "n")%char)%bool eqn:E.
      * rewrite Contains_cons, prefix_escapedNL.
        rewrite (IH s) by (simpl in Hlen; lia). reflexivity.
      * rewrite Contains_cons, prefix_escapedNL.
        rewrite (IH (String d s)) by (simpl in Hlen |- *; lia).
        rewrite orb_false_r.
        destruct (c =? "\")%char eqn:Ec; [|reflexivity].
        destruct (startsWith "n" (ReplaceAll_escaped_nl (String d s))) eqn:Eh;
          [|reflexivity].
        apply sanitize_head_n in Eh. cbn [startsWith] in Eh.
        rewrite Eh in E. discriminate E.
Qed.

Lemma sanitize_fixed_upto n : forall s,
  (String.length s <= n)%nat ->
  Contains s escapedNL = false -> ReplaceAll_escaped_nl s = s.
Proof.
  induction n as [|n IH]; intros s Hlen Hc.
  - destruct s; [reflexivity | simpl in Hlen; lia].
  - destruct s as [|c [|d s]]; [reflexivity | reflexivity |].
    rewrite Contains_cons in Hc. apply orb_false_iff in Hc.
    destruct Hc as [Hp Hc].
    rewrite prefix_escapedNL in Hp. cbn [startsWith] in Hp.
    rewrite sanitize_cons2, Hp.
    rewrite (IH (String d s)); [reflexivity | simpl in Hlen |- *; lia | exact Hc].
Qed.

(** X1.  [SanitizeSummary] leaves no backslash-n escape in its result,
    and so applying it twice is the same as applying it once. *)
Theorem SanitizeSummary_idempotent s :
  Contains (SanitizeSummary s) escapedNL = false /\
  SanitizeSummary (SanitizeSummary s) = SanitizeSummary s.
Proof.
  unfold SanitizeSummary.
  assert (Hclean : Contains (ReplaceAll_escaped_nl s) escapedNL = false)
    by (apply (sanitize_clean_upto (String.length s)); lia).
  split; [exact Hclean|].
  apply (sanitize_fixed_upto (String.length (ReplaceAll_escaped_nl s)));
    [lia | exact Hclean].
Qed.

(** *** [detectSeverity] *)

Lemma severityAt_range s w : severityAt s = Some w -> In w severities.
Proof.
  unfold severityAt, severities.
  repeat match goal with
         | |- context [if ?c then _ else _] => destruct c
         end; intros H; inversion H; subst; simpl; auto.
Qed.

Lemma reSeverity_find_range s : forall prevWord w,
  reSeverity_find prevWord s = Some w -> In w severities.
Proof.
  induction s as [|c s IH]; intros prevWord w H; [discriminate|].
  cbn [reSeverity_find] in H.
  destruct (if prevWord then None else severityAt (String c s)) as [w'|] eqn:E.
  - inversion H; subst. destruct prevWord; [discriminate|].
    eapply severityAt_range; eauto.
  - eapply IH; eauto.
Qed.

Lemma detectSeverity_range s : In (detectSeverity s) severities.
Proof.
  unfold detectSeverity.
  destruct (reSeverity_find false s) as [w|] eqn:E.
  - eapply reSeverity_find_range; eauto.
  - unfold severities.
    repeat match goal with
           | |- context [if ?c then _ else _] => destruct c
           end; simpl; auto.
Qed.

Lemma parsedShape_severity F :
  parsedShape F ->
  Forall (fun f => Severity f = detectSeverity (DetailRaw f)) F.
Proof.
  intros H. apply parsedShape_each in H. destruct H as [H _].
  eapply Forall_impl; [|exact H].
  intros f [(l & buf & e & -> & _) | (l & buf & -> & _)]; reflexivity.
Qed.

Lemma ParseSummary_severities text :
  Forall (fun f => In (Severity f) severities) (elems (fst (ParseSummary text))).
Proof.
  destruct (string_dec text "") as [-> | Hne]; [constructor|].
  destruct (ParseSummary_shape text Hne) as (bs & Hshape & _ & E).
  rewrite E. destruct bs as [|b bs]; [constructor|].
  cbn [fst elems].
  eapply Forall_impl; [|apply parsedShape_severity; exact Hshape].
  intros f Hf. rewrite Hf. apply detectSeverity_range.
Qed.

(** X2.  The severity [detectSeverity] gives is always one of FAIL,
    WARN, INFO and ERR, and every finding [ParseSummary] returns carries
    the severity detected in its own detail. *)
Theorem severity_is_one_of_four text :
  (forall s, In (detectSeverity s) severities) /\
  Forall (fun f => Severity f = detectSeverity (DetailRaw f) /\
                   In (Severity f) severities)
    (elems (fst (ParseSummary text))).
Proof.
  split; [apply detectSeverity_range|].
  destruct (string_dec text "") as [-> | Hne]; [constructor|].
  destruct (ParseSummary_shape text Hne) as (bs & Hshape & _ & E).
  rewrite E. destruct bs as [|b bs]; [constructor|].
  cbn [fst elems].
  eapply Forall_impl; [|apply parsedShape_severity; exact Hshape].
  intros f Hf. split; [exact Hf|]. rewrite Hf. apply detectSeverity_range.
Qed.

(** *** [splitLines] *)

Lemma dropFinalEmpty_restore (l : list string) :
  l <> [] ->
  (dropFinalEmpty l ++ (if (last l "" =? "")%string then [""] else []))%list = l.
Proof.
  induction l as [|x [|y r] IH]; intros Hne.
  - contradiction.
  - cbn [dropFinalEmpty last]. destruct (String.eqb_spec x "") as [-> | Hx];
      reflexivity.
  - change (dropFinalEmpty (x :: y :: r)) with (x :: dropFinalEmpty (y :: r)).
    change (last (x :: y :: r) "") with (last (y :: r) "").
    cbn [List.app]. rewrite IH by discriminate. reflexivity.
Qed.

Lemma Split_single_empty s : Split s nl = [""] -> s = "".
Proof.
  destruct s as [|c s]; [reflexivity|]. cbn [Split].
  pose proof (Split_nonempty s nl) as Hne.
  destruct (c =? nl)%char.
  - intros H. inversion H. contradiction.
  - destruct (Split s nl); [contradiction | discriminate].
Qed.

Lemma HasSuffix_last s :
  s <> "" -> HasSuffix s NL = (last (Split s nl) "" =? "")%string.
Proof.
  induction s as [|c s IH]; intros Hne; [contradiction|].
  destruct (string_dec s "") as [-> | Hs].
  - cbn. unfold nl. destruct (c =? "010")%char; reflexivity.
  - cbn [HasSuffix Split]. rewrite (IH Hs).
    assert (Hno : (String c s =? NL)%string = false).
    { apply String.eqb_neq. intros H. inversion H. contradiction. }
    rewrite Hno. cbn [orb].
    pose proof (Split_nonempty s nl) as Hne'.
    destruct (c =? nl)%char.
    + destruct (Split s nl) as [|l ls]; [contradiction | reflexivity].
    + destruct (Split s nl) as [|l [|y r]] eqn:E; [contradiction | | reflexivity].
      cbn [last]. destruct (String.eqb_spec l "") as [-> | Hl]; [|reflexivity].
      apply Split_single_empty in E. contradiction.
Qed.

Lemma Split_keeps_free c sep s :
  hasByte c s = false -> Forall (fun l => hasByte c l = false) (Split s sep).
Proof.
  induction s as [|d s IH]; intros H.
  - repeat constructor.
  - apply hasByte_cons in H. destruct H as [Hd Hs]. specialize (IH Hs).
    cbn [Split]. destruct (d =? sep)%char.
    + constructor; [reflexivity | exact IH].
    + destruct (Split s sep) as [|l ls].
      * repeat constructor. cbn. apply Ascii.eqb_neq in Hd. rewrite Hd. reflexivity.
      * inversion IH; subst. constructor; [|assumption].
        cbn. apply Ascii.eqb_neq in Hd. rewrite Hd. assumption.
Qed.

Lemma dropCR_id l : hasByte cr l = false -> dropCR l = l.
Proof.
  induction l as [|c l IH]; intros H; [reflexivity|].
  apply hasByte_cons in H. destruct H as [Hc Hl].
  destruct l as [|d l].
  - cbn. apply Ascii.eqb_neq in Hc. rewrite Hc. reflexivity.
  - change (dropCR (String c (String d l))) with (String c (dropCR (String d l))).
    rewrite (IH Hl). reflexivity.
Qed.

Lemma map_dropCR_id ls :
  Forall (fun l => hasByte cr l = false) ls -> map dropCR ls = ls.
Proof.
  induction 1 as [|l ls Hl _ IH]; [reflexivity|].
  cbn [map]. rewrite (dropCR_id l Hl), IH. reflexivity.
Qed.

Lemma splitLines_all s :
  s <> "" -> Forall fits (Split s nl) ->
  splitLines s = map dropCR (Split s nl).
Proof.
  intros Hne Hfit. unfold splitLines, ScanLines.
  rewrite takeWhile_all
    by (apply dropFinalEmpty_Forall with (P := fun l => fitsBuffer maxTokenSize l = true);
        exact Hfit).
  assert (Hlen : (0 <? Z.of_nat (String.length s)) = true).
  { destruct s; [contradiction | reflexivity]. }
  rewrite Hlen, (HasSuffix_last s Hne). cbn [andb].
  pose proof (dropFinalEmpty_restore (Split s nl) (Split_nonempty s nl)) as R.
  remember (dropFinalEmpty (Split s nl)) as D eqn:HD. clear HD.
  revert R. destruct (last (Split s nl) "" =? "")%string; intros R; rewrite <- R.
  - rewrite map_app. reflexivity.
  - rewrite app_nil_r. reflexivity.
Qed.

(** X3.  For a text that is not empty and whose lines all fit the
    scanner's buffer, [splitLines] returns every line-feed separated
    segment of the text, each with one trailing carriage return
    dropped; when the text holds no carriage return, joining the lines
    again with line feeds gives the text back. *)
Theorem splitLines_segments s :
  s <> "" -> Forall fits (Split s nl) ->
  splitLines s = map dropCR (Split s nl) /\
  (hasByte cr s = false -> Join (splitLines s) NL = s).
Proof.
  intros Hne Hfit. pose proof (splitLines_all s Hne Hfit) as E.
  split; [exact E|]. intros Hcr. rewrite E.
  rewrite (map_dropCR_id _ (Split_keeps_free cr nl s Hcr)). apply Join_Split.
Qed.

Lemma fits_check ls :
  forallb (fitsBuffer maxTokenSize) ls = true -> Forall fits ls.
Proof.
  intros H. apply Forall_forall. intros l Hl.
  exact (proj1 (forallb_forall _ _) H l Hl).
Qed.

Lemma splitLines_segments_witness :
  splitLines twoLineText = ["first line"; "second line"; ""] /\
  Join (splitLines twoLineText) NL = twoLineText.
Proof.
  destruct (splitLines_segments twoLineText) as [E J].
  - discriminate.
  - apply fits_check. vm_compute. reflexivity.
  - split; [rewrite E; vm_compute; reflexivity | apply J; vm_compute; reflexivity].
Defined.

(** *** Text in front of the first finding *)

Lemma HasSuffix_app_nonempty a t :
  t <> "" -> HasSuffix (a ++ t) NL = HasSuffix t NL.
Proof.
  intros Ht. induction a as [|c a IH]; [reflexivity|].
  cbn [String.append HasSuffix]. rewrite IH.
  assert (Hno : (String c (a ++ t) =? NL)%string = false).
  { apply String.eqb_neq. intros H. injection H as _ H1.
    destruct a; [contradiction | discriminate]. }
  rewrite Hno. reflexivity.
Qed.

Lemma splitLines_leading l text :
  lineOK l -> text <> "" ->
  splitLines (l ++ NL ++ text) = dropCR l :: splitLines text.
Proof.
  intros [Hfree Hfit] Hne.
  assert (H1 : (0 <? Z.of_nat (String.length (l ++ NL ++ text))) = true).
  { rewrite slength_app. destruct text; [contradiction|]. cbn [String.length NL String.append].
    apply Z.ltb_lt. lia. }
  assert (H2 : (0 <? Z.of_nat (String.length text)) = true).
  { destruct text; [contradiction | reflexivity]. }
  assert (H3 : HasSuffix (l ++ NL ++ text) NL = HasSuffix text NL).
  { rewrite <- sapp_assoc. apply HasSuffix_app_nonempty. exact Hne. }
  assert (H4 : ScanLines maxTokenSize (l ++ NL ++ text) =
               dropCR l :: ScanLines maxTokenSize text).
  { unfold ScanLines. change (l ++ NL ++ text) with (l ++ String nl text).
    rewrite Split_app_sep, (Split_noSep nl l Hfree).
    change ([l] ++ Split text nl)%list with (l :: Split text nl).
    pose proof (Split_nonempty text nl) as Hs.
    assert (Hd : dropFinalEmpty (l :: Split text nl) =
                 l :: dropFinalEmpty (Split text nl)).
    { destruct (Split text nl); [contradiction | reflexivity]. }
    rewrite Hd. cbn [takeWhile]. rewrite Hfit. reflexivity. }
  unfold splitLines. rewrite H1, H2, H3, H4. cbn [andb].
  destruct (HasSuffix text NL); reflexivity.
Qed.

Lemma ParseSummary_leading_line l text :
  reBlockStart l = false -> lineOK l -> text <> "" ->
  ParseSummary (l ++ NL ++ text) = ParseSummary text.
Proof.
  intros Hst Hok Hne. unfold ParseSummary.
  assert (H1 : (l ++ NL ++ text =? "")%string = false).
  { apply String.eqb_neq. destruct l; discriminate. }
  apply String.eqb_neq in Hne. rewrite H1, Hne. cbv zeta.
  rewrite splitLines_leading by (try assumption; apply String.eqb_neq; exact Hne).
  rewrite parseLoop_skip; [reflexivity|].
  rewrite <- Hst. apply dropCR_prefix. reflexivity.
Qed.

(** X5.  Lines in front of a text that do not start a finding are
    discarded by [ParseSummary]: the findings, or the error, are those
    of the text behind them. *)
Theorem ParseSummary_skips_leading_lines ls text :
  ls <> [] ->
  Forall (fun l => reBlockStart l = false /\ lineOK l) ls ->
  text <> "" ->
  ParseSummary (Join ls NL ++ NL ++ text) = ParseSummary text.
Proof.
  intros Hne Hall. revert Hne.
  induction Hall as [|x r [Hst Hok] Hr IH]; intros Hne Ht; [contradiction|].
  destruct r as [|y r].
  - cbn [Join String.concat]. apply ParseSummary_leading_line; assumption.
  - rewrite Join_cons, !sapp_assoc.
    rewrite ParseSummary_leading_line; [apply IH; [discriminate | exact Ht] | exact Hst | exact Hok |].
    destruct (Join (y :: r) NL); discriminate.
Qed.

Lemma ParseSummary_skips_leading_lines_witness :
  ParseSummary (Join ["NCC run 42"; ""] NL ++ NL ++ closedSummary) =
  ParseSummary closedSummary.
Proof.
  apply ParseSummary_skips_leading_lines.
  - discriminate.
  - constructor; [|constructor; [|constructor]];
      (split; [|split]; vm_compute; reflexivity).
  - discriminate.
Defined.

(** *** Lines that do not fit the scanner's buffer *)

Lemma repeatByte_length c n : String.length (repeatByte c n) = n.
Proof.
  induction n as [|n IH]; [reflexivity|].
  cbn [repeatByte String.length]. rewrite IH. reflexivity.
Qed.

Lemma repeatByte_free c d n :
  (c =? d)%char = false -> hasByte d (repeatByte c n) = false.
Proof.
  intros H. induction n as [|n IH]; [reflexivity|].
  cbn [repeatByte hasByte]. rewrite H, IH. reflexivity.
Qed.

Lemma repeatByte_no_start n : reBlockStart (repeatByte "a" n) = false.
Proof. destruct n; reflexivity. Qed.

Lemma repeatByte_fits c m (k : N) :
  fitsBuffer m (repeatByte c (N.to_nat k)) = (k <? m)%N.
Proof.
  unfold fitsBuffer. rewrite repeatByte_length, Nnat.N2Nat.id. reflexivity.
Qed.

(** The scanner delivers nothing of a text whose first line does not
    fit its buffer. *)
Lemma ScanLines_oversized l text :
  hasByte nl l = false -> fitsBuffer maxTokenSize l = false ->
  ScanLines maxTokenSize (l ++ NL ++ text) = [].
Proof.
  intros Hfree Hfit. unfold ScanLines.
  change (l ++ NL ++ text) with (l ++ String nl text).
  rewrite Split_app_sep, (Split_noSep nl l Hfree).
  change ([l] ++ Split text nl)%list with (l :: Split text nl).
  pose proof (Split_nonempty text nl) as Hs.
  destruct (Split text nl) as [|x r]; [contradiction|].
  change (dropFinalEmpty (l :: x :: r)) with (l :: dropFinalEmpty (x :: r)).
  cbn [takeWhile map]. rewrite Hfit. reflexivity.
Qed.

(** Behind a first line that does not fit the scanner's buffer
    [ParseSummary] finds nothing, whatever follows. *)
Lemma ParseSummary_oversized_line l text :
  hasByte nl l = false -> fitsBuffer maxTokenSize l = false ->
  ParseSummary (l ++ NL ++ text) =
  (None, Some (ParseError "no valid blocks found in summary")).
Proof.
  intros Hfree Hfit. unfold ParseSummary.
  assert (H1 : (l ++ NL ++ text =? "")%string = false).
  { apply String.eqb_neq. destruct l; discriminate. }
  rewrite H1. cbv zeta. unfold splitLines.
  rewrite (ScanLines_oversized l text Hfree Hfit).
  destruct ((0 <? Z.of_nat (String.length (l ++ NL ++ text)))
            && HasSuffix (l ++ NL ++ text) NL); reflexivity.
Qed.

(** The lines of a text are lines of the text with a line in front. *)
Lemma Split_behind_line (P : string -> Prop) l text :
  hasByte nl l = false ->
  Exists P (Split text nl) -> Exists P (Split (l ++ NL ++ text) nl).
Proof.
  intros Hfree H.
  change (l ++ NL ++ text) with (l ++ String nl text).
  rewrite Split_app_sep, (Split_noSep nl l Hfree).
  apply Exists_cons_tl. exact H.
Qed.

(** Where every line of the input fits the scanner's buffer,
    [ParseSummary] returns an error exactly when the input is empty or
    none of its lines starts a finding. *)
Lemma ParseSummary_error_iff_fitting text :
  Forall fits (Split text nl) ->
  (snd (ParseSummary text) <> None <->
   text = "" \/ Forall (fun l => reBlockStart l = false) (Split text nl)).
Proof.
  intros Hfit. destruct (string_dec text "") as [-> | Hne].
  - split; [intros _; left; reflexivity | intros _; discriminate].
  - destruct (ParseSummary_shape text Hne) as (bs & _ & Hiff & E).
    rewrite E, (splitLines_all text Hne Hfit) in *.
    assert (Hcr : Forall (fun l => reBlockStart l = false) (map dropCR (Split text nl)) <->
                  Forall (fun l => reBlockStart l = false) (Split text nl)).
    { rewrite Forall_map. split; apply Forall_impl; intros l Hl;
        unfold reBlockStart, HasPrefix in *;
        [rewrite dropCR_prefix in Hl by reflexivity
        |rewrite dropCR_prefix by reflexivity]; exact Hl. }
    destruct bs as [|b bs]; cbn [snd].
    + split; [|intros _; discriminate].
      intros _. right. apply Hcr, Hiff. reflexivity.
    + split; [intros H; contradiction H; reflexivity|].
      intros [H | H]; [contradiction|].
      apply Hcr, Hiff in H. discriminate H.
Qed.

(** C7.  The code at the input on which it departs from the claim: a
    summary whose first line is as long as the scanner's buffer (4 MiB)
    and which holds a complete finding behind that line.  The input is
    not empty and one of its lines starts a finding, yet
    [ParseSummary] returns nil findings and the error for a summary
    without findings: the scanner stops at the long line and
    [splitLines] does not look at the scanner's error.  The finding
    alone is parsed, and so is the same summary with a first line one
    byte shorter. *)
Theorem ParseSummary_long_line_hides_findings :
  ParseSummary longLineSummary =
    (None, Some (ParseError "no valid blocks found in summary")) /\
  longLineSummary = longLine ++ NL ++ closedSummary /\
  N.of_nat (String.length longLine) = maxTokenSize /\
  Exists (fun l => reBlockStart l = true) (Split longLineSummary nl) /\
  ParseSummary closedSummary =
    (Some [mkBlock "Detailed information for check_X"
             ["FAIL: disk full"; "Refer to KB-1"]], None) /\
  ParseSummary (shortLine ++ NL ++ closedSummary) = ParseSummary closedSummary.
Proof.
  assert (Hfree : forall n, hasByte nl (repeatByte "a" n) = false)
    by (intros n; apply repeatByte_free; reflexivity).
  split; [|split; [|split; [|split; [|split]]]].
  - unfold longLineSummary, longLine. apply ParseSummary_oversized_line.
    + apply Hfree.
    + rewrite repeatByte_fits. apply N.ltb_irrefl.
  - reflexivity.
  - unfold longLine. rewrite repeatByte_length. apply Nnat.N2Nat.id.
  - apply (Split_behind_line _ longLine closedSummary (Hfree _)).
    assert (E : Split closedSummary nl =
                ["Detailed information for check_X"; "FAIL: disk full";
                 "Refer to KB-1"; "trailer"]) by (vm_compute; reflexivity).
    rewrite E. apply Exists_cons_hd. reflexivity.
  - vm_compute. reflexivity.
  - unfold shortLine. apply ParseSummary_leading_line.
    + apply repeatByte_no_start.
    + split; [apply Hfree|]. rewrite repeatByte_fits. reflexivity.
    + discriminate.
Qed.

(** *** Line endings *)

Lemma addCR_cons x y r :
  addCR (x :: y :: r) = (x ++ String cr "") :: addCR (y :: r).
Proof. reflexivity. Qed.

Lemma Split_toCRLF s : Split (toCRLF s) nl = addCR (Split s nl).
Proof.
  induction s as [|c s IH]; [reflexivity|].
  unfold toCRLF in *. cbn [ReplaceAll_byte Split].
  pose proof (Split_nonempty s nl) as Hne.
  destruct (Ascii.eqb_spec c nl) as [-> | Hc].
  - cbn [String.append NL Split]. rewrite Ascii.eqb_refl.
    change (cr =? nl)%char with false. cbv iota. rewrite IH.
    destruct (Split s nl) as [|l ls]; [contradiction | reflexivity].
  - cbn [Split]. apply Ascii.eqb_neq in Hc. rewrite Hc, IH.
    destruct (Split s nl) as [|l [|y r]]; [contradiction | reflexivity |].
    rewrite addCR_cons. reflexivity.
Qed.

Lemma dropCR_snoc l : dropCR (l ++ String cr "") = l.
Proof.
  induction l as [|c l IH]; [reflexivity|].
  cbn [String.append]. destruct l as [|d l].
  - reflexivity.
  - change (dropCR (String c (String d l ++ String cr "")))
      with (String c (dropCR (String d l ++ String cr ""))).
    rewrite IH. reflexivity.
Qed.

Lemma last_addCR l : last (addCR l) "" = last l "".
Proof.
  induction l as [|x [|y r] IH]; [reflexivity | reflexivity |].
  rewrite addCR_cons.
  change (last (x :: y :: r) "") with (last (y :: r) "").
  rewrite <- IH. destruct (addCR (y :: r)) eqn:E; [destruct r; discriminate E | reflexivity].
Qed.

Lemma scan_addCR l :
  Forall (fun x => hasByte cr x = false /\ fits (x ++ String cr "")) l ->
  map dropCR (takeWhile (fitsBuffer maxTokenSize) (dropFinalEmpty (addCR l))) =
  map dropCR (takeWhile (fitsBuffer maxTokenSize) (dropFinalEmpty l)).
Proof.
  induction 1 as [|x l [Hcr Hfit] Hl IH]; [reflexivity|].
  assert (Hx : fitsBuffer maxTokenSize x = true).
  { eapply fitsBuffer_shorter; [|exact Hfit]. rewrite slength_app. lia. }
  destruct l as [|y r].
  - reflexivity.
  - rewrite addCR_cons.
    assert (Hd : forall a b c, dropFinalEmpty (a :: b :: c) =
                               a :: dropFinalEmpty (b :: c)) by reflexivity.
    destruct (addCR (y :: r)) as [|y' r'] eqn:E; [destruct r; discriminate E|].
    rewrite !Hd. cbn [takeWhile]. unfold fits in Hfit. rewrite Hfit, Hx.
    cbn [map]. rewrite IH, dropCR_snoc, (dropCR_id x Hcr). reflexivity.
Qed.

Lemma toCRLF_empty s : (toCRLF s =? "")%string = (s =? "")%string.
Proof.
  destruct s as [|c s]; [reflexivity|]. unfold toCRLF. cbn [ReplaceAll_byte].
  destruct (c =? nl)%char; reflexivity.
Qed.

Lemma splitLines_toCRLF s :
  Forall (fun x => hasByte cr x = false /\ fits (x ++ String cr "")) (Split s nl) ->
  splitLines (toCRLF s) = splitLines s.
Proof.
  intros Hall. unfold splitLines, ScanLines.
  rewrite Split_toCRLF, (scan_addCR _ Hall).
  destruct (string_dec s "") as [-> | Hne]; [reflexivity|].
  assert (Hne' : toCRLF s <> "").
  { intros E. apply Hne. apply String.eqb_eq. rewrite <- toCRLF_empty.
    apply String.eqb_eq. exact E. }
  rewrite (HasSuffix_last s Hne), (HasSuffix_last _ Hne'), Split_toCRLF, last_addCR.
  assert (H1 : (0 <? Z.of_nat (String.length s)) = true)
    by (destruct s; [contradiction | reflexivity]).
  assert (H2 : (0 <? Z.of_nat (String.length (toCRLF s))) = true)
    by (destruct (toCRLF s); [contradiction | reflexivity]).
  rewrite H1, H2. reflexivity.
Qed.

(** X26.  Line endings of carriage return and line feed are read like
    plain line feeds: for a text without carriage returns whose lines
    fit the scanner's buffer with one byte to spare, [ParseSummary]
    gives the same findings, or the same error, when every line feed
    of the text is turned into carriage return, line feed. *)
Theorem ParseSummary_crlf s :
  hasByte cr s = false ->
  Forall (fun x => fits (x ++ String cr "")) (Split s nl) ->
  ParseSummary (toCRLF s) = ParseSummary s.
Proof.
  intros Hcr Hfit. unfold ParseSummary.
  rewrite toCRLF_empty, splitLines_toCRLF; [reflexivity|].
  pose proof (Split_keeps_free cr nl s Hcr) as Hfree.
  induction Hfit as [|x l Hx Hl IH]; [constructor|].
  inversion Hfree; subst. constructor; [split; assumption | apply IH; assumption].
Qed.

Lemma ParseSummary_crlf_witness :
  ParseSummary (toCRLF closedSummary) = ParseSummary closedSummary.
Proof.
  apply ParseSummary_crlf.
  - vm_compute. reflexivity.
  - apply Forall_forall. intros x Hx.
    apply (proj1 (forallb_forall
                    (fun x => fitsBuffer maxTokenSize (x ++ String cr ""))
                    (Split closedSummary nl))); [vm_compute; reflexivity | exact Hx].
Defined.

(** *** [RowsFromBlocks] *)

Lemma html_cons c s :
  html_EscapeString (String c s) = escapeByte c ++ html_EscapeString s.
Proof. reflexivity. Qed.

Ltac escape_cases d :=
  unfold escapeByte;
  destruct (Ascii.eqb_spec d "&") as [-> | ?]; [reflexivity|];
  destruct (Ascii.eqb_spec d "'") as [-> | ?]; [reflexivity|];
  destruct (Ascii.eqb_spec d "<") as [-> | ?]; [reflexivity|];
  destruct (Ascii.eqb_spec d ">") as [-> | ?]; [reflexivity|];
  destruct (Ascii.eqb_spec d "034") as [-> | ?]; [reflexivity|].

Lemma escapeByte_markup c d : In c markupBytes -> hasByte c (escapeByte d) = false.
Proof.
  intros Hc.
  destruct Hc as [<- | [<- | [<- | [<- | []]]]]; escape_cases d;
    cbn [hasByte]; rewrite orb_false_r; apply Ascii.eqb_neq; assumption.
Qed.

Lemma escapeByte_nl d : hasByte nl (escapeByte d) = (d =? nl)%char.
Proof.
  escape_cases d. cbn [hasByte]. apply orb_false_r.
Qed.

Lemma hasByte_html c s :
  In c markupBytes -> hasByte c (html_EscapeString s) = false.
Proof.
  intros Hc. induction s as [|d s IH]; [reflexivity|].
  rewrite html_cons, hasByte_app, IH, escapeByte_markup by exact Hc.
  reflexivity.
Qed.

Lemma hasByte_html_nl s : hasByte nl (html_EscapeString s) = hasByte nl s.
Proof.
  induction s as [|d s IH]; [reflexivity|].
  rewrite html_cons, hasByte_app, IH, escapeByte_nl. reflexivity.
Qed.

Lemma ReplaceAll_byte_app old new a b :
  ReplaceAll_byte (a ++ b) old new =
  ReplaceAll_byte a old new ++ ReplaceAll_byte b old new.
Proof.
  induction a as [|c a IH]; [reflexivity|].
  cbn [String.append ReplaceAll_byte]. rewrite IH.
  destruct (c =? old)%char; [rewrite sapp_assoc|]; reflexivity.
Qed.

Lemma ReplaceAll_byte_free old new a :
  hasByte old a = false -> ReplaceAll_byte a old new = a.
Proof.
  induction a as [|c a IH]; intros H; [reflexivity|].
  apply hasByte_cons in H. destruct H as [Hc Ha].
  cbn [ReplaceAll_byte]. apply Ascii.eqb_neq in Hc. rewrite Hc, (IH Ha).
  reflexivity.
Qed.

Lemma hasByte_ReplaceAll c old new s :
  hasByte c new = false ->
  (c = old \/ hasByte c s = false) ->
  hasByte c (ReplaceAll_byte s old new) = false.
Proof.
  intros Hnew. induction s as [|d s IH]; intros H; [reflexivity|].
  cbn [ReplaceAll_byte]. destruct (Ascii.eqb_spec d old) as [-> | Hd].
  - rewrite hasByte_app, Hnew. apply IH.
    destruct H as [H | H]; [left; exact H | right].
    apply hasByte_cons in H. apply H.
  - cbn [hasByte]. destruct H as [-> | H].
    + apply Ascii.eqb_neq in Hd. rewrite Hd. apply IH. left. reflexivity.
    + apply hasByte_cons in H. destruct H as [H1 H2].
      apply Ascii.eqb_neq in H1. rewrite H1. apply IH. right. exact H2.
Qed.

Lemma Join_cons_app a b r sep :
  Join ((a ++ b) :: r) sep = a ++ Join (b :: r) sep.
Proof.
  destruct r as [|y r]; [reflexivity|].
  rewrite !Join_cons. apply sapp_assoc.
Qed.

(** The detail of a row, line by line. *)
Lemma detail_by_lines d :
  ReplaceAll_byte (html_EscapeString d) nl "<br>" =
  Join (map html_EscapeString (Split d nl)) "<br>".
Proof.
  induction d as [|c d IH]; [reflexivity|].
  rewrite html_cons, ReplaceAll_byte_app, IH. cbn [Split].
  pose proof (Split_nonempty d nl) as Hne.
  destruct (Ascii.eqb_spec c nl) as [-> | Hc].
  - destruct (Split d nl) as [|l ls]; [contradiction | reflexivity].
  - rewrite ReplaceAll_byte_free
      by (rewrite escapeByte_nl; apply Ascii.eqb_neq; exact Hc).
    destruct (Split d nl) as [|l ls]; [contradiction|].
    cbn [map]. rewrite html_cons, Join_cons_app. reflexivity.
Qed.

(** X4.  [RowsFromBlocks] gives one row per finding, in order and with
    the finding's severity.  The check-name of a row holds no line feed
    and none of the bytes <, >, double quote and apostrophe; the detail
    of a row is the finding's detail lines, each escaped by
    [html.EscapeString] (so free of those bytes), joined by the tag br,
    and holds no line feed. *)
Theorem RowsFromBlocks_escaped blocks :
  Forall2 (fun b r =>
             RowSeverity r = Severity b /\
             hasByte nl (RowCheckName r) = false /\
             (forall c, In c markupBytes -> hasByte c (RowCheckName r) = false) /\
             RowDetail r = Join (map html_EscapeString (detailLines b)) "<br>" /\
             Forall (fun l => forall c, In c markupBytes -> hasByte c l = false)
                    (map html_EscapeString (detailLines b)) /\
             hasByte nl (RowDetail r) = false)
          (elems blocks) (RowsFromBlocks blocks).
Proof.
  unfold RowsFromBlocks. induction (elems blocks) as [|b bs IH]; [constructor|].
  cbn [map]. constructor; [|exact IH]. cbn [RowSeverity RowCheckName RowDetail].
  split; [reflexivity|]. split; [|split; [|split; [|split]]].
  - rewrite hasByte_html_nl. apply hasByte_ReplaceAll; [reflexivity | left; reflexivity].
  - intros c Hc. apply hasByte_html. exact Hc.
  - apply detail_by_lines.
  - apply Forall_map. apply Forall_forall. intros l _ c Hc.
    apply hasByte_html. exact Hc.
  - apply hasByte_ReplaceAll; [reflexivity | left; reflexivity].
Qed.

End ParserMoreProofs.

(* ================================================================= *)
(** ** Further properties of package [client] *)

Module ClientMoreProofs.
Import GoLib Errors Types Config Client ClientProps ErrorsMore ClientMore.
Import ClientProofs.

Section Loop.
Variable env : Env.
Variables (cfg : Config) (req : Request) (op : string) (ob : option string).
Variable attempts : Z.

#[local] Abbreviation loop := (retryLoop env cfg req op ob attempts).
#[local] Abbreviation once := (attemptOnce env cfg req op ob attempts).

Lemma CaseCancelled_at k back e resp body :
  retryableFailure env ob k -> k < attempts ->
  ctxDone env k back = Some e ->
  keptResponse env ob k = (resp, body) ->
  attemptCase env cfg req op ob attempts k
    [EvDo k ob; EvCancelled k back]
    (Return (resp, body, Some (cancelledDuringRetry e))).
Proof.
  intros Hf Hlt Hc Hk.
  pose proof (CaseCancelled env cfg req op ob attempts k back e Hf Hlt Hc) as H.
  rewrite Hk in H. exact H.
Qed.

Ltac waiting Hdo :=
  match goal with
  | |- context [ctxDone env ?k ?d] =>
      let Hc := fresh "Hc" in
      destruct (ctxDone env k d) eqn:Hc; cbn [fst snd];
      [ eapply CaseCancelled_at; [ | assumption | exact Hc | ]
      | apply CaseWait; [ | assumption | exact Hc ] ];
      unfold retryableFailure, keptResponse; rewrite Hdo; auto
  end.

Lemma attemptOnce_case attempt vars :
  attemptCase env cfg req op ob attempts attempt
    (fst (once attempt vars)) (snd (once attempt vars)).
Proof.
  destruct (jitteredBackoff_total env (randInt63 env attempt)
              (RetryBaseDelay cfg) (RetryMaxDelay cfg) attempt) as (d & Hd & _).
  unfold attemptOnce, waitBackoff. rewrite Hd.
  destruct (clientDo env attempt ob) as [r e | resp [body | e]] eqn:Hdo.
  - destruct (ctxErr env attempt) eqn:Hctx; [eapply CaseContext; eauto|].
    destruct (Z.ltb_spec attempt attempts) as [Hlt | Hge].
    + waiting Hdo.
    + eapply CaseTransport; eauto. apply Z.ltb_ge. exact Hge.
  - fold (is2xx resp). destruct (is2xx resp) eqn:H2; [eapply CaseOK; eauto|].
    assert (Hterm : IsRetryableStatus (StatusCode resp) && (attempt <? attempts) = false ->
                    attemptCase env cfg req op ob attempts attempt
                      [EvDo attempt ob]
                      (Return (Some resp, Some body,
                         Some (NewHTTPError (StatusCode resp) (URL req)
                                 (op ++ " HTTP " ++ Itoa (StatusCode resp))))))
      by (intros Hr; eapply CaseStatus; eauto).
    destruct (Z.eqb_spec (StatusCode resp) 429) as [H429|].
    + destruct (retryAfterDelay env (Some resp)) as [ra [|]] eqn:Hra.
      * destruct (Z.eqb_spec ra 0) as [->|Hnz].
        -- destruct (IsRetryableStatus (StatusCode resp)) eqn:Hr; cbn [andb];
             [|apply Hterm; reflexivity].
           destruct (Z.ltb_spec attempt attempts) as [Hlt | Hge];
             [|apply Hterm; reflexivity].
           waiting Hdo.
        -- destruct (IsRetryableStatus (StatusCode resp)) eqn:Hr; cbn [andb];
             [|apply Hterm; reflexivity].
           destruct (Z.ltb_spec attempt attempts) as [Hlt | Hge];
             [|apply Hterm; reflexivity].
           waiting Hdo.
      * cbn [Z.eqb].
        destruct (IsRetryableStatus (StatusCode resp)) eqn:Hr; cbn [andb];
          [|apply Hterm; reflexivity].
        destruct (Z.ltb_spec attempt attempts) as [Hlt | Hge];
          [|apply Hterm; reflexivity].
        waiting Hdo.
    + cbn [Z.eqb].
      destruct (IsRetryableStatus (StatusCode resp)) eqn:Hr; cbn [andb];
        [|apply Hterm; reflexivity].
      destruct (Z.ltb_spec attempt attempts) as [Hlt | Hge];
        [|apply Hterm; reflexivity].
      waiting Hdo.
  - destruct (Z.ltb_spec attempt attempts) as [Hlt | Hge].
    + waiting Hdo.
    + eapply CaseRead; eauto. apply Z.ltb_ge. exact Hge.
Qed.

Lemma retryLoop_run remaining : forall attempt vars,
  Z.of_nat remaining = attempts - attempt + 1 -> (1 <= remaining)%nat ->
  exists n, (n < remaining)%nat /\
    runOf env cfg req op ob attempts attempt n
      (fst (loop remaining attempt vars)) (snd (loop remaining attempt vars)).
Proof.
  induction remaining as [|m IH]; intros attempt vars Hrem Hpos; [lia|].
  rewrite retryLoop_step.
  pose proof (attemptOnce_case attempt vars) as Hc.
  destruct (snd (once attempt vars)) as [vars' | r | msg] eqn:Hstep.
  - inversion Hc as [| | | | | | back v' Hf Hlt Hd E1 E2]; subst v'.
    destruct (IH (attempt + 1) vars' ltac:(lia) ltac:(lia))
      as (n & Hn & waits & last & r & Htr & Hres & Hw & Hlast).
    exists (S n). split; [lia|].
    exists (EvDo attempt ob :: EvWait attempt back :: waits), last, r.
    cbn [fst snd]. rewrite Htr. split; [reflexivity|].
    split; [exact Hres|]. split.
    + constructor; assumption.
    + replace (attempt + Z.of_nat (S n)) with (attempt + 1 + Z.of_nat n) by lia.
      exact Hlast.
  - exists 0%nat. split; [lia|].
    exists [], (fst (once attempt vars)), r. cbn [fst snd List.app].
    split; [reflexivity|]. split; [reflexivity|]. split; [constructor|].
    rewrite Z.add_0_r. exact Hc.
  - inversion Hc.
Qed.

Lemma waitsFrom_attempts a n waits :
  waitsFrom env ob attempts a n waits ->
  attemptsIssued waits = countFrom a n /\
  List.length (delaysWaited waits) = n /\
  Forall (sendsBody ob) waits /\
  Forall (fun e => isCancelled e = false) waits /\
  (forall j, a <= j < a + Z.of_nat n -> retryableFailure env ob j) /\
  a + Z.of_nat n <= Z.max a attempts.
Proof.
  induction 1 as [a | a n d rest Hf Hlt Hd Hw (IH1 & IH2 & IH3 & IH4 & IH5 & IH6)].
  - split; [reflexivity|]. split; [reflexivity|].
    split; [constructor|]. split; [constructor|]. split; [intros j Hj|]; lia.
  - change (attemptsIssued (EvDo a ob :: EvWait a d :: rest))
      with (a :: attemptsIssued rest).
    change (delaysWaited (EvDo a ob :: EvWait a d :: rest))
      with ((a, d) :: delaysWaited rest).
    split; [rewrite IH1; reflexivity|].
    split; [cbn [List.length]; rewrite IH2; reflexivity|].
    split; [repeat constructor; assumption|].
    split; [repeat constructor; assumption|].
    split; [|lia].
    intros j Hj. destruct (Z.eq_dec j a) as [-> | Hne]; [exact Hf|].
    apply IH5. lia.
Qed.

Lemma attemptCase_events k evs step :
  attemptCase env cfg req op ob attempts k evs step ->
  attemptsIssued evs = [k] /\ delaysWaited evs = [] /\ Forall (sendsBody ob) evs \/
  exists vars' d, step = Continue vars' /\ evs = [EvDo k ob; EvWait k d].
Proof.
  destruct 1; try (left; split; [reflexivity | split; [reflexivity|]];
                   repeat constructor).
  right. do 2 eexists. split; reflexivity.
Qed.

End Loop.

Lemma countFrom_snoc a n :
  (countFrom a n ++ [a + Z.of_nat n])%list = countFrom a (S n).
Proof.
  revert a. induction n as [|n IH]; intros a; [cbn; rewrite Z.add_0_r; reflexivity|].
  cbn [countFrom List.app]. f_equal.
  replace (a + Z.of_nat (S n)) with (a + 1 + Z.of_nat n) by lia. apply IH.
Qed.

Lemma DoWithRetry_unread env req cfg op e :
  Body req = Some (inr e) ->
  DoWithRetry env req cfg op =
  ([], Returns (None, None,
                Some (Wrap e ErrorTypeNetwork "failed to read request body"))).
Proof. intros H. unfold DoWithRetry. rewrite H. reflexivity. Qed.

(** A call whose request body can be read is a run of the loop. *)
Lemma DoWithRetry_run env req cfg op :
  (forall e, Body req <> Some (inr e)) ->
  exists n, Z.of_nat n < effectiveAttempts cfg /\
    runOf env cfg req op (origBody req) (effectiveAttempts cfg) 1 n
      (fst (DoWithRetry env req cfg op)) (snd (DoWithRetry env req cfg op)).
Proof.
  intros Hbody. rewrite DoWithRetry_loop.
  assert (Hpos : 1 <= effectiveAttempts cfg)
    by (rewrite effectiveAttempts_max; lia).
  destruct (retryLoop_run env cfg req op (origBody req) (effectiveAttempts cfg)
              (Z.to_nat (effectiveAttempts cfg)) 1 (mkLoopVars None None None)
              ltac:(lia) ltac:(lia)) as (n & Hn & Hrun).
  exists n. split; [lia|].
  destruct (Body req) as [[b | e] |]; [exact Hrun | | exact Hrun].
  exfalso. apply (Hbody e). reflexivity.
Qed.

Lemma DoWithRetry_trace_shape env req cfg op :
  (forall e, Body req <> Some (inr e)) ->
  Forall (sendsBody (origBody req)) (fst (DoWithRetry env req cfg op)) /\
  exists m, (1 <= m)%nat /\ Z.of_nat m <= effectiveAttempts cfg /\
    attemptsIssued (fst (DoWithRetry env req cfg op)) = countFrom 1 m /\
    List.length (delaysWaited (fst (DoWithRetry env req cfg op))) = (m - 1)%nat.
Proof.
  intros Hbody.
  destruct (DoWithRetry_run env req cfg op Hbody)
    as (n & Hn & waits & last & r & Htr & _ & Hw & Hlast).
  apply waitsFrom_attempts in Hw.
  destruct Hw as (W1 & W2 & W3 & W4 & _).
  apply attemptCase_events in Hlast.
  destruct Hlast as [(L1 & L2 & L3) | (v & d & Hv & _)]; [|discriminate Hv].
  rewrite Htr. split; [apply Forall_app; split; assumption|].
  exists (S n). split; [lia|]. split; [lia|].
  rewrite attemptsIssued_app, delaysWaited_app, W1, L1, L2, app_nil_r, W2.
  split; [apply countFrom_snoc | lia].
Qed.

Lemma DoWithRetry_ok_response env req cfg op resp body :
  snd (DoWithRetry env req cfg op) = Returns (resp, body, None) ->
  exists m r b,
    resp = Some r /\ body = Some b /\ is2xx r = true /\
    1 <= m <= effectiveAttempts cfg /\
    clientDo env m (origBody req) = DoResponse r (inl b).
Proof.
  intros Hres.
  assert (Hbody : forall e, Body req <> Some (inr e)).
  { intros e He. rewrite (DoWithRetry_unread env req cfg op e He) in Hres.
    discriminate Hres. }
  destruct (DoWithRetry_run env req cfg op Hbody)
    as (n & Hn & waits & last & r & Htr & Hr & Hw & Hlast).
  rewrite Hr in Hres. inversion Hres; subst r. clear Hres.
  inversion Hlast as [r b Hdo H2 E1 E2 | | | | | |]; subst.
  exists (1 + Z.of_nat n), r, b.
  split; [reflexivity|]. split; [reflexivity|]. split; [exact H2|].
  split; [lia | exact Hdo].
Qed.

(** X6.  A call whose request body cannot be read issues no attempt.
    Otherwise the attempts are numbered 1, 2, ..., m with m between 1
    and the effective number of attempts, every attempt sends the body
    read once before the loop, and the call waits exactly m - 1 times. *)
Theorem DoWithRetry_replays_body env req cfg op :
  let trace := fst (DoWithRetry env req cfg op) in
  match Body req with
  | Some (inr _) => trace = []
  | _ =>
      Forall (sendsBody (origBody req)) trace /\
      exists m, (1 <= m)%nat /\ Z.of_nat m <= effectiveAttempts cfg /\
        attemptsIssued trace = countFrom 1 m /\
        List.length (delaysWaited trace) = (m - 1)%nat
  end.
Proof.
  cbv zeta. destruct (Body req) as [[b | e] |] eqn:Hb.
  - apply DoWithRetry_trace_shape. rewrite Hb. intros e. discriminate.
  - unfold DoWithRetry. rewrite Hb. reflexivity.
  - apply DoWithRetry_trace_shape. rewrite Hb. intros e. discriminate.
Qed.

(** The request body is read, or the call is over before the loop. *)
Lemma Body_cases req :
  (forall e, Body req <> Some (inr e)) \/ exists e, Body req = Some (inr e).
Proof.
  destruct (Body req) as [[b | e] |]; [left | right; exists e; reflexivity | left];
    intros e'; discriminate.
Qed.

(** X7.  [DoWithRetry] returns a nil error only together with a
    response and its body, from an attempt m that got a 2xx status;
    that attempt is the last one, and every attempt before it failed in
    a retryable way. *)
Theorem DoWithRetry_nil_error env req cfg op resp body :
  snd (DoWithRetry env req cfg op) = Returns (resp, body, None) ->
  exists m r b,
    resp = Some r /\ body = Some b /\ is2xx r = true /\
    1 <= m <= effectiveAttempts cfg /\
    clientDo env m (origBody req) = DoResponse r (inl b) /\
    attemptsIssued (fst (DoWithRetry env req cfg op)) = countFrom 1 (Z.to_nat m) /\
    forall j, 1 <= j < m -> retryableFailure env (origBody req) j.
Proof.
  intros Hres. destruct (Body_cases req) as [Hbody | [e Hbody]];
    [|rewrite (DoWithRetry_unread env req cfg op e Hbody) in Hres; discriminate Hres].
  destruct (DoWithRetry_run env req cfg op Hbody)
    as (n & Hn & waits & last & r & Htr & Hr & Hw & Hlast).
  rewrite Hr in Hres. inversion Hres; subst r. clear Hres.
  apply waitsFrom_attempts in Hw. destruct Hw as (W1 & _ & _ & _ & W5 & _).
  inversion Hlast as [r b Hdo H2 E1 E2 | | | | | |]; subst.
  exists (1 + Z.of_nat n), r, b.
  split; [reflexivity|]. split; [reflexivity|]. split; [exact H2|].
  split; [lia|]. split; [exact Hdo|]. split.
  - rewrite Htr, attemptsIssued_app, W1. cbn [attemptsIssued flat_map List.app].
    rewrite countFrom_snoc. f_equal. lia.
  - intros j Hj. apply W5. lia.
Qed.

Lemma DoWithRetry_nil_error_witness :
  exists m r b,
    Some (mkResponse 200 (retryAfterHeader "")) = Some r /\ Some "ok" = Some b /\
    is2xx r = true /\
    1 <= m <= effectiveAttempts DefaultConfig /\
    clientDo (rateLimitedEnv "1") m (origBody getRequest) = DoResponse r (inl b) /\
    attemptsIssued (fst (DoWithRetry (rateLimitedEnv "1") getRequest DefaultConfig "get task"))
      = countFrom 1 (Z.to_nat m) /\
    forall j, 1 <= j < m -> retryableFailure (rateLimitedEnv "1") (origBody getRequest) j.
Proof.
  apply (DoWithRetry_nil_error (rateLimitedEnv "1") getRequest DefaultConfig "get task").
  vm_compute. reflexivity.
Defined.

(** X8.  Every error [DoWithRetry] returns is of type network or
    timeout, so that [IsRetryable] holds of it; it is an [HTTPError]
    carrying a status outside 200..299 and the request URL, or one of
    five wrapped errors.  The two errors built behind the loop are
    never returned. *)
Theorem DoWithRetry_error_kinds env req cfg op resp body e :
  snd (DoWithRetry env req cfg op) = Returns (resp, body, Some e) ->
  IsRetryable e = Some true /\
  ((exists status,
      e = NewHTTPError status (URL req) (op ++ " HTTP " ++ Itoa status) /\
      ~ (200 <= status < 300)) \/
   (exists inner t msg, e = Wrap inner t msg /\ In (t, msg) wrappedKinds)).
Proof.
  intros Hres. destruct (Body_cases req) as [Hbody | [e0 Hbody]].
  - destruct (DoWithRetry_run env req cfg op Hbody)
      as (n & Hn & waits & last & r & Htr & Hr & Hw & Hlast).
    rewrite Hr in Hres. inversion Hres; subst r. clear Hres.
    inversion Hlast as [| r b Hdo H2 Hret E1 E2 | r0 le e1 Hdo Hc E1 E2
                        | r0 le Hdo Hc Hge E1 E2 | r le Hdo Hge E1 E2
                        | back e1 Hf Hlt Hc E1 E2 |]; subst.
    + split; [reflexivity|]. left. exists (StatusCode r).
      split; [reflexivity|]. unfold is2xx in H2.
      apply andb_false_iff in H2. destruct H2 as [H2 | H2];
        [apply Z.leb_gt in H2 | apply Z.ltb_ge in H2]; lia.
    + split; [reflexivity|]. right. do 3 eexists.
      split; [reflexivity|]. simpl; auto.
    + split; [reflexivity|]. right. do 3 eexists.
      split; [reflexivity|]. simpl; auto.
    + split; [reflexivity|]. right. do 3 eexists.
      split; [reflexivity|]. simpl; auto 6.
    + split; [reflexivity|]. right. do 3 eexists.
      split; [reflexivity|]. simpl; auto.
  - rewrite (DoWithRetry_unread env req cfg op e0 Hbody) in Hres.
    inversion Hres; subst. split; [reflexivity|]. right. do 3 eexists.
    split; [reflexivity|]. simpl; auto.
Qed.

Lemma DoWithRetry_error_kinds_witness :
  IsRetryable (HTTPError 404 "https://h1:9440/v1/ncc/T1" "get task HTTP 404")
  = Some true.
Proof.
  apply (DoWithRetry_error_kinds flakyEnv getRequest DefaultConfig "get task"
           (Some (mkResponse 404 (retryAfterHeader ""))) (Some "gone")).
  vm_compute. reflexivity.
Defined.

(** X9.  When the context is cancelled during a wait, the cancellation
    is the last event of the call: no attempt follows it.  The wait was
    the one behind a retryable failure of an attempt that was not the
    last allowed one, and the call returns a timeout error that wraps
    the context's error, together with the response and body of that
    attempt when it got a response whose body could be read. *)
Theorem DoWithRetry_cancelled_wait env req cfg op k back :
  In (EvCancelled k back) (fst (DoWithRetry env req cfg op)) ->
  exists pre e,
    fst (DoWithRetry env req cfg op) =
      (pre ++ [EvDo k (origBody req); EvCancelled k back])%list /\
    Forall (fun ev => isCancelled ev = false) pre /\
    ctxDone env k back = Some e /\
    retryableFailure env (origBody req) k /\ k < effectiveAttempts cfg /\
    snd (DoWithRetry env req cfg op) =
      Returns (fst (keptResponse env (origBody req) k),
               snd (keptResponse env (origBody req) k),
               Some (Wrap e ErrorTypeTimeout "context cancelled during retry")).
Proof.
  intros Hin. destruct (Body_cases req) as [Hbody | [e0 Hbody]];
    [|rewrite (DoWithRetry_unread env req cfg op e0 Hbody) in Hin; destruct Hin].
  destruct (DoWithRetry_run env req cfg op Hbody)
    as (n & Hn & waits & last & r & Htr & Hr & Hw & Hlast).
  apply waitsFrom_attempts in Hw. destruct Hw as (_ & _ & _ & W4 & _).
  rewrite Htr in Hin. apply in_app_or in Hin. destruct Hin as [Hin | Hin].
  - rewrite Forall_forall in W4. apply W4 in Hin. discriminate Hin.
  - inversion Hlast as [| | | | | back' e1 Hf Hlt Hc E1 E2 |]; subst last;
      try (destruct Hin as [Hin | []]; discriminate Hin).
    destruct Hin as [Hin | [Hin | []]]; [discriminate Hin|].
    inversion Hin; subst. exists waits, e1.
    split; [exact Htr|]. split; [exact W4|]. split; [exact Hc|].
    split; [exact Hf|]. split; [exact Hlt|]. rewrite Hr. reflexivity.
Qed.

Lemma DoWithRetry_cancelled_wait_witness :
  exists pre e,
    fst (DoWithRetry cancelledEnv postRequest DefaultConfig "start checks") =
      (pre ++ [EvDo 2 (origBody postRequest); EvCancelled 2 2000006])%list /\
    Forall (fun ev => isCancelled ev = false) pre /\
    ctxDone cancelledEnv 2 2000006 = Some e /\
    retryableFailure cancelledEnv (origBody postRequest) 2 /\
    2 < effectiveAttempts DefaultConfig /\
    snd (DoWithRetry cancelledEnv postRequest DefaultConfig "start checks") =
      Returns (fst (keptResponse cancelledEnv (origBody postRequest) 2),
               snd (keptResponse cancelledEnv (origBody postRequest) 2),
               Some (Wrap e ErrorTypeTimeout "context cancelled during retry")).
Proof.
  apply DoWithRetry_cancelled_wait. vm_compute. do 3 right. left. reflexivity.
Defined.

(** X10.  When every allowed attempt fails in a retryable way and the
    context is never cancelled, the call issues exactly the effective
    number N of attempts, waits N - 1 times, and returns what the last
    attempt leaves: the transport error or the read error wrapped as a
    network error, or the response and body with an [HTTPError] for
    its status. *)
Theorem DoWithRetry_exhausts env req cfg op :
  (forall e, Body req <> Some (inr e)) ->
  (forall j, 1 <= j <= effectiveAttempts cfg ->
             retryableFailure env (origBody req) j) ->
  (forall j d, ctxDone env j d = None) ->
  attemptsIssued (fst (DoWithRetry env req cfg op)) =
    countFrom 1 (Z.to_nat (effectiveAttempts cfg)) /\
  Z.of_nat (List.length (delaysWaited (fst (DoWithRetry env req cfg op)))) =
    effectiveAttempts cfg - 1 /\
  snd (DoWithRetry env req cfg op) =
    Returns (lastFailure env req op (origBody req) (effectiveAttempts cfg)).
Proof.
  intros Hbody Hfail Hctx.
  destruct (DoWithRetry_run env req cfg op Hbody)
    as (n & Hn & waits & last & r & Htr & Hr & Hw & Hlast).
  apply waitsFrom_attempts in Hw. destruct Hw as (W1 & W2 & _).
  specialize (Hfail (1 + Z.of_nat n) ltac:(lia)).
  assert (Hend : 1 + Z.of_nat n = effectiveAttempts cfg /\
                 attemptsIssued last = [1 + Z.of_nat n] /\
                 delaysWaited last = [] /\
                 r = lastFailure env req op (origBody req) (1 + Z.of_nat n)).
  { unfold lastFailure. unfold retryableFailure in Hfail.
    inversion Hlast as [r0 b Hdo H2 E1 E2 | r0 b Hdo H2 Hret E1 E2
                        | r0 le e1 Hdo Hc E1 E2
                        | r0 le Hdo Hc Hge E1 E2 | r0 le Hdo Hge E1 E2
                        | back e1 Hf Hlt Hc E1 E2 |]; subst;
      rewrite ?Hdo in *.
    - destruct Hfail as [Hfail _]. congruence.
    - destruct Hfail as [_ Hfail]. rewrite Hfail in Hret. cbn [andb] in Hret.
      apply Z.ltb_ge in Hret. repeat split; lia.
    - congruence.
    - apply Z.ltb_ge in Hge. repeat split; lia.
    - apply Z.ltb_ge in Hge. repeat split; lia.
    - rewrite Hctx in Hc. discriminate Hc. }
  destruct Hend as (Hk & L1 & L2 & ->).
  rewrite Htr, Hr, attemptsIssued_app, delaysWaited_app, W1, L1, L2, app_nil_r, W2.
  rewrite countFrom_snoc. rewrite Hk.
  split; [f_equal; lia|]. split; [lia | reflexivity].
Qed.

Lemma DoWithRetry_exhausts_witness :
  attemptsIssued (fst (DoWithRetry downEnv postRequest DefaultConfig "start checks")) =
    countFrom 1 (Z.to_nat (effectiveAttempts DefaultConfig)) /\
  Z.of_nat (List.length
              (delaysWaited
                 (fst (DoWithRetry downEnv postRequest DefaultConfig "start checks")))) =
    effectiveAttempts DefaultConfig - 1 /\
  snd (DoWithRetry downEnv postRequest DefaultConfig "start checks") =
    Returns (lastFailure downEnv postRequest "start checks" (origBody postRequest)
               (effectiveAttempts DefaultConfig)).
Proof.
  apply DoWithRetry_exhausts.
  - intros e. discriminate.
  - intros j _. split; reflexivity.
  - reflexivity.
Defined.

(** *** [retryAfterDelay] *)

(** X11.  [retryAfterDelay] reports a delay only for a response with a
    [Retry-After] header that is not empty; without one the delay is 0.
    A header that is an integer of at most 9223372036 in absolute value
    gives that many seconds, also when the integer is zero or negative;
    a header that is not an integer gives a delay that is never
    negative. *)
Theorem retryAfterDelay_cases env resp :
  let '(d, ok) := retryAfterDelay env resp in
  (ok = false -> d = 0) /\
  (ok = true ->
   exists r, resp = Some r /\ Header_Get r "Retry-After" <> "") /\
  (forall r, resp = Some r ->
     match Atoi (Header_Get r "Retry-After") with
     | Some secs =>
         ok = true /\
         (- 9223372036 <= secs <= 9223372036 -> d = secs * Second)
     | None => 0 <= d
     end).
Proof.
  unfold retryAfterDelay. destruct resp as [r|].
  - destruct (String.eqb_spec (Header_Get r "Retry-After") "") as [E | Hne].
    + split; [reflexivity|]. split; [discriminate|].
      intros r' Hr. inversion Hr; subst r'. rewrite E. cbn. lia.
    + destruct (Atoi (Header_Get r "Retry-After")) as [secs|] eqn:Ha.
      * split; [discriminate|]. split; [intros _; exists r; auto|].
        intros r' Hr. inversion Hr; subst r'. rewrite Ha.
        split; [reflexivity|]. intros Hs. apply wrap64_small.
        unfold minInt64, maxInt64, Second, Millisecond. lia.
      * destruct (parseTimeUntil env (Header_Get r "Retry-After")) as [d|].
        -- split; [discriminate|]. split; [intros _; exists r; auto|].
           intros r' Hr. inversion Hr; subst r'. rewrite Ha.
           destruct (Z.ltb_spec d 0); lia.
        -- split; [reflexivity|]. split; [discriminate|].
           intros r' Hr. inversion Hr; subst r'. rewrite Ha. lia.
  - split; [reflexivity|]. split; [discriminate|]. intros r Hr. discriminate Hr.
Qed.

End ClientMoreProofs.

(* ================================================================= *)
(** ** Further properties of package [cmd] *)

Module CmdMoreProofs.
Import GoLib Errors Types Config Parser Cmd ParserProps CmdProps CmdMore.
Import StringFacts ParserProofs CmdProofs RoundTrip.

Lemma filter_idem {A} (p : A -> bool) l : filter p (filter p l) = filter p l.
Proof.
  induction l as [|x l IH]; [reflexivity|].
  cbn [filter]. destruct (p x) eqn:Hx; [|exact IH].
  cbn [filter]. rewrite Hx, IH. reflexivity.
Qed.

Section Filtering.
Context {lib : Lib}.

Lemma applyFilters_keeps flt blocks cluster :
  applyFilters flt blocks cluster =
  if clusterSelected flt cluster
  then match filter (keeps flt) (elems blocks) with
       | [] => None
       | b :: kept => Some (b :: kept)
       end
  else None.
Proof.
  unfold applyFilters, clusterSelected. cbv zeta.
  destruct (if (filter_cluster flt =? "")%string then None
            else regexp_Compile (filter_cluster flt)) as [re|].
  - destruct (MatchString re cluster); cbn [negb]; [|reflexivity].
    rewrite applyFilters_fold. reflexivity.
  - rewrite applyFilters_fold. reflexivity.
Qed.

(** X12.  [applyFilters] keeps, in their order, exactly the findings
    that pass the severity and check-name tests when the cluster name
    passes the cluster test, and nothing otherwise; its result is nil
    whenever it holds no finding; and applying it to its own result
    changes nothing. *)
Theorem applyFilters_is_filter flt blocks cluster :
  elems (applyFilters flt blocks cluster) =
    (if clusterSelected flt cluster
     then filter (keeps flt) (elems blocks) else []) /\
  (elems (applyFilters flt blocks cluster) = [] ->
   applyFilters flt blocks cluster = None) /\
  applyFilters flt (applyFilters flt blocks cluster) cluster =
    applyFilters flt blocks cluster.
Proof.
  rewrite !applyFilters_keeps.
  destruct (clusterSelected flt cluster) eqn:Hc.
  - destruct (filter (keeps flt) (elems blocks)) as [|b kept] eqn:Hf.
    + split; [reflexivity|]. split; reflexivity.
    + split; [reflexivity|]. split; [discriminate|].
      cbn [elems]. rewrite <- Hf.
      rewrite filter_idem, Hf. reflexivity.
  - split; [reflexivity|]. split; reflexivity.
Qed.

Lemma applyFilters_is_filter_elems flt blocks cluster :
  elems (applyFilters flt blocks cluster) =
  (if clusterSelected flt cluster
   then filter (keeps flt) (elems blocks) else []).
Proof.
  rewrite applyFilters_keeps.
  destruct (clusterSelected flt cluster); [|reflexivity].
  destruct (filter (keeps flt) (elems blocks)); reflexivity.
Qed.

(** When [applyFilters] returns nil. *)
Lemma applyFilters_nil flt blocks cluster :
  (applyFilters flt blocks cluster <> None <->
   clusterSelected flt cluster = true /\
   exists b, In b (elems blocks) /\ keeps flt b = true) /\
  (applyFilters flt blocks cluster = None <->
   clusterSelected flt cluster = false \/
   Forall (fun b => keeps flt b = false) (elems blocks)).
Proof.
  rewrite applyFilters_keeps.
  destruct (clusterSelected flt cluster).
  - destruct (filter (keeps flt) (elems blocks)) as [|b kept] eqn:Hf.
    + assert (Hnone : Forall (fun b => keeps flt b = false) (elems blocks)).
      { apply Forall_forall. intros b Hb.
        destruct (keeps flt b) eqn:Hk; [|reflexivity].
        assert (Hin : In b (filter (keeps flt) (elems blocks)))
          by (apply filter_In; split; assumption).
        rewrite Hf in Hin. destruct Hin. }
      split; split.
      * intros H. contradiction H. reflexivity.
      * intros (_ & b & Hb & Hk).
        rewrite Forall_forall in Hnone. rewrite (Hnone b Hb) in Hk. discriminate Hk.
      * intros _. right. exact Hnone.
      * intros _. reflexivity.
    + assert (Hin : In b (elems blocks) /\ keeps flt b = true).
      { apply filter_In. rewrite Hf. left. reflexivity. }
      split; split.
      * intros _. split; [reflexivity|]. exists b. exact Hin.
      * intros _. discriminate.
      * intros H. discriminate H.
      * intros [H | H]; [discriminate H|].
        rewrite Forall_forall in H. destruct Hin as [Hb Hk].
        rewrite (H b Hb) in Hk. discriminate Hk.
  - split; split.
    + intros H. contradiction H. reflexivity.
    + intros [H _]. discriminate H.
    + intros _. left. reflexivity.
    + intros _. reflexivity.
Qed.

End Filtering.

(** *** From the summary to the findings of an endpoint *)

(** The text written for findings of the parsed shape parses back. *)
Lemma written_shape_parses F :
  F <> [] -> parsedShape F ->
  ParseSummary (writeBlocks (Some F)) = (Some (map reparsed F), None).
Proof.
  intros Hne Hshape.
  destruct (parsedShape_lines F Hshape) as [Hfree Hfit].
  rewrite writeBlocks_concat. cbn [elems]. unfold ParseSummary.
  assert (Hnonempty : (String.concat "" (map blockText F) =? "")%string = false).
  { apply String.eqb_neq. intros E. pose proof (render_length F Hne) as Hl.
    rewrite E in Hl. discriminate. }
  rewrite Hnonempty. cbv zeta.
  rewrite splitLines_render, parseLoop_render by assumption.
  destruct F as [|b F]; [contradiction|].
  cbn [map appendAll elems List.app]. unfold len. cbn [elems List.length].
  destruct (Z.eqb_spec (Z.of_nat (S (List.length (map reparsed F)))) 0);
    [lia | reflexivity].
Qed.

Lemma MemFS_lawful : lawfulFS MemFS_FS.
Proof.
  split.
  - intros path data fs fs' H. cbn in H. inversion H; subst.
    cbn. rewrite String.eqb_refl. reflexivity.
  - intros dir path fs fs' H. cbn in H. inversion H; subst. reflexivity.
Qed.

Section Pipeline.
Context {lib : Lib} {St : Type} {fsys : FS St}.

Lemma summaryPhase_findings (env : RunEnv) cfg flt cluster fs blocks :
  lawfulFS fsys ->
  snd (summaryPhase env cfg flt cluster fs) = Finished (blocks, None) ->
  exists F,
    ParseSummary (SanitizeSummary (RunSummary (fst (fst (getRunSummary env))))) =
      (Some F, None) /\
    blocks = applyFilters flt (Some (map reparsed F)) cluster.
Proof.
  intros [Hrw Hmk] H. unfold summaryPhase in H.
  destruct (getRunSummary env) as [[summary body] [e|]]; [discriminate H|].
  cbn [fst]. unfold writeSummary in H.
  destruct (MkdirAll (OutputDirLogs cfg) fs) as [fs1 [e|]]; [discriminate H|].
  destruct (WriteFile (filepath_Join (OutputDirLogs cfg) (cluster ++ ".log"))
              (SanitizeSummary (RunSummary summary)) fs1) as [fs2 [e|]] eqn:Ew1;
    [discriminate H|].
  unfold filterBlocksToFile in H. rewrite (Hrw _ _ _ _ Ew1) in H.
  destruct (ParseSummary (SanitizeSummary (RunSummary summary)))
    as [parsed [e|]] eqn:EP; [discriminate H|].
  destruct (ParseSummary_ok_nonempty _ _ EP) as (b & bs & ->).
  destruct (MkdirAll
              (filepath_Dir (filepath_Join (OutputDirFiltered cfg) (cluster ++ ".log")))
              fs2) as [fs3 [e|]]; [discriminate H|].
  destruct (WriteFile (filepath_Join (OutputDirFiltered cfg) (cluster ++ ".log"))
              (writeBlocks (Some (b :: bs))) fs3) as [fs4 [e|]] eqn:Ew2;
    [discriminate H|].
  rewrite (Hrw _ _ _ _ Ew2) in H.
  apply ParseSummary_success in EP. destruct EP as [Hne Hshape].
  rewrite (written_shape_parses _ Hne Hshape) in H.
  exists (b :: bs). split; [reflexivity|].
  destruct (renderOutputs env (OutputFormats cfg)
              (applyFilters flt (Some (map reparsed (b :: bs))) cluster)
              (filepath_Join (OutputDirFiltered cfg) (cluster ++ ".log")) fs4)
    as [fs5 [e|]]; [discriminate H|].
  cbn [snd] in H. inversion H. reflexivity.
Qed.

(** X13.  On a file system that reads back what was written, the
    findings an endpoint run returns are those of the remote summary:
    the summary with its escaped line feeds replaced is parsed, the
    findings are written to the filtered file and parsed again (which
    drops one carriage return at the end of each line and, for a final
    finding that no closing line ends, appends the separator), and the
    filters are applied to the result. *)
Theorem runClusterWithBars_findings (env : RunEnv) cfg flt cluster fs blocks :
  lawfulFS fsys ->
  snd (runClusterWithBars env cfg flt cluster fs) = Finished (blocks, None) ->
  exists F,
    ParseSummary (SanitizeSummary (RunSummary (fst (fst (getRunSummary env))))) =
      (Some F, None) /\
    blocks = applyFilters flt (Some (map reparsed F)) cluster.
Proof.
  intros Hlaw H. unfold runClusterWithBars in H.
  destruct (startChecks env) as [[taskID body] [e|]]; [discriminate H|].
  destruct (pollLoop cfg (polls env) 1) as [evs [ | err | m | ]];
    try discriminate H.
  destruct (summaryPhase env cfg flt cluster fs) as [[evs' fs'] r] eqn:Es.
  cbn [snd] in H. subst r.
  apply (summaryPhase_findings env cfg flt cluster fs blocks Hlaw).
  rewrite Es. reflexivity.
Qed.

(** A run that returns findings without error went through every step
    of the summary phase: the files it wrote and the data it read. *)
Lemma summaryPhase_chain (env : RunEnv) cfg flt cluster fs blocks :
  snd (summaryPhase env cfg flt cluster fs) = Finished (blocks, None) ->
  exists summary body fs1 logPath fs2 data parsed,
    let filteredPath :=
      filepath_Join (OutputDirFiltered cfg) (cluster ++ ".log") in
    getRunSummary env = (summary, body, None) /\
    writeSummary (OutputDirLogs cfg) cluster (RunSummary summary) fs =
      (fs1, (logPath, None)) /\
    filterBlocksToFile logPath filteredPath fs1 = (fs2, None) /\
    ReadFile filteredPath fs2 = (data, None) /\
    ParseSummary data = (parsed, None) /\
    blocks = applyFilters flt parsed cluster.
Proof.
  unfold summaryPhase.
  destruct (getRunSummary env) as [[summary body] [err|]]; [discriminate|].
  destruct (writeSummary _ _ _ _) as [fs1 [logPath [err|]]] eqn:Ew; [discriminate|].
  destruct (filterBlocksToFile _ _ _) as [fs2 [err|]] eqn:Ef; [discriminate|].
  destruct (ReadFile _ _) as [data [err|]] eqn:Er; [discriminate|].
  destruct (ParseSummary data) as [parsed [err|]] eqn:Ep; [discriminate|].
  destruct (renderOutputs _ _ _ _ _) as [fs3 [err|]]; [discriminate|].
  cbn [snd]. intros H. injection H as <-.
  exists summary, body, fs1, logPath, fs2, data, parsed. cbv zeta.
  repeat split; assumption || reflexivity.
Qed.

Lemma runClusterWithBars_chain (env : RunEnv) cfg flt cluster fs blocks :
  snd (runClusterWithBars env cfg flt cluster fs) = Finished (blocks, None) ->
  snd (summaryPhase env cfg flt cluster fs) = Finished (blocks, None).
Proof.
  unfold runClusterWithBars.
  destruct (startChecks env) as [[taskID body] [err|]]; [discriminate|].
  destruct (pollLoop cfg (polls env) 1) as [evs [ | err | m | ]];
    try discriminate.
  destruct (summaryPhase env cfg flt cluster fs) as [[evs' fs'] out].
  intros H. exact H.
Qed.

(** C1 (as amended).  In every result a worker publishes: when the error
    is not nil the findings are nil; when the findings are not nil they
    are not empty and the error is nil; when the error is nil, the run
    fetched the summary, wrote it, wrote the filtered file, read the
    filtered file back and parsed it, and the findings are what
    [applyFilters] returns for the findings parsed from that file:
    those that pass the filters, in order; not nil exactly when the
    cluster passes the cluster filter and at least one finding passes
    the other filters (always so when no filter is set), and nil
    exactly when none passes. *)
Theorem worker_result_shape (env : RunEnv) cfg flt cl fs :
  match snd (worker env cfg flt cl fs) with
  | None => True
  | Some r =>
      Cluster r = cl /\
      (Err r <> None -> Blocks r = None) /\
      (Blocks r <> None -> Err r = None /\ elems (Blocks r) <> []) /\
      (Err r = None ->
       exists summary body fs1 logPath fs2 data parsed,
         let filteredPath :=
           filepath_Join (OutputDirFiltered cfg) (cl ++ ".log") in
         getRunSummary env = (summary, body, None) /\
         writeSummary (OutputDirLogs cfg) cl (RunSummary summary) fs =
           (fs1, (logPath, None)) /\
         filterBlocksToFile logPath filteredPath fs1 = (fs2, None) /\
         ReadFile filteredPath fs2 = (data, None) /\
         ParseSummary data = (parsed, None) /\
         Blocks r = applyFilters flt parsed cl /\
         elems (Blocks r) =
           (if clusterSelected flt cl
            then filter (keeps flt) (elems parsed) else []) /\
         (Blocks r <> None <->
          clusterSelected flt cl = true /\
          exists b, In b (elems parsed) /\ keeps flt b = true) /\
         (Blocks r = None <->
          clusterSelected flt cl = false \/
          Forall (fun b => keeps flt b = false) (elems parsed)) /\
         (flt = noFilters -> Blocks r = parsed /\ Blocks r <> None))
  end.
Proof.
  unfold worker.
  pose proof (runClusterWithBars_chain env cfg flt cl fs) as Hrun.
  destruct (runClusterWithBars env cfg flt cl fs)
    as [[evs fs'] [[blocks [err|]] | m | ]];
    cbn [fst snd Cluster Blocks Err] in *; auto.
  - split; [reflexivity | split; [intros _; reflexivity |
      split; [intros H; congruence | intros H; discriminate H]]].
  - destruct (summaryPhase_chain env cfg flt cl fs blocks (Hrun blocks eq_refl))
      as (summary & body & fs1 & logPath & fs2 & data & parsed & Hchain).
    cbv zeta in Hchain.
    destruct Hchain as (Hsum & Hw & Hf & Hr & Hparse & Hp).
    split; [reflexivity | split; [intros H; congruence | split]].
    + intros Hnn. split; [reflexivity|]. subst blocks.
      destruct (applyFilters_nil_or_nonempty flt parsed cl) as [E | (b & kept & E)];
        rewrite E in *; [congruence | discriminate].
    + intros _. exists summary, body, fs1, logPath, fs2, data, parsed. cbv zeta.
      do 5 (split; [assumption|]). split; [exact Hp|]. subst blocks.
      split; [apply (applyFilters_is_filter_elems flt parsed cl)|].
      split; [apply (applyFilters_nil flt parsed cl)|].
      split; [apply (applyFilters_nil flt parsed cl)|].
      intros ->. destruct (ParseSummary_ok_nonempty data parsed Hparse) as (b & bs & ->).
      rewrite applyFilters_noFilters. split; [reflexivity | discriminate].
  - split; [reflexivity | split; [intros _; reflexivity |
      split; [intros H; congruence | intros H; discriminate H]]].
Qed.

(** X14.  With a poll jitter that is not positive, an endpoint run
    whose checks were started panics in the first turn of the polling
    loop: the worker touches no file, reports the percentage 1 only,
    and publishes nil findings with the error made from the panic of
    [rand.Int63n]. *)
Theorem worker_panics_without_jitter (env : RunEnv) cfg flt cl fs :
  PollJitter cfg <= 0 ->
  snd (startChecks env) = None ->
  polls env <> [] ->
  worker env cfg flt cl fs =
  ([SetPhase "starting"; SetCurrent 1; SetPhase "polling"], fs,
   Some {| Cluster := cl; Blocks := None;
           Err := Some (ExternalError "panic: invalid argument to Int63n") |}).
Proof.
  intros Hj Hstart Hpolls. unfold worker, runClusterWithBars.
  destruct (startChecks env) as [[taskID body] [e|]]; [discriminate Hstart|].
  destruct (polls env) as [|turn rest]; [contradiction|].
  cbn [pollLoop]. unfold Client.Int63n.
  destruct (Z.leb_spec (PollJitter cfg) 0); [reflexivity | lia].
Qed.

Lemma phases_app a b : phases (a ++ b) = (phases a ++ phases b)%list.
Proof. apply flat_map_app. Qed.

Lemma pollLoop_no_phase cfg turns : forall last,
  phases (fst (pollLoop cfg turns last)) = [].
Proof.
  induction turns as [|turn rest IH]; intros last; [reflexivity|].
  cbn [pollLoop].
  destruct (Client.Int63n (jitterRaw turn) (PollJitter cfg)); [|reflexivity].
  destruct (selected turn) as [e | [[status body] [err|]]]; try reflexivity.
  cbv zeta.
  destruct (ProgressStatus status =? "Failed")%string; [reflexivity|].
  match goal with
  | |- context [if ?c >=? 100 then _ else _] => destruct (c >=? 100)
  end; [reflexivity|].
  match goal with
  | |- context [pollLoop cfg rest ?l] =>
      specialize (IH l); destruct (pollLoop cfg rest l) as [evs r]
  end.
  cbn [fst] in IH |- *. exact IH.
Qed.

Lemma summaryPhase_phases (env : RunEnv) cfg flt cluster fs :
  let run := summaryPhase env cfg flt cluster fs in
  (exists n, (1 <= n <= 3)%nat /\
     phases (fst (fst run)) = firstn n ["summary"; "writing"; "done"]) /\
  (forall blocks, snd run = Finished (blocks, None) ->
     phases (fst (fst run)) = ["summary"; "writing"; "done"]).
Proof.
  cbv zeta. unfold summaryPhase.
  repeat match goal with
         | |- context [match ?x with _ => _ end] => destruct x
         end; cbn [fst snd];
    (split;
     [ first [ exists 1%nat; split; [lia | reflexivity]
             | exists 2%nat; split; [lia | reflexivity]
             | exists 3%nat; split; [lia | reflexivity] ]
     | intros blocks H; first [discriminate H | reflexivity] ]).
Qed.

(** X24.  The phases an endpoint run shows are a beginning of
    starting, polling, summary, writing, done, and they are all five
    when the run succeeds.  A run that does not reach the summary
    phase leaves the file system as it found it. *)
Theorem runClusterWithBars_phases (env : RunEnv) cfg flt cluster fs :
  let run := runClusterWithBars env cfg flt cluster fs in
  (exists n, (1 <= n)%nat /\ phases (fst (fst run)) = firstn n allPhases) /\
  (forall blocks, snd run = Finished (blocks, None) ->
     phases (fst (fst run)) = allPhases) /\
  (~ In "summary" (phases (fst (fst run))) -> snd (fst run) = fs).
Proof.
  cbv zeta. unfold runClusterWithBars.
  destruct (startChecks env) as [[taskID body] [e|]].
  - cbn [fst snd]. split; [exists 1%nat; split; [lia | reflexivity]|].
    split; [discriminate | reflexivity].
  - pose proof (pollLoop_no_phase cfg (polls env) 1) as Hp.
    destruct (pollLoop cfg (polls env) 1) as [evs [ | err | m | ]];
      cbn [fst snd] in Hp |- *.
    + destruct (summaryPhase_phases env cfg flt cluster fs) as [(n & Hn & Hs) Hok].
      cbv zeta in Hs, Hok.
      destruct (summaryPhase env cfg flt cluster fs) as [[evs' fs'] r].
      cbn [fst snd] in Hs, Hok |- *.
      assert (Hph : phases ([SetPhase "starting"; SetCurrent 1; SetPhase "polling"]
                            ++ evs ++ evs') =
                    "starting" :: "polling" :: phases evs').
      { rewrite !phases_app, Hp. reflexivity. }
      rewrite Hph. split; [|split].
      * exists (2 + n)%nat. split; [lia|]. rewrite Hs. reflexivity.
      * intros blocks H. rewrite (Hok blocks H). reflexivity.
      * intros Hno. exfalso. apply Hno. rewrite Hs.
        right. right. destruct n as [|n]; [lia|]. left. reflexivity.
    + rewrite phases_app, Hp.
      split; [exists 2%nat; split; [lia | reflexivity]|].
      split; [discriminate | reflexivity].
    + rewrite phases_app, Hp.
      split; [exists 2%nat; split; [lia | reflexivity]|].
      split; [discriminate | reflexivity].
    + rewrite phases_app, Hp.
      split; [exists 2%nat; split; [lia | reflexivity]|].
      split; [discriminate | reflexivity].
Qed.

(** The polling loop goes on to the summary only through a turn in
    which [GetTask] succeeded with a percentage of 100 or more and a
    status other than Failed, after turns that are all still running. *)
Lemma pollLoop_summary_only cfg turns : forall last,
  last < 100 ->
  snd (pollLoop cfg turns last) = GotoSummary ->
  0 < PollJitter cfg /\
  exists n turn,
    nth_error turns n = Some turn /\ complete turn /\
    (forall i t, (i < n)%nat -> nth_error turns i = Some t -> stillRunning t) /\
    List.length (percents (fst (pollLoop cfg turns last))) = S n.
Proof.
  induction turns as [|turn rest IH]; intros last Hlast H;
    [cbn [pollLoop snd] in H; discriminate H|].
  cbn [pollLoop] in H |- *. unfold Client.Int63n in H |- *.
  destruct (Z.leb_spec (PollJitter cfg) 0) as [Hj | Hj];
    [cbn [snd] in H; discriminate H|].
  split; [exact Hj|].
  destruct (selected turn) as [e | [[status body] [err|]]] eqn:Hsel;
    try (cbn [snd] in H; discriminate H).
  cbv zeta in H |- *.
  destruct (String.eqb_spec (ProgressStatus status) "Failed") as [Hf | Hf];
    [cbn [snd] in H; discriminate H|].
  set (pct0 := if PercentageComplete status <? last then last
               else PercentageComplete status) in *.
  set (pct := if pct0 >? 100 then 100 else pct0) in *.
  destruct (Z.geb_spec pct 100) as [Hge | Hlt].
  - exists 0%nat, turn. split; [reflexivity|]. split.
    + exists status, body. split; [exact Hsel|]. split; [|exact Hf].
      subst pct pct0.
      destruct (Z.ltb_spec (PercentageComplete status) last);
        destruct (Z.gtb_spec last 100);
        destruct (Z.gtb_spec (PercentageComplete status) 100); lia.
    + split; [intros i t Hi; lia | reflexivity].
  - assert (Hpct : pct < 100) by lia.
    specialize (IH pct Hpct).
    destruct (pollLoop cfg rest pct) as [evs r] eqn:Hloop.
    cbn [fst snd] in H, IH |- *.
    destruct (IH H) as (_ & n & t & Hn & Hc & Hbefore & Hlen).
    exists (S n), t. split; [exact Hn|]. split; [exact Hc|]. split.
    + intros i t' Hi Ht'. destruct i as [|i].
      * inversion Ht'; subst t'. exists status, body.
        split; [exact Hsel|]. split; [|exact Hf].
        subst pct pct0.
        destruct (Z.ltb_spec (PercentageComplete status) last);
          destruct (Z.gtb_spec last 100);
          destruct (Z.gtb_spec (PercentageComplete status) 100); lia.
      * apply (Hbefore i t'); [lia | exact Ht'].
    + cbn [percents flat_map List.app List.length]. fold (percents evs).
      rewrite Hlen. reflexivity.
Qed.

(** With a positive poll jitter, a turn that is complete, reached
    through turns that are all still running, takes the loop to the
    summary, whatever the status texts are (Failed apart). *)
Lemma pollLoop_reaches_summary cfg (Hj : 0 < PollJitter cfg) turns :
  forall last n turn,
  last < 100 ->
  nth_error turns n = Some turn -> complete turn ->
  (forall i t, (i < n)%nat -> nth_error turns i = Some t -> stillRunning t) ->
  snd (pollLoop cfg turns last) = GotoSummary.
Proof.
  induction turns as [|first rest IH]; intros last n turn Hlast Hn Hc Hbefore;
    [destruct n; discriminate Hn|].
  cbn [pollLoop]. unfold Client.Int63n.
  destruct (Z.leb_spec (PollJitter cfg) 0) as [Hj' | _]; [lia|].
  destruct n as [|n].
  - injection Hn as ->. destruct Hc as (status & body & Hsel & Hp & Hf).
    rewrite Hsel. cbv zeta.
    destruct (String.eqb_spec (ProgressStatus status) "Failed") as [E | _];
      [contradiction|].
    destruct (Z.ltb_spec (PercentageComplete status) last); [lia|].
    destruct (Z.gtb_spec (PercentageComplete status) 100);
      [reflexivity|].
    destruct (Z.geb_spec (PercentageComplete status) 100); [reflexivity | lia].
  - destruct (Hbefore 0%nat first ltac:(lia) eq_refl)
      as (status & body & Hsel & Hp & Hf).
    rewrite Hsel. cbv zeta.
    destruct (String.eqb_spec (ProgressStatus status) "Failed") as [E | _];
      [contradiction|].
    set (pct0 := if PercentageComplete status <? last then last
                 else PercentageComplete status).
    assert (Hpct0 : pct0 < 100)
      by (subst pct0; destruct (Z.ltb_spec (PercentageComplete status) last); lia).
    destruct (Z.gtb_spec pct0 100); [lia|].
    destruct (Z.geb_spec pct0 100); [lia|].
    specialize (IH pct0 n turn Hpct0 Hn Hc).
    destruct (pollLoop cfg rest pct0) as [evs r]. cbn [snd] in IH |- *.
    apply IH. intros i t Hi Ht. apply (Hbefore (S i) t); [lia | exact Ht].
Qed.

(** X25.  The polling loop goes on to the summary exactly when the poll
    jitter is positive and some turn is complete ([GetTask] succeeded
    with a percentage of 100 or more and a status other than Failed)
    while every turn before it is still running ([GetTask] succeeded
    with a percentage below 100 and a status other than Failed); the
    loop then reported one percentage per turn up to that one.  The
    status text is not looked at otherwise: two runs whose turns differ
    only in status texts other than Failed end alike. *)
Theorem pollLoop_completion cfg turns last :
  last < 100 ->
  (snd (pollLoop cfg turns last) = GotoSummary <->
   0 < PollJitter cfg /\
   exists n turn,
     nth_error turns n = Some turn /\ complete turn /\
     (forall i t, (i < n)%nat -> nth_error turns i = Some t -> stillRunning t)) /\
  (snd (pollLoop cfg turns last) = GotoSummary ->
   exists n turn,
     nth_error turns n = Some turn /\ complete turn /\
     (forall i t, (i < n)%nat -> nth_error turns i = Some t -> stillRunning t) /\
     List.length (percents (fst (pollLoop cfg turns last))) = S n).
Proof.
  intros Hlast. split; [split|].
  - intros H.
    destruct (pollLoop_summary_only cfg turns last Hlast H)
      as (Hj & n & turn & Hn & Hc & Hb & _).
    split; [exact Hj|]. exists n, turn. auto.
  - intros (Hj & n & turn & Hn & Hc & Hb).
    exact (pollLoop_reaches_summary cfg Hj turns last n turn Hlast Hn Hc Hb).
  - intros H.
    destruct (pollLoop_summary_only cfg turns last Hlast H) as (_ & Hex).
    exact Hex.
Qed.

End Pipeline.

Lemma runClusterWithBars_findings_witness :
  exists F,
    ParseSummary (SanitizeSummary sampleSummary) = (Some F, None) /\
    parsedRawInfo = @applyFilters exampleLib noFilters (Some (map reparsed F)) "h1".
Proof.
  apply (@runClusterWithBars_findings exampleLib MemFS MemFS_FS sampleEnv
           DefaultConfig noFilters "h1" [] parsedRawInfo MemFS_lawful).
  vm_compute. reflexivity.
Defined.

Lemma worker_panics_without_jitter_witness :
  @worker exampleLib MemFS _ sampleEnv noJitter noFilters "h1" [] =
  ([SetPhase "starting"; SetCurrent 1; SetPhase "polling"], [],
   Some {| Cluster := "h1"; Blocks := None;
           Err := Some (ExternalError "panic: invalid argument to Int63n") |}).
Proof.
  apply worker_panics_without_jitter.
  - vm_compute. discriminate.
  - reflexivity.
  - discriminate.
Defined.

Lemma worker_result_shape_witness :
  exists r,
    snd (@worker exampleLib MemFS _ sampleEnv DefaultConfig failOnly "h1" []) = Some r /\
    Err r = None /\ Blocks r = None /\
    exists data parsed,
      ParseSummary data = (parsed, None) /\
      Blocks r = @applyFilters exampleLib failOnly parsed "h1" /\
      Forall (fun b => @keeps exampleLib failOnly b = false) (elems parsed).
Proof.
  pose proof (@worker_result_shape exampleLib MemFS _ sampleEnv DefaultConfig
                failOnly "h1" []) as H.
  assert (E : snd (@worker exampleLib MemFS _ sampleEnv DefaultConfig failOnly "h1" []) =
              Some {| Cluster := "h1"; Blocks := None; Err := None |})
    by (vm_compute; reflexivity).
  rewrite E in H. cbn [Cluster Blocks Err] in H.
  destruct H as (_ & _ & _ & H).
  destruct (H eq_refl)
    as (summary & body & fs1 & logPath & fs2 & data & parsed & Hchain).
  cbv zeta in Hchain.
  destruct Hchain as (_ & _ & _ & _ & Hparse & Hp & _ & _ & Hnil & _).
  exists {| Cluster := "h1"; Blocks := None; Err := None |}.
  split; [exact E|]. split; [reflexivity|]. split; [reflexivity|].
  exists data, parsed. split; [exact Hparse|]. split; [exact Hp|].
  destruct (proj1 Hnil eq_refl) as [Hsel | Hall]; [discriminate Hsel | exact Hall].
Defined.

Lemma pollLoop_completion_witness :
  (snd (pollLoop DefaultConfig (polls sampleEnv) 1) = GotoSummary <->
   0 < PollJitter DefaultConfig /\
   exists n turn,
     nth_error (polls sampleEnv) n = Some turn /\ complete turn /\
     (forall i t, (i < n)%nat -> nth_error (polls sampleEnv) i = Some t ->
                  stillRunning t)) /\
  (snd (pollLoop DefaultConfig (polls sampleEnv) 1) = GotoSummary ->
   exists n turn,
     nth_error (polls sampleEnv) n = Some turn /\ complete turn /\
     (forall i t, (i < n)%nat -> nth_error (polls sampleEnv) i = Some t ->
                  stillRunning t) /\
     List.length (percents (fst (pollLoop DefaultConfig (polls sampleEnv) 1))) = S n).
Proof.
  apply pollLoop_completion. lia.
Defined.

End CmdMoreProofs.

(* ================================================================= *)
(** ** Properties of the collected results and of the severity counts *)

Module ReportProofs.
Import GoLib Errors Types Config Parser Cmd ParserProps ParserMore Report.
Import ParserMoreProofs.

Lemma fold_append {A B} (f : A -> B) l : forall acc : slice B,
  fold_left (fun a x => append a (f x)) l acc =
  match l with
  | [] => acc
  | _ :: _ => Some (elems acc ++ map f l)%list
  end.
Proof.
  induction l as [|x l IH]; intros acc; [reflexivity|].
  cbn [fold_left]. rewrite IH. destruct l as [|y l].
  - reflexivity.
  - unfold append at 1. cbn [elems map]. rewrite <- app_assoc. reflexivity.
Qed.

Lemma fold_append_elems {A B} (f : A -> B) l (acc : slice B) :
  elems (fold_left (fun a x => append a (f x)) l acc) = (elems acc ++ map f l)%list.
Proof.
  rewrite fold_append. destruct l; [cbn; rewrite app_nil_r|]; reflexivity.
Qed.

Section Drain.
Context {lib : Lib}.
Variable filepath_Base : string -> string.

#[local] Abbreviation drainStep := (drainStep filepath_Base).
#[local] Abbreviation drain := (drain filepath_Base).

Lemma drain_from cfg results : forall acc,
  let d := fold_left (drainStep cfg) results acc in
  elems (failed d) =
    (elems (failed acc) ++ map Cluster (filter failedResult results))%list /\
  elems (agg d) =
    (elems (agg acc) ++
     flat_map (fun r => map (aggOf (Cluster r)) (elems (Blocks r)))
       (filter (fun r => negb (failedResult r)) results))%list /\
  map FileCluster (elems (clusterFiles d)) =
    (map FileCluster (elems (clusterFiles acc)) ++
     map Cluster (filter (fun r => negb (failedResult r)) results))%list /\
  (failed d = None <-> failed acc = None /\ filter failedResult results = []).
Proof.
  induction results as [|r results IH]; intros acc.
  - cbn. rewrite !app_nil_r. repeat split; tauto.
  - cbn [fold_left]. specialize (IH (drainStep cfg acc r)). cbv zeta in IH |- *.
    destruct IH as (IH1 & IH2 & IH3 & IH4).
    rewrite IH1, IH2, IH3. unfold Report.drainStep, failedResult in *.
    cbn [filter]. destruct (Err r) as [e|]; cbn [negb failed agg clusterFiles].
    + unfold append at 1. cbn [elems map flat_map]. rewrite <- app_assoc.
      split; [reflexivity|]. split; [reflexivity|]. split; [reflexivity|].
      rewrite IH4. cbn [failed]. unfold append.
      split; [intros [H _]; discriminate H | intros [_ H]; discriminate H].
    + cbn [map flat_map]. rewrite fold_append_elems.
      unfold append at 1. cbn [elems]. rewrite map_app, <- !app_assoc.
      split; [reflexivity|]. split; [reflexivity|]. split; [reflexivity|].
      rewrite IH4. cbn [failed]. reflexivity.
Qed.

(** X15.  The loop that drains the results keeps their order: the
    failed clusters are those of the results with an error, the
    aggregated rows are the findings of the results without one, and
    there is one file entry for each result without an error.  The
    list of failed clusters stays nil when no result has an error, and
    [runNCCChecks] returns an error exactly when some result has one,
    whatever the aggregated page and the notifications return. *)
Theorem collectResults_partitions cfg out results :
  let d := drain cfg results in
  elems (failed d) = map Cluster (filter failedResult results) /\
  elems (agg d) =
    flat_map (fun r => map (aggOf (Cluster r)) (elems (Blocks r)))
      (filter (fun r => negb (failedResult r)) results) /\
  map FileCluster (elems (clusterFiles d)) =
    map Cluster (filter (fun r => negb (failedResult r)) results) /\
  (failed d = None <-> Forall (fun r => Err r = None) results) /\
  (snd (collectResults filepath_Base cfg out results) = None <->
   Forall (fun r => Err r = None) results).
Proof.
  cbv zeta. destruct (drain_from cfg results (mkDrained None None None))
    as (H1 & H2 & H3 & H4).
  cbn [failed agg clusterFiles elems map List.app] in H1, H2, H3, H4.
  fold (drain cfg results) in H1, H2, H3, H4.
  assert (Hall : filter failedResult results = [] <->
                 Forall (fun r => Err r = None) results).
  { clear. induction results as [|r l IH]; [split; [constructor | reflexivity]|].
    cbn [filter]. unfold failedResult at 1. destruct (Err r) as [e|] eqn:E.
    - split; [discriminate|]. intros H. inversion H; subst. congruence.
    - rewrite IH. split; [intros H; constructor; assumption|].
      intros H. inversion H; assumption. }
  split; [exact H1|]. split; [exact H2|]. split; [exact H3|].
  split; [rewrite H4, <- Hall; tauto|].
  unfold collectResults. cbv zeta.
  fold (drain cfg results).
  assert (Hlen : (len (failed (drain cfg results)) >? 0) = false <->
                 filter failedResult results = []).
  { unfold len. rewrite H1.
    destruct (filter failedResult results) as [|x l]; cbn; split; auto; discriminate. }
  rewrite <- Hall, <- Hlen.
  destruct (len (failed (drain cfg results)) >? 0); cbn [snd];
    split; intros H; try reflexivity; discriminate H.
Qed.

End Drain.

(** *** The severity counts *)

Lemma countStep_total s sev : Total (countStep s sev) = Total s + 1.
Proof.
  unfold countStep. cbv zeta.
  repeat match goal with
         | |- context [if ?c then _ else _] => destruct c
         end; reflexivity.
Qed.

Lemma occurrences_cons sev x l :
  occurrences sev (x :: l) =
  (if (x =? sev)%string then 1 else 0) + occurrences sev l.
Proof.
  unfold occurrences. cbn [count_occ].
  destruct (string_dec x sev) as [-> | Hne].
  - rewrite String.eqb_refl. lia.
  - apply String.eqb_neq in Hne. rewrite Hne. lia.
Qed.

Lemma countStep_counts s sev :
  Fail (countStep s sev) = Fail s + (if (sev =? "FAIL")%string then 1 else 0) /\
  Warn (countStep s sev) = Warn s + (if (sev =? "WARN")%string then 1 else 0) /\
  Info (countStep s sev) = Info s + (if (sev =? "INFO")%string then 1 else 0) /\
  ErrCount (countStep s sev) = ErrCount s + (if (sev =? "ERR")%string then 1 else 0).
Proof.
  unfold countStep. cbv zeta.
  destruct (String.eqb_spec sev "FAIL") as [-> | H1]; [cbn; repeat split; lia|].
  destruct (String.eqb_spec sev "WARN") as [-> | H2]; [cbn; repeat split; lia|].
  destruct (String.eqb_spec sev "INFO") as [-> | H3]; [cbn; repeat split; lia|].
  destruct (String.eqb_spec sev "ERR") as [-> | H4]; cbn; repeat split; lia.
Qed.

Lemma count_fold {A} (sevOf : A -> string) l : forall s,
  let r := fold_left (fun s x => countStep s (sevOf x)) l s in
  Total r = Total s + Z.of_nat (List.length l) /\
  Fail r = Fail s + occurrences "FAIL" (map sevOf l) /\
  Warn r = Warn s + occurrences "WARN" (map sevOf l) /\
  Info r = Info s + occurrences "INFO" (map sevOf l) /\
  ErrCount r = ErrCount s + occurrences "ERR" (map sevOf l).
Proof.
  induction l as [|x l IH]; intros s.
  - cbn. unfold occurrences. cbn. repeat split; lia.
  - cbn [fold_left map]. cbv zeta in IH |- *.
    destruct (IH (countStep s (sevOf x))) as (I0 & I1 & I2 & I3 & I4).
    destruct (countStep_counts s (sevOf x)) as (C1 & C2 & C3 & C4).
    rewrite I0, I1, I2, I3, I4, C1, C2, C3, C4, countStep_total.
    rewrite !occurrences_cons. cbn [List.length].
    repeat split; lia.
Qed.

Lemma indicator_sum x :
  let i sev := if (x =? sev)%string then 1 else 0 in
  i "FAIL" + i "WARN" + i "INFO" + i "ERR" <= 1 /\
  (In x severities -> i "FAIL" + i "WARN" + i "INFO" + i "ERR" = 1).
Proof.
  cbv beta zeta.
  destruct (String.eqb_spec x "FAIL") as [-> | H1]; [cbn; split; [lia | reflexivity]|].
  destruct (String.eqb_spec x "WARN") as [-> | H2]; [cbn; split; [lia | reflexivity]|].
  destruct (String.eqb_spec x "INFO") as [-> | H3]; [cbn; split; [lia | reflexivity]|].
  destruct (String.eqb_spec x "ERR") as [-> | H4]; [cbn; split; [lia | reflexivity]|].
  split; [lia|]. intros [E | [E | [E | [E | []]]]]; congruence.
Qed.

Lemma occurrences_sum l :
  occurrences "FAIL" l + occurrences "WARN" l +
  occurrences "INFO" l + occurrences "ERR" l <= Z.of_nat (List.length l) /\
  (Forall (fun sev => In sev severities) l ->
   occurrences "FAIL" l + occurrences "WARN" l +
   occurrences "INFO" l + occurrences "ERR" l = Z.of_nat (List.length l)).
Proof.
  induction l as [|x l [IH1 IH2]].
  - unfold occurrences. cbn. split; [lia | reflexivity].
  - rewrite !occurrences_cons. rewrite (Nat2Z.inj_succ (List.length l) : Z.of_nat (List.length (x :: l)) = _).
    destruct (indicator_sum x) as [Hle Heq]. cbv zeta in Hle, Heq.
    split; [lia|]. intros H. inversion H as [|? ? Hx Hl]; subst.
    specialize (IH2 Hl). specialize (Heq Hx). lia.
Qed.

(** X16.  The counting loop of the webhook payload ([s]) and the one of
    the JSON report ([r]): in both, the total is the number of rows,
    each of the four counters is the number of rows with its severity,
    and the four counters never add up to more than the total; they
    add up to the total when every severity is one of FAIL, WARN, INFO
    and ERR, as it is for the findings [ParseSummary] returns ([p]). *)
Theorem summary_counts (results : slice AggBlock) (blocks : slice ParsedBlock) text :
  let s := payloadSummary results in
  let r := reportSummary blocks in
  let p := reportSummary (fst (ParseSummary text)) in
  (Total s = len results /\
   Fail s = occurrences "FAIL" (map AggSeverity (elems results)) /\
   Warn s = occurrences "WARN" (map AggSeverity (elems results)) /\
   Info s = occurrences "INFO" (map AggSeverity (elems results)) /\
   ErrCount s = occurrences "ERR" (map AggSeverity (elems results)) /\
   Fail s + Warn s + Info s + ErrCount s <= Total s) /\
  (Total r = len blocks /\
   Fail r = occurrences "FAIL" (map Severity (elems blocks)) /\
   Warn r = occurrences "WARN" (map Severity (elems blocks)) /\
   Info r = occurrences "INFO" (map Severity (elems blocks)) /\
   ErrCount r = occurrences "ERR" (map Severity (elems blocks)) /\
   Fail r + Warn r + Info r + ErrCount r <= Total r) /\
  Fail p + Warn p + Info p + ErrCount p = Total p.
Proof.
  cbv zeta. unfold payloadSummary, reportSummary, len.
  split; [|split].
  - destruct (count_fold AggSeverity (elems results) (mkSummary 0 0 0 0 0))
      as (H0 & H1 & H2 & H3 & H4). cbn [Total Fail Warn Info ErrCount] in *.
    rewrite H0, H1, H2, H3, H4.
    pose proof (proj1 (occurrences_sum (map AggSeverity (elems results)))) as Hs.
    rewrite length_map in Hs. repeat split; lia.
  - destruct (count_fold Severity (elems blocks) (mkSummary 0 0 0 0 0))
      as (H0 & H1 & H2 & H3 & H4). cbn [Total Fail Warn Info ErrCount] in *.
    rewrite H0, H1, H2, H3, H4.
    pose proof (proj1 (occurrences_sum (map Severity (elems blocks)))) as Hs.
    rewrite length_map in Hs. repeat split; lia.
  - destruct (count_fold Severity (elems (fst (ParseSummary text))) (mkSummary 0 0 0 0 0))
      as (H0 & H1 & H2 & H3 & H4). cbn [Total Fail Warn Info ErrCount] in *.
    rewrite H0, H1, H2, H3, H4.
    pose proof (proj2 (occurrences_sum (map Severity (elems (fst (ParseSummary text)))))) as Hs.
    rewrite length_map in Hs. cbn [Z.add]. apply Hs.
    apply Forall_map. eapply Forall_impl; [|apply ParseSummary_severities].
    intros f Hf. exact Hf.
Qed.

End ReportProofs.

(* ================================================================= *)
(** ** Properties of the NCC client *)

Module NCCClientProofs.
Import GoLib Errors Types Config Client ClientProps ErrorsMore ClientMore NCCClient.
Import StringFacts ClientProofs ClientMoreProofs.

Section Calls.
Context {net : Net}.

Lemma healthURL_base cluster user pass httpc cfg :
  baseURL (NewNCCClient cluster user pass httpc cfg) ++ "/v1/cluster" =
  healthURL cluster.
Proof.
  unfold NewNCCClient, healthURL. cbn [baseURL].
  rewrite !sapp_assoc. reflexivity.
Qed.

(** One probe: it makes at most one request, and it succeeds exactly
    when the request can be created and finds the cluster healthy. *)
Lemma checkClusterHealth_cases cluster user pass httpc n :
  (fst (checkClusterHealth cluster user pass httpc n) =
   match http_NewRequest "GET" (healthURL cluster) with
   | Some _ => []
   | None => [healthURL cluster]
   end) /\
  (snd (checkClusterHealth cluster user pass httpc n) = None <->
   creatable cluster /\ healthyAt n cluster).
Proof.
  unfold checkClusterHealth, HealthCheck, creatable, healthyAt.
  rewrite healthURL_base.
  destruct (http_NewRequest "GET" (healthURL cluster)) as [e|] eqn:Hreq.
  - split; [reflexivity|]. cbn [snd]. split; [discriminate | intros [H _]; discriminate H].
  - destruct (httpDo n (healthURL cluster)) as [r e | resp read] eqn:Hdo.
    + split; [reflexivity|]. cbn [snd]. split; [discriminate|].
      intros [_ (resp & read & data & H & _)]. discriminate H.
    + fold (readOrPlaceholder read).
      destruct (Z.eqb_spec (StatusCode resp) 401) as [H401 | H401].
      * split; [reflexivity|]. cbn [snd]. split; [discriminate|].
        intros [_ (resp' & read' & data & H & Hs & _)].
        inversion H; subst. lia.
      * destruct (Z.ltb_spec (StatusCode resp) 200) as [Hlo | Hlo]; cbn [orb].
        -- split; [reflexivity|]. cbn [snd]. split; [discriminate|].
           intros [_ (resp' & read' & data & H & Hs & _)].
           inversion H; subst. lia.
        -- destruct (Z.geb_spec (StatusCode resp) 300) as [Hhi | Hhi].
           ++ split; [reflexivity|]. cbn [snd]. split; [discriminate|].
              intros [_ (resp' & read' & data & H & Hs & _)].
              inversion H; subst. lia.
           ++ destruct (json_Unmarshal_map (readOrPlaceholder read)) as [e | data] eqn:Hj.
              ** split; [reflexivity|]. cbn [snd]. split; [discriminate|].
                 intros [_ (resp' & read' & data & H & _ & Hd)].
                 inversion H; subst. rewrite Hj in Hd. discriminate Hd.
              ** split; [reflexivity|]. cbn [snd]. split; [|reflexivity].
                 intros _. split; [reflexivity|].
                 exists resp, read, data. split; [reflexivity|]. split; [lia | exact Hj].
Qed.

(** X18.  [StartChecks] never panics.  Every request it issues carries
    the same payload, and it issues at most the effective number of
    attempts.  A nil error comes with a task identifier that is not
    empty: the string under [taskUuid] of the decoded 2xx response, or,
    when that is missing, empty or not a string, the string under
    [task_uuid].  An error comes with an empty task identifier and is
    of type network or parse. *)
Theorem StartChecks_result (c : NCCClient) :
  exists r,
    snd (StartChecks c) = Returns r /\
    Forall (sendsBody (Some startPayload)) (fst (StartChecks c)) /\
    Z.of_nat (List.length (attemptsIssued (fst (StartChecks c)))) <=
      effectiveAttempts (cfg c) /\
    startChecksResult c r.
Proof.
  unfold StartChecks. cbv zeta.
  destruct (http_NewRequest "POST" (baseURL c ++ "/v1/ncc/checks")) as [e|].
  - eexists. split; [reflexivity|]. split; [constructor|].
    split; [cbn; pose proof (effectiveAttempts_max (cfg c)); lia|].
    split; [reflexivity | left; reflexivity].
  - set (req := mkRequest (baseURL c ++ "/v1/ncc/checks") (Some (inl startPayload))).
    assert (Hbody : forall e, Body req <> Some (inr e)) by (intros e; discriminate).
    destruct (DoWithRetry_trace_shape (http c) req (cfg c) "start checks" Hbody)
      as (Hsend & m & Hm1 & Hm2 & Hatt & _).
    destruct (DoWithRetry_returns (http c) req (cfg c) "start checks") as [r Hr].
    pose proof (DoWithRetry_ok_response (http c) req (cfg c) "start checks") as Hok.
    destruct (DoWithRetry (http c) req (cfg c) "start checks") as [evs out].
    cbn [fst snd] in Hsend, Hatt, Hr, Hok. subst out.
    assert (Hlen : Z.of_nat (List.length (attemptsIssued evs)) <= effectiveAttempts (cfg c))
      by (rewrite Hatt, countFrom_length; exact Hm2).
    assert (Hret : forall r0, startChecksResult c r0 ->
              exists r1,
                Returns r0 = Returns r1 /\
                Forall (sendsBody (Some startPayload)) evs /\
                Z.of_nat (List.length (attemptsIssued evs)) <=
                  effectiveAttempts (cfg c) /\
                startChecksResult c r1).
    { intros r0 H0. exists r0. split; [reflexivity|].
      split; [exact Hsend|]. split; [exact Hlen | exact H0]. }
    destruct r as [[resp body] [e|]].
    + apply Hret. split; [reflexivity | left; reflexivity].
    + destruct (Hok resp body eq_refl) as (k & r & b & -> & -> & H2 & _ & Hdo).
      cbn [bytesOf].
      destruct (json_Unmarshal_map b) as [e | data] eqn:Hj.
      * apply Hret. split; [reflexivity | right; reflexivity].
      * assert (Hbad : forall e0, ErrorsMore.errorType e0 = Some ErrorTypeParse ->
                         startChecksResult c ("", Some b, Some e0))
          by (intros e0 He0; split; [reflexivity | right; exact He0]).
        assert (Hfound : forall id,
                  (id =? "")%string = false ->
                  (data "taskUuid" = Some (JString id) \/
                   fst (asString (data "taskUuid")) = "" /\
                   data "task_uuid" = Some (JString id)) ->
                  startChecksResult c (id, Some b, None)).
        { intros id Hid Hsrc. split; [apply String.eqb_neq; exact Hid|].
          exists b, data, k, r. repeat (split; [first [reflexivity | assumption]|]).
          exact Hsrc. }
        destruct (data "taskUuid") as [[s|]|] eqn:Ht; cbn [asString fst].
        -- destruct (String.eqb_spec s "") as [-> | Hs].
           ++ destruct (data "task_uuid") as [[a|]|] eqn:Ha; cbn [asString].
              ** destruct (a =? "")%string eqn:Hae; cbn [negb String.eqb];
                   [apply Hret, Hbad; reflexivity|].
                 rewrite Hae. apply Hret, Hfound; [exact Hae|].
                 right. split; reflexivity.
              ** cbn [String.eqb]. apply Hret, Hbad; reflexivity.
              ** cbn [String.eqb]. apply Hret, Hbad; reflexivity.
           ++ apply String.eqb_neq in Hs. rewrite Hs.
              apply Hret, Hfound; [exact Hs|]. left. reflexivity.
        -- cbn [String.eqb].
           destruct (data "task_uuid") as [[a|]|] eqn:Ha; cbn [asString].
           ++ destruct (a =? "")%string eqn:Hae; cbn [negb String.eqb];
                [apply Hret, Hbad; reflexivity|].
              rewrite Hae. apply Hret, Hfound; [exact Hae|].
              right. split; reflexivity.
           ++ cbn [String.eqb]. apply Hret, Hbad; reflexivity.
           ++ cbn [String.eqb]. apply Hret, Hbad; reflexivity.
        -- cbn [String.eqb].
           destruct (data "task_uuid") as [[a|]|] eqn:Ha; cbn [asString].
           ++ destruct (a =? "")%string eqn:Hae; cbn [negb String.eqb];
                [apply Hret, Hbad; reflexivity|].
              rewrite Hae. apply Hret, Hfound; [exact Hae|].
              right. split; reflexivity.
           ++ cbn [String.eqb]. apply Hret, Hbad; reflexivity.
           ++ cbn [String.eqb]. apply Hret, Hbad; reflexivity.
Qed.

Lemma len_zero {A} (l : slice A) : (len l >? 0) = false <-> elems l = [].
Proof.
  unfold len. destruct (elems l) as [|x r]; cbn; split; auto; discriminate.
Qed.

Lemma healthLoop_spec user pass httpc clusters : forall urls failedClusters,
  let r := healthLoop clusters user pass httpc urls failedClusters in
  (List.length (fst r) <= List.length urls + List.length clusters)%nat /\
  (elems (snd r) = [] -> elems failedClusters = [] /\ Forall creatable clusters) /\
  (Forall creatable clusters ->
   fst r = (urls ++ map healthURL clusters)%list /\
   (elems (snd r) = [] <->
    elems failedClusters = [] /\
    forall i cl, nth_error clusters i = Some cl ->
                 healthyAt (List.length urls + i) cl)).
Proof.
  induction clusters as [|cluster rest IH]; intros urls failedClusters; cbv zeta.
  - cbn [healthLoop fst snd map List.length]. rewrite app_nil_r.
    split; [lia|]. split; [intros H; split; [exact H | constructor]|].
    intros _. split; [reflexivity|]. split.
    + intros H. split; [exact H|]. intros i cl Hn. destruct i; discriminate Hn.
    + intros [H _]. exact H.
  - cbn [healthLoop].
    destruct (checkClusterHealth_cases cluster user pass httpc (List.length urls))
      as [Hu Hok].
    destruct (checkClusterHealth cluster user pass httpc (List.length urls))
      as [u [e|]] eqn:Hc; cbn [fst snd] in Hu, Hok.
    + specialize (IH (urls ++ u)%list (append failedClusters cluster)).
      cbv zeta in IH. destruct IH as (I1 & I2 & I3).
      assert (Hlen : (List.length u <= 1)%nat)
        by (rewrite Hu; destruct (http_NewRequest "GET" (healthURL cluster)); cbn; lia).
      split; [rewrite length_app in I1; cbn [List.length]; lia|].
      split.
      * intros H. apply I2 in H. destruct H as [H _].
        unfold append in H. cbn [elems] in H. destruct (elems failedClusters); discriminate H.
      * intros Hall. pose proof (Forall_inv Hall) as Hcr.
        pose proof (Forall_inv_tail Hall) as Hrest.
        destruct (I3 Hrest) as [J1 J2]. unfold creatable in Hcr.
        rewrite Hcr in Hu. subst u. rewrite J1, <- app_assoc.
        split; [reflexivity|]. split.
        -- intros H. apply J2 in H. destruct H as [H _].
           unfold append in H. cbn [elems] in H.
           destruct (elems failedClusters); discriminate H.
        -- intros [_ H]. specialize (H 0%nat cluster eq_refl).
           rewrite Nat.add_0_r in H.
           pose proof (proj2 Hok (conj Hcr H)) as Habs. discriminate Habs.
    + specialize (IH (urls ++ u)%list failedClusters).
      cbv zeta in IH. destruct IH as (I1 & I2 & I3).
      destruct (proj1 Hok eq_refl) as [Hcr Hh]. unfold creatable in Hcr.
      rewrite Hcr in Hu. subst u.
      split; [rewrite length_app in I1; cbn [List.length] in *; lia|].
      split.
      * intros H. apply I2 in H. destruct H as [H1 H2].
        split; [exact H1 | constructor; assumption].
      * intros Hall. pose proof (Forall_inv_tail Hall) as Hrest.
        destruct (I3 Hrest) as [J1 J2]. rewrite J1, <- app_assoc.
        split; [reflexivity|]. rewrite J2. rewrite length_app. cbn [List.length].
        split.
        -- intros [H1 H2]. split; [exact H1|]. intros i cl Hn. destruct i as [|i].
           ++ inversion Hn; subst. rewrite Nat.add_0_r. exact Hh.
           ++ replace (List.length urls + S i)%nat
                with (List.length urls + 1 + i)%nat by lia.
              apply H2. exact Hn.
        -- intros [H1 H2]. split; [exact H1|]. intros i cl Hn.
           replace (List.length urls + 1 + i)%nat
             with (List.length urls + S i)%nat by lia.
           apply H2. exact Hn.
Qed.

(** X17.  [performHealthChecks] probes the clusters in their order,
    each with one request and no retry, and goes on after a failure.
    It returns nil exactly when every request could be created and
    every probe found a 2xx status (so not 401) with a body that
    decodes as a JSON object. *)
Theorem performHealthChecks_probes clusters user pass httpc :
  let r := performHealthChecks clusters user pass httpc in
  (List.length (fst r) <= List.length clusters)%nat /\
  (snd r = None -> Forall creatable clusters) /\
  (Forall creatable clusters ->
   fst r = map healthURL clusters /\
   (snd r = None <->
    forall i cl, nth_error clusters i = Some cl -> healthyAt i cl)).
Proof.
  cbv zeta. unfold performHealthChecks.
  destruct (healthLoop_spec user pass httpc clusters [] None) as (H1 & H2 & H3).
  cbv zeta in H1, H2, H3.
  destruct (healthLoop clusters user pass httpc [] None) as [urls failedClusters].
  cbn [fst snd List.length List.app elems] in H1, H2, H3.
  pose proof (len_zero failedClusters) as Hz.
  destruct (len failedClusters >? 0) eqn:Hl; cbn [fst snd].
  - split; [lia|]. split; [discriminate|]. intros Hall.
    destruct (H3 Hall) as [J1 J2]. split; [exact J1|].
    split; [discriminate|]. intros H.
    assert (He : elems failedClusters = []) by (apply J2; split; [reflexivity | exact H]).
    apply Hz in He. discriminate He.
  - assert (He : elems failedClusters = []) by (apply Hz; reflexivity).
    split; [lia|]. split; [intros _; apply H2; exact He|]. intros Hall.
    destruct (H3 Hall) as [J1 J2]. split; [exact J1|].
    split; [intros _; apply J2; exact He | reflexivity].
Qed.

End Calls.

End NCCClientProofs.

(* ================================================================= *)
(** ** Properties of package [config] *)

Module ConfigLoadProofs.
Import GoLib Errors Types Config Cmd ErrorsMore ConfigLoad.

Section Load.
Context {lib : Lib}.

Lemma splitCSV_fold l : forall acc,
  fold_left
    (fun out p =>
       let p := TrimSpace p in
       if negb (p =? "")%string then append out p else out)
    l (Some acc) =
  Some (acc ++ filter nonEmpty (map TrimSpace l))%list.
Proof.
  induction l as [|x l IH]; intros acc.
  - cbn. rewrite app_nil_r. reflexivity.
  - cbn [fold_left map filter]. cbv zeta.
    change (nonEmpty (TrimSpace x)) with (negb (TrimSpace x =? "")%string).
    destruct (negb (TrimSpace x =? "")%string).
    + unfold append. cbn [elems]. rewrite IH, <- app_assoc. reflexivity.
    + apply IH.
Qed.

Lemma filter_nonEmpty l : Forall (fun p => p <> "") (filter nonEmpty l).
Proof.
  apply Forall_forall. intros p Hp. apply filter_In in Hp.
  destruct Hp as [_ Hp]. unfold nonEmpty in Hp.
  apply negb_true_iff, String.eqb_neq in Hp. exact Hp.
Qed.

(** X19.  [splitCSV] returns nil exactly for the empty string.  For
    any other string it returns, in order, the parts between commas
    with the surrounding space trimmed, leaving out the parts that are
    empty after trimming; so no element of its result is empty, and
    the result can be empty without being nil. *)
Theorem splitCSV_elements s :
  (splitCSV s = None <-> s = "") /\
  elems (splitCSV s) =
    (if (s =? "")%string then []
     else filter nonEmpty (map TrimSpace (Split s ","))) /\
  Forall (fun p => p <> "") (elems (splitCSV s)).
Proof.
  unfold splitCSV. cbv zeta.
  destruct (String.eqb_spec s "") as [-> | Hne].
  - split; [split; reflexivity|]. split; [reflexivity | constructor].
  - rewrite splitCSV_fold. cbn [List.app elems].
    split; [split; [discriminate | contradiction]|].
    split; [reflexivity | apply filter_nonEmpty].
Qed.

Lemma splitCSV_nonEmpty s : Forall (fun p => p <> "") (elems (splitCSV s)).
Proof.
  unfold splitCSV. cbv zeta. destruct (s =? "")%string; [constructor|].
  rewrite splitCSV_fold. apply filter_nonEmpty.
Qed.

Lemma LoadConfig_loaded env c err :
  LoadConfig env = (Some c, err) -> err = None /\ loaded c.
Proof.
  unfold LoadConfig. cbv zeta.
  match goal with
  | |- (match ?fe with Some _ => _ | None => _ end) = _ -> _ =>
      destruct fe; [discriminate|]
  end.
  intros H. inversion H; subst. clear H. split; [reflexivity|].
  unfold loaded. cbn [Core MaxParallel RetryMaxAttempts RetryBaseDelay RetryMaxDelay
                      OutputDirLogs OutputDirFiltered LogFile OutputFormats Clusters].
  split; [destruct (Z.leb_spec (GetInt (viperLoaded env) "max-parallel") 0); lia|].
  split; [destruct (Z.leb_spec (GetInt (viperLoaded env) "retry-max-attempts") 0); lia|].
  split.
  { match goal with |- 0 < (if ?d <=? 0 then _ else _) =>
      destruct (Z.leb_spec d 0); [unfold Millisecond|]; lia end. }
  split.
  { match goal with |- 0 < (if ?d <=? 0 then _ else _) =>
      destruct (Z.leb_spec d 0); [unfold Second, Millisecond|]; lia end. }
  split.
  { destruct (String.eqb_spec (GetString (viperLoaded env) "output-dir-logs") "");
      [discriminate | assumption]. }
  split.
  { destruct (String.eqb_spec (GetString (viperLoaded env) "output-dir-filtered") "");
      [discriminate | assumption]. }
  split.
  { destruct (String.eqb_spec (GetString (viperLoaded env) "log-file") "");
      [discriminate | assumption]. }
  pose proof (splitCSV_nonEmpty (GetString (viperLoaded env) "outputs")) as Hout.
  unfold len.
  destruct (elems (splitCSV (GetString (viperLoaded env) "outputs"))) as [|f fs] eqn:Ef.
  - cbn. split; [discriminate|]. split; [|apply splitCSV_nonEmpty].
    constructor; [discriminate | constructor].
  - cbn [List.length]. destruct (Z.eqb_spec (Z.of_nat (S (List.length fs))) 0); [lia|].
    rewrite Ef. split; [discriminate|]. split; [exact Hout | apply splitCSV_nonEmpty].
Qed.

(** X20.  [LoadConfig] returns a configuration with a nil error, or no
    configuration with an error.  In a configuration it returns, the
    parallelism and the number of attempts are at least 1, the two
    retry delays are positive, the two directories and the log file
    are not empty, there is at least one output format, and no output
    format and no cluster name is empty. *)
Theorem LoadConfig_defaults env :
  match LoadConfig env with
  | (Some c, err) => err = None /\ loaded c
  | (None, err) => err <> None
  end.
Proof.
  destruct (LoadConfig env) as [[c|] err] eqn:E.
  - apply (LoadConfig_loaded env c err E).
  - unfold LoadConfig in E. cbv zeta in E.
    match type of E with
    | (match ?fe with Some _ => _ | None => _ end) = _ =>
        destruct fe; [|discriminate E]
    end.
    inversion E. discriminate.
Qed.

Lemma Validate_loaded c :
  loaded c ->
  (Validate c = None <->
   elems (Clusters c) <> [] /\ Username (Core c) <> "" /\
   0 < Timeout (Core c) /\ 0 < RequestTimeout (Core c) /\
   0 < PollInterval (Core c)).
Proof.
  intros (Hp & Ha & _). unfold Validate, len.
  destruct (elems (Clusters c)) as [|cl cls].
  - cbn. split; [discriminate | intros [H _]; contradiction].
  - cbn [List.length].
    destruct (Z.eqb_spec (Z.of_nat (S (List.length cls))) 0) as [E0 | _]; [lia|].
    destruct (String.eqb_spec (Username (Core c)) "") as [Hu | Hu];
      [split; [discriminate | intros (_ & H & _); contradiction]|].
    destruct (Z.leb_spec (MaxParallel (Core c)) 0) as [E1 | _]; [lia|].
    destruct (Z.leb_spec (Timeout (Core c)) 0) as [E2 | E2];
      [split; [discriminate | intros (_ & _ & H & _); lia]|].
    destruct (Z.leb_spec (RequestTimeout (Core c)) 0) as [E3 | E3];
      [split; [discriminate | intros (_ & _ & _ & H & _); lia]|].
    destruct (Z.leb_spec (PollInterval (Core c)) 0) as [E4 | E4];
      [split; [discriminate | intros (_ & _ & _ & _ & H); lia]|].
    destruct (Z.leb_spec (RetryMaxAttempts (Core c)) 0) as [E5 | _]; [lia|].
    split; [intros _|reflexivity].
    split; [discriminate|]. split; [exact Hu|]. repeat split; assumption.
Qed.

(** X21.  For a configuration [LoadConfig] returned, [Validate]
    succeeds exactly when there is a cluster, the user name is not
    empty, and the timeout, the request timeout and the poll interval
    are positive: its tests on the parallelism and on the number of
    attempts cannot fail.  [Validate] does not look at the poll jitter
    or at the retry delays, and [LoadConfig] takes over any poll jitter
    that parses, be it zero or negative. *)
Theorem Validate_after_LoadConfig env c :
  LoadConfig env = (Some c, None) ->
  (Validate c = None <->
   elems (Clusters c) <> [] /\ Username (Core c) <> "" /\
   0 < Timeout (Core c) /\ 0 < RequestTimeout (Core c) /\
   0 < PollInterval (Core c)) /\
  (forall jitter base maxDelay,
     Validate (withDelays c jitter base maxDelay) = Validate c) /\
  (forall d,
     GetString (viperLoaded env) "poll-jitter" <> "" ->
     ParseDuration env (GetString (viperLoaded env) "poll-jitter") = Some d ->
     PollJitter (Core c) = d).
Proof.
  intros H. destruct (LoadConfig_loaded env c None H) as [_ Hl].
  split; [apply Validate_loaded; exact Hl|]. split; [reflexivity|].
  intros d Hne Hd. unfold LoadConfig in H. cbv zeta in H.
  match type of H with
  | (match ?fe with Some _ => _ | None => _ end) = _ =>
      destruct fe; [discriminate H|]
  end.
  inversion H; subst. cbn [Core PollJitter]. unfold mustParseDur.
  apply String.eqb_neq in Hne. rewrite Hne, Hd. reflexivity.
Qed.

End Load.

Lemma Validate_after_LoadConfig_witness :
  Validate flagsConfig = None /\ PollJitter (Core flagsConfig) = 0.
Proof.
  destruct (@Validate_after_LoadConfig CmdProps.exampleLib flagsEnv flagsConfig)
    as (Hv & _ & Hj).
  - vm_compute. reflexivity.
  - split.
    + apply Hv. vm_compute. repeat split; try discriminate; reflexivity.
    + apply Hj; [discriminate | reflexivity].
Defined.

End ConfigLoadProofs.

(* ================================================================= *)
(** ** Properties of the label escaping and of the webhook *)

Module MetricsProofs.
Import GoLib ParserProps Metrics.
Import StringFacts ParserMoreProofs.

Lemma escapeLabel_cons c s :
  escapeLabel (String c s) = escapeLabelByte c ++ escapeLabel s.
Proof.
  unfold escapeLabel, escapeLabelByte. cbv zeta.
  cbn [ReplaceAll_byte].
  destruct (Ascii.eqb_spec c backslash) as [-> | H1].
  - rewrite !ReplaceAll_byte_app. reflexivity.
  - cbn [ReplaceAll_byte].
    destruct (Ascii.eqb_spec c quoteByte) as [-> | H2].
    + rewrite !ReplaceAll_byte_app. reflexivity.
    + cbn [ReplaceAll_byte].
      destruct (Ascii.eqb_spec c nl) as [-> | H3]; reflexivity.
Qed.

Lemma unescapeLabel_byte c rest :
  unescapeLabel (escapeLabelByte c ++ rest) = String c (unescapeLabel rest).
Proof.
  unfold escapeLabelByte.
  destruct (Ascii.eqb_spec c backslash) as [-> | H1]; [reflexivity|].
  destruct (Ascii.eqb_spec c quoteByte) as [-> | H2]; [reflexivity|].
  destruct (Ascii.eqb_spec c nl) as [-> | H3]; [reflexivity|].
  cbn [String.append unescapeLabel].
  apply Ascii.eqb_neq in H1. rewrite H1. reflexivity.
Qed.

(** X22.  [escapeLabel] writes each byte on its own: two backslashes
    for a backslash, backslash and quote for a double quote, backslash
    and n for a line feed, and any other byte as it is.  The result
    holds no line feed, and the label can be read back from it, so two
    different labels are never escaped to the same text. *)
Theorem escapeLabel_reversible s :
  escapeLabel s =
    String.concat "" (map escapeLabelByte (list_ascii_of_string s)) /\
  hasByte nl (escapeLabel s) = false /\
  unescapeLabel (escapeLabel s) = s /\
  (forall t, escapeLabel t = escapeLabel s -> t = s).
Proof.
  assert (Hback : forall u, unescapeLabel (escapeLabel u) = u).
  { induction u as [|c u IH]; [reflexivity|].
    rewrite escapeLabel_cons, unescapeLabel_byte, IH. reflexivity. }
  split; [|split; [|split]].
  - induction s as [|c s IH]; [reflexivity|].
    rewrite escapeLabel_cons. cbn [list_ascii_of_string map].
    rewrite concat_cons, IH. reflexivity.
  - unfold escapeLabel. cbv zeta.
    apply hasByte_ReplaceAll; [reflexivity | left; reflexivity].
  - apply Hback.
  - intros t H. rewrite <- (Hback t), H. apply Hback.
Qed.

End MetricsProofs.

Module WebhookProofs.
Import GoLib Errors Types Report Webhook ErrorsMore.

(** X23.  [SendReport] sends at most one request and never retries.
    With an empty URL it sends nothing and reports a configuration
    error.  It returns nil exactly when the payload could be encoded,
    the request created, and the response has a status below 400; the
    request then carries the configured method and URL and the encoded
    payload. *)
Theorem SendReport_result config env results failedClusters :
  let r := SendReport config env results failedClusters in
  (List.length (fst r) <= 1)%nat /\
  (URL config = "" ->
   r = ([], Some (New ErrorTypeConfig "webhook URL not configured"))) /\
  (snd r = None <->
   URL config <> "" /\
   exists payload status,
     buildPayload env results failedClusters = inr payload /\
     http_NewRequest env (Method config) (URL config) = None /\
     fst r = [mkSent (Method config) (URL config)
                (("Content-Type", "application/json") :: Headers config) payload] /\
     clientDo env (mkSent (Method config) (URL config)
                     (("Content-Type", "application/json") :: Headers config)
                     payload) = inr status /\
     status < 400).
Proof.
  cbv zeta. unfold SendReport.
  destruct (String.eqb_spec (URL config) "") as [Hu | Hu].
  - split; [cbn; lia|]. split; [reflexivity|]. cbn [snd].
    split; [discriminate | intros [H _]; contradiction].
  - destruct (buildPayload env results failedClusters) as [e | payload].
    + split; [cbn; lia|]. split; [contradiction|]. cbn [snd].
      split; [discriminate | intros [_ (p & st & H & _)]; discriminate H].
    + destruct (http_NewRequest env (Method config) (URL config)) as [e|].
      * split; [cbn; lia|]. split; [contradiction|]. cbn [snd].
        split; [discriminate | intros [_ (p & st & _ & H & _)]; discriminate H].
      * destruct (clientDo env _) as [e | status] eqn:Hdo.
        -- split; [cbn; lia|]. split; [contradiction|]. cbn [snd].
           split; [discriminate|]. intros [_ (p & st & Hp & _ & _ & H & _)].
           inversion Hp; subst p. rewrite Hdo in H. discriminate H.
        -- destruct (Z.geb_spec status 400) as [Hs | Hs].
           ++ split; [cbn; lia|]. split; [contradiction|]. cbn [snd].
              split; [discriminate|]. intros [_ (p & st & Hp & _ & _ & H & Hlt)].
              inversion Hp; subst p. rewrite Hdo in H. inversion H; subst. lia.
           ++ split; [cbn; lia|]. split; [contradiction|]. cbn [fst snd].
              split; [|reflexivity]. intros _. split; [exact Hu|].
              exists payload, status.
              split; [reflexivity|]. split; [reflexivity|].
              split; [reflexivity|]. split; [exact Hdo | lia].
Qed.

End WebhookProofs.
